(** * Inscripciones Evento: the booking transaction and its surrounding glue

    A shallow embedding of [streamlit_app.py]: the configuration lookups,
    the database operations the page uses to list and reserve sessions,
    the submit handler of the booking form and the admin password gate,
    followed by the properties proved about them. *)

From Stdlib Require Import ZArith NArith Lia Bool Ascii.
From stdpp Require Import base option list gmap strings.

Local Open Scope Z_scope.
Local Open Scope string_scope.

(** ** Python strings

    A Python [str] is a sequence of Unicode code points.  What [str.strip],
    [str.lower] and [str.isupper] do depends on the character database of
    the interpreter; the tables below are those of Unicode 14.0, which
    CPython 3.11 carries, each written as runs of code points: the first
    and the last code point of the run and the step between its members. *)
Module Unicode.

Local Open Scope N_scope.

Definition in_run (c : N) (run : N * N * N) : bool :=
  let '(first, last, step) := run in
  (first <=? c) && (c <=? last) && ((c - first) mod step =? 0).

Definition member (table : list (N * N * N)) (c : N) : bool :=
  existsb (in_run c) table.

(** The members of a run, in order. *)
Definition points (run : N * N * N) : list N :=
  let '(first, last, step) := run in
  (fun k => first + N.of_nat k * step) <$>
    seq 0 (S (N.to_nat ((last - first) / step))).

(** [Py_UNICODE_ISSPACE]: the code points [str.isspace] accepts. *)
Definition White_Space : list (N * N * N) :=
  [(0x9, 0xD, 1); (0x1C, 0x20, 1); (0x85, 0x85, 1); (0xA0, 0xA0, 1);
    (0x1680, 0x1680, 1); (0x2000, 0x200A, 1); (0x2028, 0x2029, 1);
    (0x202F, 0x202F, 1); (0x205F, 0x205F, 1); (0x3000, 0x3000, 1)].

(** [Py_UNICODE_ISUPPER]: the code points with the property Uppercase. *)
Definition Uppercase : list (N * N * N) :=
  [(0x41, 0x5A, 1); (0xC0, 0xD6, 1); (0xD8, 0xDE, 1); (0x100, 0x136, 2);
    (0x139, 0x147, 2); (0x14A, 0x178, 2); (0x179, 0x17D, 2);
    (0x181, 0x182, 1); (0x184, 0x186, 2); (0x187, 0x189, 2);
    (0x18A, 0x18B, 1); (0x18E, 0x191, 1); (0x193, 0x194, 1);
    (0x196, 0x198, 1); (0x19C, 0x19D, 1); (0x19F, 0x1A0, 1);
    (0x1A2, 0x1A6, 2); (0x1A7, 0x1A9, 2); (0x1AC, 0x1AE, 2);
    (0x1AF, 0x1B1, 2); (0x1B2, 0x1B3, 1); (0x1B5, 0x1B7, 2);
    (0x1B8, 0x1B8, 1); (0x1BC, 0x1BC, 1); (0x1C4, 0x1C4, 1);
    (0x1C7, 0x1C7, 1); (0x1CA, 0x1CA, 1); (0x1CD, 0x1DB, 2);
    (0x1DE, 0x1EE, 2); (0x1F1, 0x1F1, 1); (0x1F4, 0x1F6, 2);
    (0x1F7, 0x1F8, 1); (0x1FA, 0x232, 2); (0x23A, 0x23B, 1);
    (0x23D, 0x23E, 1); (0x241, 0x243, 2); (0x244, 0x246, 1);
    (0x248, 0x24E, 2); (0x370, 0x372, 2); (0x376, 0x376, 1);
    (0x37F, 0x37F, 1); (0x386, 0x388, 2); (0x389, 0x38A, 1);
    (0x38C, 0x38E, 2); (0x38F, 0x391, 2); (0x392, 0x3A1, 1);
    (0x3A3, 0x3AB, 1); (0x3CF, 0x3CF, 1); (0x3D2, 0x3D4, 1);
    (0x3D8, 0x3EE, 2); (0x3F4, 0x3F4, 1); (0x3F7, 0x3F9, 2);
    (0x3FA, 0x3FA, 1); (0x3FD, 0x42F, 1); (0x460, 0x480, 2);
    (0x48A, 0x4C0, 2); (0x4C1, 0x4CD, 2); (0x4D0, 0x52E, 2);
    (0x531, 0x556, 1); (0x10A0, 0x10C5, 1); (0x10C7, 0x10C7, 1);
    (0x10CD, 0x10CD, 1); (0x13A0, 0x13F5, 1); (0x1C90, 0x1CBA, 1);
    (0x1CBD, 0x1CBF, 1); (0x1E00, 0x1E94, 2); (0x1E9E, 0x1EFE, 2);
    (0x1F08, 0x1F0F, 1); (0x1F18, 0x1F1D, 1); (0x1F28, 0x1F2F, 1);
    (0x1F38, 0x1F3F, 1); (0x1F48, 0x1F4D, 1); (0x1F59, 0x1F5F, 2);
    (0x1F68, 0x1F6F, 1); (0x1FB8, 0x1FBB, 1); (0x1FC8, 0x1FCB, 1);
    (0x1FD8, 0x1FDB, 1); (0x1FE8, 0x1FEC, 1); (0x1FF8, 0x1FFB, 1);
    (0x2102, 0x2102, 1); (0x2107, 0x2107, 1); (0x210B, 0x210D, 1);
    (0x2110, 0x2112, 1); (0x2115, 0x2115, 1); (0x2119, 0x211D, 1);
    (0x2124, 0x212A, 2); (0x212B, 0x212D, 1); (0x2130, 0x2133, 1);
    (0x213E, 0x213F, 1); (0x2145, 0x2145, 1); (0x2160, 0x216F, 1);
    (0x2183, 0x2183, 1); (0x24B6, 0x24CF, 1); (0x2C00, 0x2C2F, 1);
    (0x2C60, 0x2C62, 2); (0x2C63, 0x2C64, 1); (0x2C67, 0x2C6D, 2);
    (0x2C6E, 0x2C70, 1); (0x2C72, 0x2C72, 1); (0x2C75, 0x2C75, 1);
    (0x2C7E, 0x2C80, 1); (0x2C82, 0x2CE2, 2); (0x2CEB, 0x2CED, 2);
    (0x2CF2, 0x2CF2, 1); (0xA640, 0xA66C, 2); (0xA680, 0xA69A, 2);
    (0xA722, 0xA72E, 2); (0xA732, 0xA76E, 2); (0xA779, 0xA77D, 2);
    (0xA77E, 0xA786, 2); (0xA78B, 0xA78D, 2); (0xA790, 0xA792, 2);
    (0xA796, 0xA7AA, 2); (0xA7AB, 0xA7AE, 1); (0xA7B0, 0xA7B4, 1);
    (0xA7B6, 0xA7C4, 2); (0xA7C5, 0xA7C7, 1); (0xA7C9, 0xA7C9, 1);
    (0xA7D0, 0xA7D0, 1); (0xA7D6, 0xA7D8, 2); (0xA7F5, 0xA7F5, 1);
    (0xFF21, 0xFF3A, 1); (0x10400, 0x10427, 1); (0x104B0, 0x104D3, 1);
    (0x10570, 0x1057A, 1); (0x1057C, 0x1058A, 1); (0x1058C, 0x10592, 1);
    (0x10594, 0x10595, 1); (0x10C80, 0x10CB2, 1); (0x118A0, 0x118BF, 1);
    (0x16E40, 0x16E5F, 1); (0x1D400, 0x1D419, 1); (0x1D434, 0x1D44D, 1);
    (0x1D468, 0x1D481, 1); (0x1D49C, 0x1D49E, 2); (0x1D49F, 0x1D49F, 1);
    (0x1D4A2, 0x1D4A2, 1); (0x1D4A5, 0x1D4A6, 1); (0x1D4A9, 0x1D4AC, 1);
    (0x1D4AE, 0x1D4B5, 1); (0x1D4D0, 0x1D4E9, 1); (0x1D504, 0x1D505, 1);
    (0x1D507, 0x1D50A, 1); (0x1D50D, 0x1D514, 1); (0x1D516, 0x1D51C, 1);
    (0x1D538, 0x1D539, 1); (0x1D53B, 0x1D53E, 1); (0x1D540, 0x1D544, 1);
    (0x1D546, 0x1D546, 1); (0x1D54A, 0x1D550, 1); (0x1D56C, 0x1D585, 1);
    (0x1D5A0, 0x1D5B9, 1); (0x1D5D4, 0x1D5ED, 1); (0x1D608, 0x1D621, 1);
    (0x1D63C, 0x1D655, 1); (0x1D670, 0x1D689, 1); (0x1D6A8, 0x1D6C0, 1);
    (0x1D6E2, 0x1D6FA, 1); (0x1D71C, 0x1D734, 1); (0x1D756, 0x1D76E, 1);
    (0x1D790, 0x1D7A8, 1); (0x1D7CA, 0x1D7CA, 1); (0x1E900, 0x1E921, 1);
    (0x1F130, 0x1F149, 1); (0x1F150, 0x1F169, 1); (0x1F170, 0x1F189, 1)].

(** [_PyUnicode_IsCased]: the code points with the property Cased. *)
Definition Cased : list (N * N * N) :=
  [(0x41, 0x5A, 1); (0x61, 0x7A, 1); (0xAA, 0xAA, 1); (0xB5, 0xB5, 1);
    (0xBA, 0xBA, 1); (0xC0, 0xD6, 1); (0xD8, 0xF6, 1); (0xF8, 0x1BA, 1);
    (0x1BC, 0x1BF, 1); (0x1C4, 0x293, 1); (0x295, 0x2B8, 1);
    (0x2C0, 0x2C1, 1); (0x2E0, 0x2E4, 1); (0x345, 0x345, 1);
    (0x370, 0x373, 1); (0x376, 0x377, 1); (0x37A, 0x37D, 1);
    (0x37F, 0x37F, 1); (0x386, 0x388, 2); (0x389, 0x38A, 1);
    (0x38C, 0x38E, 2); (0x38F, 0x3A1, 1); (0x3A3, 0x3F5, 1);
    (0x3F7, 0x481, 1); (0x48A, 0x52F, 1); (0x531, 0x556, 1);
    (0x560, 0x588, 1); (0x10A0, 0x10C5, 1); (0x10C7, 0x10C7, 1);
    (0x10CD, 0x10CD, 1); (0x10D0, 0x10FA, 1); (0x10FD, 0x10FF, 1);
    (0x13A0, 0x13F5, 1); (0x13F8, 0x13FD, 1); (0x1C80, 0x1C88, 1);
    (0x1C90, 0x1CBA, 1); (0x1CBD, 0x1CBF, 1); (0x1D00, 0x1DBF, 1);
    (0x1E00, 0x1F15, 1); (0x1F18, 0x1F1D, 1); (0x1F20, 0x1F45, 1);
    (0x1F48, 0x1F4D, 1); (0x1F50, 0x1F57, 1); (0x1F59, 0x1F5F, 2);
    (0x1F60, 0x1F7D, 1); (0x1F80, 0x1FB4, 1); (0x1FB6, 0x1FBC, 1);
    (0x1FBE, 0x1FBE, 1); (0x1FC2, 0x1FC4, 1); (0x1FC6, 0x1FCC, 1);
    (0x1FD0, 0x1FD3, 1); (0x1FD6, 0x1FDB, 1); (0x1FE0, 0x1FEC, 1);
    (0x1FF2, 0x1FF4, 1); (0x1FF6, 0x1FFC, 1); (0x2071, 0x2071, 1);
    (0x207F, 0x207F, 1); (0x2090, 0x209C, 1); (0x2102, 0x2102, 1);
    (0x2107, 0x2107, 1); (0x210A, 0x2113, 1); (0x2115, 0x2115, 1);
    (0x2119, 0x211D, 1); (0x2124, 0x212A, 2); (0x212B, 0x212D, 1);
    (0x212F, 0x2134, 1); (0x2139, 0x2139, 1); (0x213C, 0x213F, 1);
    (0x2145, 0x2149, 1); (0x214E, 0x214E, 1); (0x2160, 0x217F, 1);
    (0x2183, 0x2184, 1); (0x24B6, 0x24E9, 1); (0x2C00, 0x2CE4, 1);
    (0x2CEB, 0x2CEE, 1); (0x2CF2, 0x2CF3, 1); (0x2D00, 0x2D25, 1);
    (0x2D27, 0x2D27, 1); (0x2D2D, 0x2D2D, 1); (0xA640, 0xA66D, 1);
    (0xA680, 0xA69D, 1); (0xA722, 0xA787, 1); (0xA78B, 0xA78E, 1);
    (0xA790, 0xA7CA, 1); (0xA7D0, 0xA7D1, 1); (0xA7D3, 0xA7D5, 2);
    (0xA7D6, 0xA7D9, 1); (0xA7F5, 0xA7F6, 1); (0xA7F8, 0xA7FA, 1);
    (0xAB30, 0xAB5A, 1); (0xAB5C, 0xAB68, 1); (0xAB70, 0xABBF, 1);
    (0xFB00, 0xFB06, 1); (0xFB13, 0xFB17, 1); (0xFF21, 0xFF3A, 1);
    (0xFF41, 0xFF5A, 1); (0x10400, 0x1044F, 1); (0x104B0, 0x104D3, 1);
    (0x104D8, 0x104FB, 1); (0x10570, 0x1057A, 1); (0x1057C, 0x1058A, 1);
    (0x1058C, 0x10592, 1); (0x10594, 0x10595, 1); (0x10597, 0x105A1, 1);
    (0x105A3, 0x105B1, 1); (0x105B3, 0x105B9, 1); (0x105BB, 0x105BC, 1);
    (0x10780, 0x10780, 1); (0x10783, 0x10785, 1); (0x10787, 0x107B0, 1);
    (0x107B2, 0x107BA, 1); (0x10C80, 0x10CB2, 1); (0x10CC0, 0x10CF2, 1);
    (0x118A0, 0x118DF, 1); (0x16E40, 0x16E7F, 1); (0x1D400, 0x1D454, 1);
    (0x1D456, 0x1D49C, 1); (0x1D49E, 0x1D49F, 1); (0x1D4A2, 0x1D4A2, 1);
    (0x1D4A5, 0x1D4A6, 1); (0x1D4A9, 0x1D4AC, 1); (0x1D4AE, 0x1D4B9, 1);
    (0x1D4BB, 0x1D4BD, 2); (0x1D4BE, 0x1D4C3, 1); (0x1D4C5, 0x1D505, 1);
    (0x1D507, 0x1D50A, 1); (0x1D50D, 0x1D514, 1); (0x1D516, 0x1D51C, 1);
    (0x1D51E, 0x1D539, 1); (0x1D53B, 0x1D53E, 1); (0x1D540, 0x1D544, 1);
    (0x1D546, 0x1D546, 1); (0x1D54A, 0x1D550, 1); (0x1D552, 0x1D6A5, 1);
    (0x1D6A8, 0x1D6C0, 1); (0x1D6C2, 0x1D6DA, 1); (0x1D6DC, 0x1D6FA, 1);
    (0x1D6FC, 0x1D714, 1); (0x1D716, 0x1D734, 1); (0x1D736, 0x1D74E, 1);
    (0x1D750, 0x1D76E, 1); (0x1D770, 0x1D788, 1); (0x1D78A, 0x1D7A8, 1);
    (0x1D7AA, 0x1D7C2, 1); (0x1D7C4, 0x1D7CB, 1); (0x1DF00, 0x1DF09, 1);
    (0x1DF0B, 0x1DF1E, 1); (0x1E900, 0x1E943, 1); (0x1F130, 0x1F149, 1);
    (0x1F150, 0x1F169, 1); (0x1F170, 0x1F189, 1)].

(** [_PyUnicode_IsCaseIgnorable]: the code points with the property
    Case_Ignorable. *)
Definition Case_Ignorable : list (N * N * N) :=
  [(0x27, 0x27, 1); (0x2E, 0x2E, 1); (0x3A, 0x3A, 1); (0x5E, 0x60, 2);
    (0xA8, 0xA8, 1); (0xAD, 0xAF, 2); (0xB4, 0xB4, 1); (0xB7, 0xB8, 1);
    (0x2B0, 0x36F, 1); (0x374, 0x375, 1); (0x37A, 0x37A, 1);
    (0x384, 0x385, 1); (0x387, 0x387, 1); (0x483, 0x489, 1);
    (0x559, 0x559, 1); (0x55F, 0x55F, 1); (0x591, 0x5BD, 1);
    (0x5BF, 0x5C1, 2); (0x5C2, 0x5C4, 2); (0x5C5, 0x5C7, 2);
    (0x5F4, 0x5F4, 1); (0x600, 0x605, 1); (0x610, 0x61A, 1);
    (0x61C, 0x61C, 1); (0x640, 0x640, 1); (0x64B, 0x65F, 1);
    (0x670, 0x670, 1); (0x6D6, 0x6DD, 1); (0x6DF, 0x6E8, 1);
    (0x6EA, 0x6ED, 1); (0x70F, 0x711, 2); (0x730, 0x74A, 1);
    (0x7A6, 0x7B0, 1); (0x7EB, 0x7F5, 1); (0x7FA, 0x7FA, 1);
    (0x7FD, 0x7FD, 1); (0x816, 0x82D, 1); (0x859, 0x85B, 1);
    (0x888, 0x888, 1); (0x890, 0x891, 1); (0x898, 0x89F, 1);
    (0x8C9, 0x902, 1); (0x93A, 0x93C, 2); (0x941, 0x948, 1);
    (0x94D, 0x94D, 1); (0x951, 0x957, 1); (0x962, 0x963, 1);
    (0x971, 0x971, 1); (0x981, 0x981, 1); (0x9BC, 0x9BC, 1);
    (0x9C1, 0x9C4, 1); (0x9CD, 0x9CD, 1); (0x9E2, 0x9E3, 1);
    (0x9FE, 0x9FE, 1); (0xA01, 0xA02, 1); (0xA3C, 0xA3C, 1);
    (0xA41, 0xA42, 1); (0xA47, 0xA48, 1); (0xA4B, 0xA4D, 1);
    (0xA51, 0xA51, 1); (0xA70, 0xA71, 1); (0xA75, 0xA75, 1);
    (0xA81, 0xA82, 1); (0xABC, 0xABC, 1); (0xAC1, 0xAC5, 1);
    (0xAC7, 0xAC8, 1); (0xACD, 0xACD, 1); (0xAE2, 0xAE3, 1);
    (0xAFA, 0xAFF, 1); (0xB01, 0xB01, 1); (0xB3C, 0xB3C, 1);
    (0xB3F, 0xB41, 2); (0xB42, 0xB44, 1); (0xB4D, 0xB4D, 1);
    (0xB55, 0xB56, 1); (0xB62, 0xB63, 1); (0xB82, 0xB82, 1);
    (0xBC0, 0xBC0, 1); (0xBCD, 0xBCD, 1); (0xC00, 0xC00, 1);
    (0xC04, 0xC04, 1); (0xC3C, 0xC3E, 2); (0xC3F, 0xC40, 1);
    (0xC46, 0xC48, 1); (0xC4A, 0xC4D, 1); (0xC55, 0xC56, 1);
    (0xC62, 0xC63, 1); (0xC81, 0xC81, 1); (0xCBC, 0xCBC, 1);
    (0xCBF, 0xCBF, 1); (0xCC6, 0xCC6, 1); (0xCCC, 0xCCD, 1);
    (0xCE2, 0xCE3, 1); (0xD00, 0xD01, 1); (0xD3B, 0xD3C, 1);
    (0xD41, 0xD44, 1); (0xD4D, 0xD4D, 1); (0xD62, 0xD63, 1);
    (0xD81, 0xD81, 1); (0xDCA, 0xDCA, 1); (0xDD2, 0xDD4, 1);
    (0xDD6, 0xDD6, 1); (0xE31, 0xE31, 1); (0xE34, 0xE3A, 1);
    (0xE46, 0xE4E, 1); (0xEB1, 0xEB1, 1); (0xEB4, 0xEBC, 1);
    (0xEC6, 0xEC8, 2); (0xEC9, 0xECD, 1); (0xF18, 0xF19, 1);
    (0xF35, 0xF39, 2); (0xF71, 0xF7E, 1); (0xF80, 0xF84, 1);
    (0xF86, 0xF87, 1); (0xF8D, 0xF97, 1); (0xF99, 0xFBC, 1);
    (0xFC6, 0xFC6, 1); (0x102D, 0x1030, 1); (0x1032, 0x1037, 1);
    (0x1039, 0x103A, 1); (0x103D, 0x103E, 1); (0x1058, 0x1059, 1);
    (0x105E, 0x1060, 1); (0x1071, 0x1074, 1); (0x1082, 0x1082, 1);
    (0x1085, 0x1086, 1); (0x108D, 0x108D, 1); (0x109D, 0x109D, 1);
    (0x10FC, 0x10FC, 1); (0x135D, 0x135F, 1); (0x1712, 0x1714, 1);
    (0x1732, 0x1733, 1); (0x1752, 0x1753, 1); (0x1772, 0x1773, 1);
    (0x17B4, 0x17B5, 1); (0x17B7, 0x17BD, 1); (0x17C6, 0x17C6, 1);
    (0x17C9, 0x17D3, 1); (0x17D7, 0x17D7, 1); (0x17DD, 0x17DD, 1);
    (0x180B, 0x180F, 1); (0x1843, 0x1843, 1); (0x1885, 0x1886, 1);
    (0x18A9, 0x18A9, 1); (0x1920, 0x1922, 1); (0x1927, 0x1928, 1);
    (0x1932, 0x1932, 1); (0x1939, 0x193B, 1); (0x1A17, 0x1A18, 1);
    (0x1A1B, 0x1A1B, 1); (0x1A56, 0x1A58, 2); (0x1A59, 0x1A5E, 1);
    (0x1A60, 0x1A62, 2); (0x1A65, 0x1A6C, 1); (0x1A73, 0x1A7C, 1);
    (0x1A7F, 0x1A7F, 1); (0x1AA7, 0x1AA7, 1); (0x1AB0, 0x1ACE, 1);
    (0x1B00, 0x1B03, 1); (0x1B34, 0x1B36, 2); (0x1B37, 0x1B3A, 1);
    (0x1B3C, 0x1B3C, 1); (0x1B42, 0x1B42, 1); (0x1B6B, 0x1B73, 1);
    (0x1B80, 0x1B81, 1); (0x1BA2, 0x1BA5, 1); (0x1BA8, 0x1BA9, 1);
    (0x1BAB, 0x1BAD, 1); (0x1BE6, 0x1BE8, 2); (0x1BE9, 0x1BE9, 1);
    (0x1BED, 0x1BEF, 2); (0x1BF0, 0x1BF1, 1); (0x1C2C, 0x1C33, 1);
    (0x1C36, 0x1C37, 1); (0x1C78, 0x1C7D, 1); (0x1CD0, 0x1CD2, 1);
    (0x1CD4, 0x1CE0, 1); (0x1CE2, 0x1CE8, 1); (0x1CED, 0x1CED, 1);
    (0x1CF4, 0x1CF4, 1); (0x1CF8, 0x1CF9, 1); (0x1D2C, 0x1D6A, 1);
    (0x1D78, 0x1D78, 1); (0x1D9B, 0x1DFF, 1); (0x1FBD, 0x1FBF, 2);
    (0x1FC0, 0x1FC1, 1); (0x1FCD, 0x1FCF, 1); (0x1FDD, 0x1FDF, 1);
    (0x1FED, 0x1FEF, 1); (0x1FFD, 0x1FFE, 1); (0x200B, 0x200F, 1);
    (0x2018, 0x2019, 1); (0x2024, 0x2024, 1); (0x2027, 0x2027, 1);
    (0x202A, 0x202E, 1); (0x2060, 0x2064, 1); (0x2066, 0x206F, 1);
    (0x2071, 0x2071, 1); (0x207F, 0x207F, 1); (0x2090, 0x209C, 1);
    (0x20D0, 0x20F0, 1); (0x2C7C, 0x2C7D, 1); (0x2CEF, 0x2CF1, 1);
    (0x2D6F, 0x2D6F, 1); (0x2D7F, 0x2D7F, 1); (0x2DE0, 0x2DFF, 1);
    (0x2E2F, 0x2E2F, 1); (0x3005, 0x3005, 1); (0x302A, 0x302D, 1);
    (0x3031, 0x3035, 1); (0x303B, 0x303B, 1); (0x3099, 0x309E, 1);
    (0x30FC, 0x30FE, 1); (0xA015, 0xA015, 1); (0xA4F8, 0xA4FD, 1);
    (0xA60C, 0xA60C, 1); (0xA66F, 0xA672, 1); (0xA674, 0xA67D, 1);
    (0xA67F, 0xA67F, 1); (0xA69C, 0xA69F, 1); (0xA6F0, 0xA6F1, 1);
    (0xA700, 0xA721, 1); (0xA770, 0xA770, 1); (0xA788, 0xA78A, 1);
    (0xA7F2, 0xA7F4, 1); (0xA7F8, 0xA7F9, 1); (0xA802, 0xA802, 1);
    (0xA806, 0xA806, 1); (0xA80B, 0xA80B, 1); (0xA825, 0xA826, 1);
    (0xA82C, 0xA82C, 1); (0xA8C4, 0xA8C5, 1); (0xA8E0, 0xA8F1, 1);
    (0xA8FF, 0xA8FF, 1); (0xA926, 0xA92D, 1); (0xA947, 0xA951, 1);
    (0xA980, 0xA982, 1); (0xA9B3, 0xA9B3, 1); (0xA9B6, 0xA9B9, 1);
    (0xA9BC, 0xA9BD, 1); (0xA9CF, 0xA9CF, 1); (0xA9E5, 0xA9E6, 1);
    (0xAA29, 0xAA2E, 1); (0xAA31, 0xAA32, 1); (0xAA35, 0xAA36, 1);
    (0xAA43, 0xAA43, 1); (0xAA4C, 0xAA4C, 1); (0xAA70, 0xAA70, 1);
    (0xAA7C, 0xAA7C, 1); (0xAAB0, 0xAAB2, 2); (0xAAB3, 0xAAB4, 1);
    (0xAAB7, 0xAAB8, 1); (0xAABE, 0xAABF, 1); (0xAAC1, 0xAAC1, 1);
    (0xAADD, 0xAADD, 1); (0xAAEC, 0xAAED, 1); (0xAAF3, 0xAAF4, 1);
    (0xAAF6, 0xAAF6, 1); (0xAB5B, 0xAB5F, 1); (0xAB69, 0xAB6B, 1);
    (0xABE5, 0xABE5, 1); (0xABE8, 0xABE8, 1); (0xABED, 0xABED, 1);
    (0xFB1E, 0xFB1E, 1); (0xFBB2, 0xFBC2, 1); (0xFE00, 0xFE0F, 1);
    (0xFE13, 0xFE13, 1); (0xFE20, 0xFE2F, 1); (0xFE52, 0xFE52, 1);
    (0xFE55, 0xFE55, 1); (0xFEFF, 0xFEFF, 1); (0xFF07, 0xFF07, 1);
    (0xFF0E, 0xFF0E, 1); (0xFF1A, 0xFF1A, 1); (0xFF3E, 0xFF40, 2);
    (0xFF70, 0xFF70, 1); (0xFF9E, 0xFF9F, 1); (0xFFE3, 0xFFE3, 1);
    (0xFFF9, 0xFFFB, 1); (0x101FD, 0x101FD, 1); (0x102E0, 0x102E0, 1);
    (0x10376, 0x1037A, 1); (0x10780, 0x10785, 1); (0x10787, 0x107B0, 1);
    (0x107B2, 0x107BA, 1); (0x10A01, 0x10A03, 1); (0x10A05, 0x10A06, 1);
    (0x10A0C, 0x10A0F, 1); (0x10A38, 0x10A3A, 1); (0x10A3F, 0x10A3F, 1);
    (0x10AE5, 0x10AE6, 1); (0x10D24, 0x10D27, 1); (0x10EAB, 0x10EAC, 1);
    (0x10F46, 0x10F50, 1); (0x10F82, 0x10F85, 1); (0x11001, 0x11001, 1);
    (0x11038, 0x11046, 1); (0x11070, 0x11070, 1); (0x11073, 0x11074, 1);
    (0x1107F, 0x11081, 1); (0x110B3, 0x110B6, 1); (0x110B9, 0x110BA, 1);
    (0x110BD, 0x110BD, 1); (0x110C2, 0x110C2, 1); (0x110CD, 0x110CD, 1);
    (0x11100, 0x11102, 1); (0x11127, 0x1112B, 1); (0x1112D, 0x11134, 1);
    (0x11173, 0x11173, 1); (0x11180, 0x11181, 1); (0x111B6, 0x111BE, 1);
    (0x111C9, 0x111CC, 1); (0x111CF, 0x111CF, 1); (0x1122F, 0x11231, 1);
    (0x11234, 0x11236, 2); (0x11237, 0x11237, 1); (0x1123E, 0x1123E, 1);
    (0x112DF, 0x112DF, 1); (0x112E3, 0x112EA, 1); (0x11300, 0x11301, 1);
    (0x1133B, 0x1133C, 1); (0x11340, 0x11340, 1); (0x11366, 0x1136C, 1);
    (0x11370, 0x11374, 1); (0x11438, 0x1143F, 1); (0x11442, 0x11444, 1);
    (0x11446, 0x11446, 1); (0x1145E, 0x1145E, 1); (0x114B3, 0x114B8, 1);
    (0x114BA, 0x114BA, 1); (0x114BF, 0x114C0, 1); (0x114C2, 0x114C3, 1);
    (0x115B2, 0x115B5, 1); (0x115BC, 0x115BD, 1); (0x115BF, 0x115C0, 1);
    (0x115DC, 0x115DD, 1); (0x11633, 0x1163A, 1); (0x1163D, 0x1163F, 2);
    (0x11640, 0x11640, 1); (0x116AB, 0x116AD, 2); (0x116B0, 0x116B5, 1);
    (0x116B7, 0x116B7, 1); (0x1171D, 0x1171F, 1); (0x11722, 0x11725, 1);
    (0x11727, 0x1172B, 1); (0x1182F, 0x11837, 1); (0x11839, 0x1183A, 1);
    (0x1193B, 0x1193C, 1); (0x1193E, 0x1193E, 1); (0x11943, 0x11943, 1);
    (0x119D4, 0x119D7, 1); (0x119DA, 0x119DB, 1); (0x119E0, 0x119E0, 1);
    (0x11A01, 0x11A0A, 1); (0x11A33, 0x11A38, 1); (0x11A3B, 0x11A3E, 1);
    (0x11A47, 0x11A47, 1); (0x11A51, 0x11A56, 1); (0x11A59, 0x11A5B, 1);
    (0x11A8A, 0x11A96, 1); (0x11A98, 0x11A99, 1); (0x11C30, 0x11C36, 1);
    (0x11C38, 0x11C3D, 1); (0x11C3F, 0x11C3F, 1); (0x11C92, 0x11CA7, 1);
    (0x11CAA, 0x11CB0, 1); (0x11CB2, 0x11CB3, 1); (0x11CB5, 0x11CB6, 1);
    (0x11D31, 0x11D36, 1); (0x11D3A, 0x11D3C, 2); (0x11D3D, 0x11D3F, 2);
    (0x11D40, 0x11D45, 1); (0x11D47, 0x11D47, 1); (0x11D90, 0x11D91, 1);
    (0x11D95, 0x11D97, 2); (0x11EF3, 0x11EF4, 1); (0x13430, 0x13438, 1);
    (0x16AF0, 0x16AF4, 1); (0x16B30, 0x16B36, 1); (0x16B40, 0x16B43, 1);
    (0x16F4F, 0x16F4F, 1); (0x16F8F, 0x16F9F, 1); (0x16FE0, 0x16FE1, 1);
    (0x16FE3, 0x16FE4, 1); (0x1AFF0, 0x1AFF3, 1); (0x1AFF5, 0x1AFFB, 1);
    (0x1AFFD, 0x1AFFE, 1); (0x1BC9D, 0x1BC9E, 1); (0x1BCA0, 0x1BCA3, 1);
    (0x1CF00, 0x1CF2D, 1); (0x1CF30, 0x1CF46, 1); (0x1D167, 0x1D169, 1);
    (0x1D173, 0x1D182, 1); (0x1D185, 0x1D18B, 1); (0x1D1AA, 0x1D1AD, 1);
    (0x1D242, 0x1D244, 1); (0x1DA00, 0x1DA36, 1); (0x1DA3B, 0x1DA6C, 1);
    (0x1DA75, 0x1DA75, 1); (0x1DA84, 0x1DA84, 1); (0x1DA9B, 0x1DA9F, 1);
    (0x1DAA1, 0x1DAAF, 1); (0x1E000, 0x1E006, 1); (0x1E008, 0x1E018, 1);
    (0x1E01B, 0x1E021, 1); (0x1E023, 0x1E024, 1); (0x1E026, 0x1E02A, 1);
    (0x1E130, 0x1E13D, 1); (0x1E2AE, 0x1E2AE, 1); (0x1E2EC, 0x1E2EF, 1);
    (0x1E8D0, 0x1E8D6, 1); (0x1E944, 0x1E94B, 1); (0x1F3FB, 0x1F3FF, 1);
    (0xE0001, 0xE0001, 1); (0xE0020, 0xE007F, 1); (0xE0100, 0xE01EF, 1)].

(** [_PyUnicode_ToLowerFull], the code points whose lower-case form is one
    other code point: a run and the image of its first code point; the
    others follow at the same distance. *)
Definition Lowercase_Mapping : list (N * N * N * N) :=
  [(0x41, 0x5A, 1, 0x61); (0xC0, 0xD6, 1, 0xE0); (0xD8, 0xDE, 1, 0xF8);
    (0x100, 0x12E, 2, 0x101); (0x132, 0x136, 2, 0x133);
    (0x139, 0x147, 2, 0x13A); (0x14A, 0x176, 2, 0x14B);
    (0x178, 0x178, 1, 0xFF); (0x179, 0x17D, 2, 0x17A);
    (0x181, 0x181, 1, 0x253); (0x182, 0x184, 2, 0x183);
    (0x186, 0x186, 1, 0x254); (0x187, 0x187, 1, 0x188);
    (0x189, 0x18A, 1, 0x256); (0x18B, 0x18B, 1, 0x18C);
    (0x18E, 0x18E, 1, 0x1DD); (0x18F, 0x18F, 1, 0x259);
    (0x190, 0x190, 1, 0x25B); (0x191, 0x191, 1, 0x192);
    (0x193, 0x193, 1, 0x260); (0x194, 0x194, 1, 0x263);
    (0x196, 0x196, 1, 0x269); (0x197, 0x197, 1, 0x268);
    (0x198, 0x198, 1, 0x199); (0x19C, 0x19C, 1, 0x26F);
    (0x19D, 0x19D, 1, 0x272); (0x19F, 0x19F, 1, 0x275);
    (0x1A0, 0x1A4, 2, 0x1A1); (0x1A6, 0x1A6, 1, 0x280);
    (0x1A7, 0x1A7, 1, 0x1A8); (0x1A9, 0x1A9, 1, 0x283);
    (0x1AC, 0x1AC, 1, 0x1AD); (0x1AE, 0x1AE, 1, 0x288);
    (0x1AF, 0x1AF, 1, 0x1B0); (0x1B1, 0x1B2, 1, 0x28A);
    (0x1B3, 0x1B5, 2, 0x1B4); (0x1B7, 0x1B7, 1, 0x292);
    (0x1B8, 0x1B8, 1, 0x1B9); (0x1BC, 0x1BC, 1, 0x1BD);
    (0x1C4, 0x1C4, 1, 0x1C6); (0x1C5, 0x1C5, 1, 0x1C6);
    (0x1C7, 0x1C7, 1, 0x1C9); (0x1C8, 0x1C8, 1, 0x1C9);
    (0x1CA, 0x1CA, 1, 0x1CC); (0x1CB, 0x1DB, 2, 0x1CC);
    (0x1DE, 0x1EE, 2, 0x1DF); (0x1F1, 0x1F1, 1, 0x1F3);
    (0x1F2, 0x1F4, 2, 0x1F3); (0x1F6, 0x1F6, 1, 0x195);
    (0x1F7, 0x1F7, 1, 0x1BF); (0x1F8, 0x21E, 2, 0x1F9);
    (0x220, 0x220, 1, 0x19E); (0x222, 0x232, 2, 0x223);
    (0x23A, 0x23A, 1, 0x2C65); (0x23B, 0x23B, 1, 0x23C);
    (0x23D, 0x23D, 1, 0x19A); (0x23E, 0x23E, 1, 0x2C66);
    (0x241, 0x241, 1, 0x242); (0x243, 0x243, 1, 0x180);
    (0x244, 0x244, 1, 0x289); (0x245, 0x245, 1, 0x28C);
    (0x246, 0x24E, 2, 0x247); (0x370, 0x372, 2, 0x371);
    (0x376, 0x376, 1, 0x377); (0x37F, 0x37F, 1, 0x3F3);
    (0x386, 0x386, 1, 0x3AC); (0x388, 0x38A, 1, 0x3AD);
    (0x38C, 0x38C, 1, 0x3CC); (0x38E, 0x38F, 1, 0x3CD);
    (0x391, 0x3A1, 1, 0x3B1); (0x3A3, 0x3AB, 1, 0x3C3);
    (0x3CF, 0x3CF, 1, 0x3D7); (0x3D8, 0x3EE, 2, 0x3D9);
    (0x3F4, 0x3F4, 1, 0x3B8); (0x3F7, 0x3F7, 1, 0x3F8);
    (0x3F9, 0x3F9, 1, 0x3F2); (0x3FA, 0x3FA, 1, 0x3FB);
    (0x3FD, 0x3FF, 1, 0x37B); (0x400, 0x40F, 1, 0x450);
    (0x410, 0x42F, 1, 0x430); (0x460, 0x480, 2, 0x461);
    (0x48A, 0x4BE, 2, 0x48B); (0x4C0, 0x4C0, 1, 0x4CF);
    (0x4C1, 0x4CD, 2, 0x4C2); (0x4D0, 0x52E, 2, 0x4D1);
    (0x531, 0x556, 1, 0x561); (0x10A0, 0x10C5, 1, 0x2D00);
    (0x10C7, 0x10C7, 1, 0x2D27); (0x10CD, 0x10CD, 1, 0x2D2D);
    (0x13A0, 0x13EF, 1, 0xAB70); (0x13F0, 0x13F5, 1, 0x13F8);
    (0x1C90, 0x1CBA, 1, 0x10D0); (0x1CBD, 0x1CBF, 1, 0x10FD);
    (0x1E00, 0x1E94, 2, 0x1E01); (0x1E9E, 0x1E9E, 1, 0xDF);
    (0x1EA0, 0x1EFE, 2, 0x1EA1); (0x1F08, 0x1F0F, 1, 0x1F00);
    (0x1F18, 0x1F1D, 1, 0x1F10); (0x1F28, 0x1F2F, 1, 0x1F20);
    (0x1F38, 0x1F3F, 1, 0x1F30); (0x1F48, 0x1F4D, 1, 0x1F40);
    (0x1F59, 0x1F5F, 2, 0x1F51); (0x1F68, 0x1F6F, 1, 0x1F60);
    (0x1F88, 0x1F8F, 1, 0x1F80); (0x1F98, 0x1F9F, 1, 0x1F90);
    (0x1FA8, 0x1FAF, 1, 0x1FA0); (0x1FB8, 0x1FB9, 1, 0x1FB0);
    (0x1FBA, 0x1FBB, 1, 0x1F70); (0x1FBC, 0x1FBC, 1, 0x1FB3);
    (0x1FC8, 0x1FCB, 1, 0x1F72); (0x1FCC, 0x1FCC, 1, 0x1FC3);
    (0x1FD8, 0x1FD9, 1, 0x1FD0); (0x1FDA, 0x1FDB, 1, 0x1F76);
    (0x1FE8, 0x1FE9, 1, 0x1FE0); (0x1FEA, 0x1FEB, 1, 0x1F7A);
    (0x1FEC, 0x1FEC, 1, 0x1FE5); (0x1FF8, 0x1FF9, 1, 0x1F78);
    (0x1FFA, 0x1FFB, 1, 0x1F7C); (0x1FFC, 0x1FFC, 1, 0x1FF3);
    (0x2126, 0x2126, 1, 0x3C9); (0x212A, 0x212A, 1, 0x6B);
    (0x212B, 0x212B, 1, 0xE5); (0x2132, 0x2132, 1, 0x214E);
    (0x2160, 0x216F, 1, 0x2170); (0x2183, 0x2183, 1, 0x2184);
    (0x24B6, 0x24CF, 1, 0x24D0); (0x2C00, 0x2C2F, 1, 0x2C30);
    (0x2C60, 0x2C60, 1, 0x2C61); (0x2C62, 0x2C62, 1, 0x26B);
    (0x2C63, 0x2C63, 1, 0x1D7D); (0x2C64, 0x2C64, 1, 0x27D);
    (0x2C67, 0x2C6B, 2, 0x2C68); (0x2C6D, 0x2C6D, 1, 0x251);
    (0x2C6E, 0x2C6E, 1, 0x271); (0x2C6F, 0x2C6F, 1, 0x250);
    (0x2C70, 0x2C70, 1, 0x252); (0x2C72, 0x2C72, 1, 0x2C73);
    (0x2C75, 0x2C75, 1, 0x2C76); (0x2C7E, 0x2C7F, 1, 0x23F);
    (0x2C80, 0x2CE2, 2, 0x2C81); (0x2CEB, 0x2CED, 2, 0x2CEC);
    (0x2CF2, 0x2CF2, 1, 0x2CF3); (0xA640, 0xA66C, 2, 0xA641);
    (0xA680, 0xA69A, 2, 0xA681); (0xA722, 0xA72E, 2, 0xA723);
    (0xA732, 0xA76E, 2, 0xA733); (0xA779, 0xA77B, 2, 0xA77A);
    (0xA77D, 0xA77D, 1, 0x1D79); (0xA77E, 0xA786, 2, 0xA77F);
    (0xA78B, 0xA78B, 1, 0xA78C); (0xA78D, 0xA78D, 1, 0x265);
    (0xA790, 0xA792, 2, 0xA791); (0xA796, 0xA7A8, 2, 0xA797);
    (0xA7AA, 0xA7AA, 1, 0x266); (0xA7AB, 0xA7AB, 1, 0x25C);
    (0xA7AC, 0xA7AC, 1, 0x261); (0xA7AD, 0xA7AD, 1, 0x26C);
    (0xA7AE, 0xA7AE, 1, 0x26A); (0xA7B0, 0xA7B0, 1, 0x29E);
    (0xA7B1, 0xA7B1, 1, 0x287); (0xA7B2, 0xA7B2, 1, 0x29D);
    (0xA7B3, 0xA7B3, 1, 0xAB53); (0xA7B4, 0xA7C2, 2, 0xA7B5);
    (0xA7C4, 0xA7C4, 1, 0xA794); (0xA7C5, 0xA7C5, 1, 0x282);
    (0xA7C6, 0xA7C6, 1, 0x1D8E); (0xA7C7, 0xA7C9, 2, 0xA7C8);
    (0xA7D0, 0xA7D0, 1, 0xA7D1); (0xA7D6, 0xA7D8, 2, 0xA7D7);
    (0xA7F5, 0xA7F5, 1, 0xA7F6); (0xFF21, 0xFF3A, 1, 0xFF41);
    (0x10400, 0x10427, 1, 0x10428); (0x104B0, 0x104D3, 1, 0x104D8);
    (0x10570, 0x1057A, 1, 0x10597); (0x1057C, 0x1058A, 1, 0x105A3);
    (0x1058C, 0x10592, 1, 0x105B3); (0x10594, 0x10595, 1, 0x105BB);
    (0x10C80, 0x10CB2, 1, 0x10CC0); (0x118A0, 0x118BF, 1, 0x118C0);
    (0x16E40, 0x16E5F, 1, 0x16E60); (0x1E900, 0x1E921, 1, 0x1E922)].

End Unicode.

Module PyStr.

Local Open Scope N_scope.

(** A [str] as the program receives it from a text box: its code points,
    whichever they are. *)
Definition str := list N.

Definition code (c : ascii) : N := N_of_ascii c.

(** A literal of the program, or a text that holds code points below 256
    only, as a [str]. *)
Fixpoint of_string (s : string) : str :=
  match s with
  | EmptyString => []
  | String c s' => code c :: of_string s'
  end.

(** [c.isspace()] *)
Definition isspace (c : N) : bool := Unicode.member Unicode.White_Space c.

(** [c.isupper()] *)
Definition isupper (c : N) : bool := Unicode.member Unicode.Uppercase c.

Definition cased (c : N) : bool := Unicode.member Unicode.Cased c.

Definition case_ignorable (c : N) : bool :=
  Unicode.member Unicode.Case_Ignorable c.

(** The lower-case form of one code point, whatever stands around it:
    LATIN CAPITAL LETTER I WITH DOT ABOVE becomes two code points, a code
    point of the mapping its image, any other code point itself. *)
Definition lower_char (c : N) : list N :=
  if c =? 0x130 then [0x69; 0x307]
  else
    match find (fun entry => Unicode.in_run c entry.1)
               Unicode.Lowercase_Mapping with
    | Some (first, _, _, image) => [image + (c - first)]
    | None => [c]
    end.

(** Whether a code point is its own lower-case form. *)
Definition own_lower (c : N) : bool :=
  match lower_char c with
  | [image] => image =? c
  | _ => false
  end.

Fixpoint skip (p : N -> bool) (s : str) : str :=
  match s with
  | [] => []
  | c :: s' => if p c then skip p s' else s
  end.

(** Whether a GREEK CAPITAL LETTER SIGMA ends a word: before it, past any
    case-ignorable code points, stands a cased one, and after it, past any
    case-ignorable code points, stands none.  [before] is read backwards
    from the sigma. *)
Definition final_sigma (before after : str) : bool :=
  match skip case_ignorable before with
  | [] => false
  | c :: _ =>
      cased c
      && match skip case_ignorable after with
         | [] => true
         | d :: _ => negb (cased d)
         end
  end.

(** The lower-case form of the code point [c] of a string. *)
Definition lower_at (before : str) (c : N) (after : str) : list N :=
  if c =? 0x3A3
  then [if final_sigma before after then 0x3C2 else 0x3C3]
  else lower_char c.

Fixpoint lower_from (before s : str) : str :=
  match s with
  | [] => []
  | c :: after =>
      (lower_at before c after ++ lower_from (c :: before) after)%list
  end.

(** [s.lower()] *)
Definition lower (s : str) : str := lower_from [] s.

(** [s.lstrip()] *)
Fixpoint lstrip (s : str) : str :=
  match s with
  | [] => []
  | c :: s' => if isspace c then lstrip s' else s
  end.

(** [s.rstrip()] *)
Fixpoint rstrip (s : str) : str :=
  match s with
  | [] => []
  | c :: s' =>
      match rstrip s' with
      | [] => if isspace c then [] else [c]
      | t => c :: t
      end
  end.

(** [s.strip()] *)
Definition strip (s : str) : str := rstrip (lstrip s).

(** [c in s] for a one-character needle. *)
Fixpoint contains (c : ascii) (s : str) : bool :=
  match s with
  | [] => false
  | d :: s' => if code c =? d then true else contains c s'
  end.

(** Truthiness of a string: [bool(s)]. *)
Definition truthy (s : str) : bool :=
  match s with [] => false | _ :: _ => true end.

Definition first_char (s : str) : option N :=
  match s with [] => None | c :: _ => Some c end.

Fixpoint last_char (s : str) : option N :=
  match s with
  | [] => None
  | [c] => Some c
  | _ :: s' => last_char s'
  end.

Fixpoint all_chars (p : N -> bool) (s : str) : bool :=
  match s with
  | [] => true
  | c :: s' => p c && all_chars p s'
  end.

(** The string without its last character. *)
Fixpoint chop (s : str) : str :=
  match s with
  | [] => []
  | [_] => []
  | c :: s' => c :: chop s'
  end.

(** A code point of Latin-1 written by number, for the accented letters
    of the messages. *)
Definition chr (n : N) : string := String (ascii_of_N n) EmptyString.

End PyStr.

(** The texts of the configuration, the messages and the literals of the
    examples are written as Rocq strings, one code point below 256 per
    character, and read as [str] where the program treats them as such. *)
Coercion PyStr.of_string : string >-> PyStr.str.

(** ** Configuration *)

(** [st.secrets] is a mapping of sections to mappings; [os.environ] is a
    mapping of names to values. *)
Record Config := {
  secrets : gmap string (gmap string string);
  environ : gmap string string
}.

(** [os.environ.get(name, "")] *)
Definition environ_get (cfg : Config) (name : string) : string :=
  default "" (environ cfg !! name).

Definition get_db_url (cfg : Config) : string :=
  match secrets cfg !! "db" with
  | Some section =>
      match section !! "url" with
      | Some url => url
      | None => environ_get cfg "DATABASE_URL"
      end
  | None => environ_get cfg "DATABASE_URL"
  end.

Definition get_admin_password (cfg : Config) : string :=
  match secrets cfg !! "admin" with
  | Some section =>
      match section !! "password" with
      | Some pw => pw
      | None => environ_get cfg "ADMIN_PASSWORD"
      end
  | None => environ_get cfg "ADMIN_PASSWORD"
  end.

(** ** The persistent store *)

(** Modelled from the spec: the two tables the queries name,
    [public.sessions] and [public.bookings], whose declaration (the SQL
    schema) is not part of the source.  A session has an identifier, an
    activity, an event date, start and end times and an integer capacity;
    a booking has an identifier assigned by the store on insertion, the
    identifier of its session and the attendee's name, phone and email.
    The store assigns booking identifiers from a sequence of its own, which
    no rollback takes back.  The creation timestamp of a booking is assigned
    by the store and read only by the admin listing; it is left out.  The
    sessions table is keyed by its identifier (the listing query groups by
    it alone). *)
Record Session := {
  s_activity : string;
  s_event_date : Z;
  s_start_time : Z;
  s_end_time : Z;
  s_capacity : Z
}.

Record Booking := {
  b_id : Z;
  b_session_id : Z;
  b_full_name : PyStr.str;
  b_phone : PyStr.str;
  b_email : PyStr.str
}.

Record DB := {
  sessions : gmap Z Session;
  bookings : list Booking;
  bookings_id_seq : Z
}.

(** ** Connections and transactions *)

(** What a connection sent to the store, in order. *)
Inductive Event :=
| SelectForUpdate (session_id : Z) (found : bool)
| SelectCount (session_id : Z) (booked : Z)
| SelectSessions (event_date : Z)
| InsertReturning (row : Booking)
| Rollback
| Commit
| ExitCommit.

(** A connection: the committed store, the rows written by the open
    transaction, the session rows it holds locked, and its log. *)
Record Conn := {
  store : DB;
  pending : list Booking;
  locked : list Z;
  log : list Event
}.

(** Statements run against a connection. *)
Definition Tx (A : Type) : Type := Conn -> A * Conn.

Definition ret {A} (a : A) : Tx A := fun c => (a, c).

Definition bind {A B} (m : Tx A) (k : A -> Tx B) : Tx B :=
  fun c => let (a, c') := m c in k a c'.

Definition emit (e : Event) (c : Conn) : Conn :=
  {| store := store c; pending := pending c; locked := locked c;
     log := log c ++ [e] |}.

(** The rows a statement of the open transaction sees. *)
Definition visible_bookings (c : Conn) : list Booking :=
  bookings (store c) ++ pending c.

(** [select count( * )::int as booked from public.bookings where session_id=%s] *)
Definition count_bookings (sid : Z) (rows : list Booking) : Z :=
  Z.of_nat (length (filter (fun b => b_session_id b = sid) rows)).

(** [select id, capacity from public.sessions where id=%s for update]
    followed by [fetchone()]: the row, locked, or nothing. *)
Definition select_session_for_update (sid : Z) : Tx (option Session) :=
  fun c =>
    match sessions (store c) !! sid with
    | Some s =>
        (Some s,
         emit (SelectForUpdate sid true)
           {| store := store c; pending := pending c;
              locked := sid :: locked c; log := log c |})
    | None => (None, emit (SelectForUpdate sid false) c)
    end.

Definition select_count (sid : Z) : Tx Z :=
  fun c =>
    let booked := count_bookings sid (visible_bookings c) in
    (booked, emit (SelectCount sid booked) c).

(** [insert into public.bookings (session_id, full_name, phone, email)
    values (%s, %s, %s, %s) returning id]: the store takes the next value
    of the identifier sequence. *)
Definition insert_booking (sid : Z) (full_name phone email : PyStr.str) : Tx Z :=
  fun c =>
    let id := bookings_id_seq (store c) in
    let row := {| b_id := id; b_session_id := sid; b_full_name := full_name;
                  b_phone := phone; b_email := email |} in
    (id,
     emit (InsertReturning row)
       {| store := {| sessions := sessions (store c);
                      bookings := bookings (store c);
                      bookings_id_seq := id + 1 |};
          pending := pending c ++ [row];
          locked := locked c; log := log c |}).

(** Ending a transaction releases its locks; a commit publishes the rows
    it wrote, a rollback drops them. *)
Definition end_transaction (publish : bool) (e : Event) (c : Conn) : Conn :=
  emit e
    {| store := {| sessions := sessions (store c);
                   bookings := if publish then visible_bookings c
                               else bookings (store c);
                   bookings_id_seq := bookings_id_seq (store c) |};
       pending := []; locked := []; log := log c |}.

(** [conn.rollback()] *)
Definition rollback : Tx unit := fun c => (tt, end_transaction false Rollback c).

(** [conn.commit()] *)
Definition commit : Tx unit := fun c => (tt, end_transaction true Commit c).

(** Leaving [with connect() as conn:] without an exception commits. *)
Definition exit_connection (c : Conn) : Conn := end_transaction true ExitCommit c.

(** [connect()]: without a database URL the page shows an error and the
    script stops; otherwise a fresh connection to the store. *)
Definition connect (cfg : Config) (db : DB) : option Conn :=
  if PyStr.truthy (get_db_url cfg)
  then Some {| store := db; pending := []; locked := []; log := [] |}
  else None.

(** What a database operation leaves behind: the value it returned, the
    committed store and the statements it sent. *)
Record Run (A : Type) := {
  returned : A;
  db_after : DB;
  trace : list Event
}.
Arguments returned {A} _.
Arguments db_after {A} _.
Arguments trace {A} _.

(** [with connect() as conn: body] *)
Definition with_connection {A} (cfg : Config) (db : DB) (body : Tx A)
  : option (Run A) :=
  match connect cfg db with
  | None => None
  | Some conn =>
      let (a, c) := body conn in
      let c' := exit_connection c in
      Some {| returned := a; db_after := store c'; trace := log c' |}
  end.

(** ** Messages *)

Definition MSG_NOT_FOUND : string :=
  "Sesi" ++ PyStr.chr 243 ++ "n no encontrada.".
Definition MSG_FULL : string :=
  "Lo sentimos: esa sesi" ++ PyStr.chr 243 ++ "n se acaba de llenar.".
Definition MSG_CONFIRMED : string :=
  PyStr.chr 161 ++ "Reserva confirmada!".

(** ** Transaction bodies

    The body of a transaction is the sequence of statements it sends, each
    with what the function does with the answer.  Run on a connection of
    its own it is a [Tx]; the same body is run statement by statement when
    several connections share the store. *)
Inductive Prog (A : Type) : Type :=
| Return (a : A)
| LockSession (sid : Z) (k : option Session -> Prog A)
| CountBookings (sid : Z) (k : Z -> Prog A)
| InsertBooking (sid : Z) (full_name phone email : PyStr.str) (k : Z -> Prog A)
| DoRollback (k : Prog A)
| DoCommit (k : Prog A).
Arguments Return {A} _.
Arguments LockSession {A} _ _.
Arguments CountBookings {A} _ _.
Arguments InsertBooking {A} _ _ _ _ _.
Arguments DoRollback {A} _.
Arguments DoCommit {A} _.

Fixpoint pbind {A B} (m : Prog A) (f : A -> Prog B) : Prog B :=
  match m with
  | Return a => f a
  | LockSession sid k => LockSession sid (fun r => pbind (k r) f)
  | CountBookings sid k => CountBookings sid (fun n => pbind (k n) f)
  | InsertBooking sid n p e k => InsertBooking sid n p e (fun id => pbind (k id) f)
  | DoRollback k => DoRollback (pbind k f)
  | DoCommit k => DoCommit (pbind k f)
  end.

Notation "'do' x <- m ; k" := (pbind m (fun x => k))
  (at level 10, x name, m at level 100, k at level 200).
Notation "'run' m ; k" := (pbind m (fun _ => k))
  (at level 10, m at level 100, k at level 200).

(** [cur.execute("select ... for update", (sid,)); cur.fetchone()] *)
Definition lock_session (sid : Z) : Prog (option Session) :=
  LockSession sid Return.

(** [cur.execute("select count( * ) ...", (sid,)); cur.fetchone()["booked"]] *)
Definition count_booked (sid : Z) : Prog Z := CountBookings sid Return.

(** [cur.execute("insert ... returning id", ...); cur.fetchone()["id"]] *)
Definition insert_returning_id (sid : Z) (full_name phone email : PyStr.str)
  : Prog Z :=
  InsertBooking sid full_name phone email Return.

Definition conn_rollback : Prog unit := DoRollback (Return tt).

Definition conn_commit : Prog unit := DoCommit (Return tt).

(** The first statement of a body, as a statement on a connection that
    answers with the rest of the body. *)
Definition first_statement {A} (p : Prog A) : option (Tx (Prog A)) :=
  match p with
  | Return _ => None
  | LockSession sid k =>
      Some (bind (select_session_for_update sid) (fun r => ret (k r)))
  | CountBookings sid k =>
      Some (bind (select_count sid) (fun n => ret (k n)))
  | InsertBooking sid n p e k =>
      Some (bind (insert_booking sid n p e) (fun id => ret (k id)))
  | DoRollback k => Some (bind rollback (fun _ => ret k))
  | DoCommit k => Some (bind commit (fun _ => ret k))
  end.

(** A body run to its end on one connection. *)
Fixpoint exec {A} (p : Prog A) : Tx A :=
  match p with
  | Return a => ret a
  | LockSession sid k =>
      bind (select_session_for_update sid) (fun r => exec (k r))
  | CountBookings sid k => bind (select_count sid) (fun n => exec (k n))
  | InsertBooking sid n p e k =>
      bind (insert_booking sid n p e) (fun id => exec (k id))
  | DoRollback k => bind rollback (fun _ => exec k)
  | DoCommit k => bind commit (fun _ => exec k)
  end.

(** ** [create_booking_atomic] *)

Definition create_booking_tx (session_id : Z) (full_name phone email : PyStr.str)
  : Prog (bool * string) :=
  do srow <- lock_session session_id;
  match srow with
  | None => Return (false, MSG_NOT_FOUND)
  | Some srow =>
      do booked <- count_booked session_id;
      let capacity := s_capacity srow in
      let remaining := capacity - booked in
      if (remaining <=? 0)%Z then
        run conn_rollback;
        Return (false, MSG_FULL)
      else
        do _id <- insert_returning_id session_id full_name phone email;
        run conn_commit;
        Return (true, MSG_CONFIRMED)
  end.

Definition create_booking_atomic (cfg : Config) (db : DB)
    (session_id : Z) (full_name phone email : PyStr.str)
  : option (Run (bool * string)) :=
  with_connection cfg db
    (exec (create_booking_tx session_id full_name phone email)).

(** ** [fetch_sessions] *)

(** A row of the listing query as the cursor returns it. *)
Record QueryRow := {
  q_id : Z;
  q_activity : string;
  q_start_time : Z;
  q_end_time : Z;
  q_capacity : Z;
  q_booked : Z
}.

(** The same row once the loop has stored ["remaining"] in it. *)
Record SessionRow := {
  r_id : Z;
  r_activity : string;
  r_start_time : Z;
  r_end_time : Z;
  r_capacity : Z;
  r_booked : Z;
  r_remaining : Z
}.

(** [public.sessions s left join public.bookings b on b.session_id = s.id],
    for the session [sid]: one joined row per booking of the session, or a
    single row whose booking columns are null when it has none. *)
Definition left_join_bookings (sid : Z) (rows : list Booking)
  : list (option Booking) :=
  match filter (fun b => b_session_id b = sid) rows with
  | [] => [None]
  | matching => Some <$> matching
  end.

(** [count(b.id)]: the joined rows whose [b.id] is not null. *)
Definition count_b_id (joined : list (option Booking)) : Z :=
  Z.of_nat (length (filter (fun j => is_Some (b_id <$> j)) joined)).

(** [group by s.id]: the identifier is the key of the table, so each
    session is one group. *)
Definition group_row (rows : list Booking) (entry : Z * Session) : QueryRow :=
  {| q_id := entry.1;
     q_activity := s_activity entry.2;
     q_start_time := s_start_time entry.2;
     q_end_time := s_end_time entry.2;
     q_capacity := s_capacity entry.2;
     q_booked := count_b_id (left_join_bookings entry.1 rows) |}.

(** [r["remaining"] = int(r["capacity"]) - int(r["booked"])] *)
Definition with_remaining (q : QueryRow) : SessionRow :=
  {| r_id := q_id q;
     r_activity := q_activity q;
     r_start_time := q_start_time q;
     r_end_time := q_end_time q;
     r_capacity := q_capacity q;
     r_booked := q_booked q;
     r_remaining := q_capacity q - q_booked q |}.

Section Listing.

(** The store's collation of text, which [order by s.activity] follows. *)
Variable text_le : string -> string -> bool.

(** [order by s.activity, s.start_time] *)
Definition row_le (a b : QueryRow) : bool :=
  if String.eqb (q_activity a) (q_activity b)
  then (q_start_time a <=? q_start_time b)%Z
  else text_le (q_activity a) (q_activity b).

Fixpoint insert_row (r : QueryRow) (l : list QueryRow) : list QueryRow :=
  match l with
  | [] => [r]
  | x :: l' => if row_le r x then r :: l else x :: insert_row r l'
  end.

Definition order_rows (l : list QueryRow) : list QueryRow :=
  foldr insert_row [] l.

(** The listing query.  Its [order by] leaves open in which order rows
    with the same activity and start time come; the model lists them in the
    order in which the entries of the table are enumerated, one of the
    orders the store may choose. *)
Definition select_sessions (event_date : Z) : Tx (list QueryRow) :=
  fun c =>
    let selected :=
      filter (fun entry => s_event_date entry.2 = event_date)
             (map_to_list (sessions (store c))) in
    (order_rows (group_row (visible_bookings c) <$> selected),
     emit (SelectSessions event_date) c).

Definition fetch_sessions (cfg : Config) (db : DB) (event_date : Z)
  : option (Run (list SessionRow)) :=
  match with_connection cfg db (select_sessions event_date) with
  | None => None
  | Some r =>
      Some {| returned := with_remaining <$> returned r;
              db_after := db_after r;
              trace := trace r |}
  end.

End Listing.

(** ** The booking form *)

(** What the page shows in answer to an action. *)
Inductive Shown :=
| Success (msg : string)
| Error (msg : string)
| Stopped
| Nothing.

Definition MSG_SESSION_FULL : string :=
  "Esa sesi" ++ PyStr.chr 243 ++ "n ya est" ++ PyStr.chr 225
  ++ " llena. Elige otra franja.".
Definition MSG_NO_NAME : string := "Falta Nombre y Apellido.".
Definition MSG_BAD_PHONE : string :=
  "M" ++ PyStr.chr 243 ++ "vil inv" ++ PyStr.chr 225
  ++ "lido. Revisa el formato.".
Definition MSG_BAD_EMAIL : string := "Email inv" ++ PyStr.chr 225 ++ "lido.".
Definition MSG_NO_CONSENT : string :=
  "Necesitas aceptar el uso de datos para inscribirte.".

(** The character class [[0-9+() \-]] of [PHONE_REGEX]. *)
Definition phone_char (c : N) : bool :=
  (((48 <=? c) && (c <=? 57))
   || (c =? 43) || (c =? 40) || (c =? 41) || (c =? 32) || (c =? 45))%N.

(** Between 7 and 20 characters of the class. *)
Definition phone_body (s : PyStr.str) : bool :=
  PyStr.all_chars phone_char s
  && (7 <=? length s)%nat && (length s <=? 20)%nat.

(** [re.match(PHONE_REGEX, s)]: the pattern is anchored at both ends, and
    [$] also matches before a final newline. *)
Definition match_PHONE_REGEX (s : PyStr.str) : bool :=
  phone_body s
  || match PyStr.last_char s with
     | Some c => (c =? 10)%N && phone_body (PyStr.chop s)
     | None => false
     end.

Record Form := {
  f_full_name : PyStr.str;
  f_phone : PyStr.str;
  f_email : PyStr.str;
  f_consent : bool
}.

(** The checks of the submit handler, in order, ending in the arguments
    it passes to [create_booking_atomic]. *)
Inductive Request :=
| Invalid (msg : string)
| Call (session_id : Z) (full_name phone email : PyStr.str).

Definition booking_request (selected_session : SessionRow) (form : Form)
  : Request :=
  if (r_remaining selected_session <=? 0)%Z then Invalid MSG_SESSION_FULL
  else if negb (PyStr.truthy (PyStr.strip (f_full_name form)))
  then Invalid MSG_NO_NAME
  else if negb (match_PHONE_REGEX (PyStr.strip (f_phone form)))
  then Invalid MSG_BAD_PHONE
  else if negb (PyStr.contains "@" (f_email form))
          || negb (PyStr.contains "." (f_email form))
  then Invalid MSG_BAD_EMAIL
  else if negb (f_consent form) then Invalid MSG_NO_CONSENT
  else Call (r_id selected_session)
            (PyStr.strip (f_full_name form))
            (PyStr.strip (f_phone form))
            (PyStr.lower (PyStr.strip (f_email form))).

(** [if submit: ...]: what is shown and the store afterwards. *)
Definition on_submit (cfg : Config) (db : DB)
    (selected_session : SessionRow) (form : Form) : Shown * DB :=
  match booking_request selected_session form with
  | Invalid msg => (Error msg, db)
  | Call session_id full_name phone email =>
      match create_booking_atomic cfg db session_id full_name phone email with
      | None => (Stopped, db)
      | Some r =>
          let (ok, msg) := returned r in
          (if ok then Success msg else Error msg, db_after r)
      end
  end.

(** ** The admin panel *)

Definition MSG_GRANTED : string := "Acceso concedido.".
Definition MSG_WRONG_PASSWORD : string :=
  "Contrase" ++ PyStr.chr 241 ++ "a incorrecta.".

Definition admin_panel (cfg : Config) (admin_pw : string) : Shown :=
  if PyStr.truthy admin_pw && String.eqb admin_pw (get_admin_password cfg)
  then Success MSG_GRANTED
  else if PyStr.truthy admin_pw then Error MSG_WRONG_PASSWORD
  else Nothing.

(** ** Sequences of booking attempts *)

Record Attempt := {
  a_session_id : Z;
  a_full_name : PyStr.str;
  a_phone : PyStr.str;
  a_email : PyStr.str
}.

Definition attempt (cfg : Config) (db : DB) (a : Attempt)
  : option (Run (bool * string)) :=
  create_booking_atomic cfg db
    (a_session_id a) (a_full_name a) (a_phone a) (a_email a).

(** The store after an attempt; an attempt that could not connect leaves
    it as it was. *)
Definition after_attempt (cfg : Config) (db : DB) (a : Attempt) : DB :=
  match attempt cfg db a with
  | Some r => db_after r
  | None => db
  end.

Definition after_attempts (cfg : Config) (db : DB) (l : list Attempt) : DB :=
  foldl (after_attempt cfg) db l.

(** ** Connections sharing the store

    Several calls of [create_booking_atomic] at once: each has a connection
    of its own and its own place in the body, all of them act on the one
    store, and a [for update] on a session row that another connection holds
    locked waits until that connection ends its transaction. *)
Record Client := {
  c_program : Prog (bool * string);
  c_pending : list Booking;
  c_locked : list Z;
  c_log : list Event;
  c_result : option (bool * string)
}.

Record World := {
  w_store : DB;
  w_clients : gmap nat Client
}.

(** A call that has connected and not yet sent a statement. *)
Definition new_client (a : Attempt) : Client :=
  {| c_program :=
       create_booking_tx (a_session_id a) (a_full_name a) (a_phone a) (a_email a);
     c_pending := []; c_locked := []; c_log := []; c_result := None |}.

Definition start (db : DB) (calls : gmap nat Attempt) : World :=
  {| w_store := db; w_clients := new_client <$> calls |}.

(** A world with a single client. *)
Definition alone (db : DB) (c : Client) : World :=
  {| w_store := db; w_clients := {[ 0%nat := c ]} |}.

(** The connection of a client, on the store as it is now. *)
Definition client_conn (w : World) (c : Client) : Conn :=
  {| store := w_store w; pending := c_pending c; locked := c_locked c;
     log := c_log c |}.

Definition put_client (i : nat) (p : Prog (bool * string)) (conn : Conn)
    (result : option (bool * string)) (w : World) : World :=
  {| w_store := store conn;
     w_clients :=
       <[ i := {| c_program := p; c_pending := pending conn;
                  c_locked := locked conn; c_log := log conn;
                  c_result := result |} ]> (w_clients w) |}.

(** The row of session [sid] is locked by a connection other than [i]. *)
Definition locked_elsewhere (i : nat) (sid : Z) (w : World) : Prop :=
  map_Exists (fun j c => j <> i /\ sid ∈ c_locked c) (w_clients w).

(** Whether client [i] has to wait before its next statement. *)
Definition must_wait (i : nat) (w : World) (p : Prog (bool * string)) : bool :=
  match p with
  | LockSession sid _ => bool_decide (locked_elsewhere i sid w)
  | _ => false
  end.

(** One step of client [i]: its next statement, or, at the end of the body,
    the exit from its connection.  A client that waits, has finished or does
    not exist leaves the world as it is. *)
Definition client_step (i : nat) (w : World) : World :=
  match w_clients w !! i with
  | None => w
  | Some c =>
      match c_result c with
      | Some _ => w
      | None =>
          match c_program c with
          | Return r =>
              put_client i (Return r) (exit_connection (client_conn w c))
                (Some r) w
          | p =>
              if must_wait i w p then w
              else
                match first_statement p with
                | Some statement =>
                    let (p', conn) := statement (client_conn w c) in
                    put_client i p' conn None w
                | None => w
                end
          end
      end
  end.

(** The clients step in the order a schedule names them. *)
Definition run_schedule (w : World) (schedule : list nat) : World :=
  foldl (fun w i => client_step i w) w schedule.

(** ** Specification vocabulary *)

(** The number of booking rows that reference a session. *)
Definition booked_count (db : DB) (sid : Z) : Z :=
  Z.of_nat (length (filter (fun b => b_session_id b = sid) (bookings db))).

(** No session has more bookings than its capacity. *)
Definition capacity_invariant (db : DB) : Prop :=
  forall sid s, sessions db !! sid = Some s -> booked_count db sid <= s_capacity s.

(** Every booking identifier was handed out by the sequence. *)
Definition ids_from_sequence (db : DB) : Prop :=
  Forall (fun b => b_id b < bookings_id_seq db) (bookings db).

(** Where a client can be in the body of [create_booking_atomic], and
    what holds of the store and of its connection there. *)
Definition decide_booking (a : Attempt) (srow : Session) (booked : Z)
  : Prog (bool * string) :=
  if (s_capacity srow - booked <=? 0)%Z
  then DoRollback (Return (false, MSG_FULL))
  else InsertBooking (a_session_id a) (a_full_name a) (a_phone a) (a_email a)
         (fun _ => DoCommit (Return (true, MSG_CONFIRMED))).

Inductive Phase (db : DB) (c : Client) : Prop :=
| phase_start a :
    c_program c = c_program (new_client a) ->
    c_pending c = [] -> c_locked c = [] -> c_result c = None ->
    Phase db c
| phase_counting a s :
    c_program c = CountBookings (a_session_id a) (decide_booking a s) ->
    sessions db !! a_session_id a = Some s ->
    c_pending c = [] -> c_locked c = [a_session_id a] -> c_result c = None ->
    Phase db c
| phase_rolling r :
    c_program c = DoRollback (Return r) ->
    c_pending c = [] -> c_result c = None ->
    Phase db c
| phase_inserting a s :
    c_program c =
      InsertBooking (a_session_id a) (a_full_name a) (a_phone a) (a_email a)
        (fun _ => DoCommit (Return (true, MSG_CONFIRMED))) ->
    sessions db !! a_session_id a = Some s ->
    booked_count db (a_session_id a) < s_capacity s ->
    c_pending c = [] -> c_locked c = [a_session_id a] -> c_result c = None ->
    Phase db c
| phase_committing s row :
    c_program c = DoCommit (Return (true, MSG_CONFIRMED)) ->
    sessions db !! b_session_id row = Some s ->
    booked_count db (b_session_id row) < s_capacity s ->
    c_pending c = [row] -> c_locked c = [b_session_id row] ->
    c_result c = None ->
    Phase db c
| phase_returning r :
    c_program c = Return r ->
    c_pending c = [] -> c_locked c = [] -> c_result c = None ->
    Phase db c
| phase_finished r :
    c_result c = Some r -> c_pending c = [] -> c_locked c = [] ->
    Phase db c.

(** No session row is locked by two connections. *)
Definition exclusive_locks (w : World) : Prop :=
  forall i j ci cj sid,
    i <> j ->
    w_clients w !! i = Some ci -> w_clients w !! j = Some cj ->
    sid ∈ c_locked ci -> sid ∈ c_locked cj -> False.

(** What holds of every world the clients can reach. *)
Definition consistent (w : World) : Prop :=
  capacity_invariant (w_store w)
  /\ exclusive_locks w
  /\ map_Forall (fun _ c => Phase (w_store w) c) (w_clients w).

(** The two errors [create_booking_atomic] reports, as its callers see
    them: a failure flag and the message that tells them apart. *)
Definition SessionNotFound : bool * string := (false, MSG_NOT_FOUND).
Definition SessionFull : bool * string := (false, MSG_FULL).

(** The statements of a trace that write a row. *)
Definition is_insert (e : Event) : bool :=
  match e with InsertReturning _ => true | _ => false end.

Definition inserted_rows (t : list Event) : list Booking :=
  omap (fun e => match e with InsertReturning row => Some row | _ => None end) t.

(** The row an insertion writes into a store. *)
Definition new_row (db : DB) (sid : Z) (full_name phone email : PyStr.str) : Booking :=
  {| b_id := bookings_id_seq db; b_session_id := sid;
     b_full_name := full_name; b_phone := phone; b_email := email |}.

Definition with_row (db : DB) (row : Booking) : DB :=
  {| sessions := sessions db; bookings := bookings db ++ [row];
     bookings_id_seq := bookings_id_seq db + 1 |}.

(** The ways through [create_booking_atomic]: a call takes one of them,
    or never connects. *)
Inductive Path (cfg : Config) (db : DB) (sid : Z) (n p e : PyStr.str)
  : option (Run (bool * string)) -> Prop :=
| path_no_connection :
    get_db_url cfg = "" ->
    Path cfg db sid n p e None
| path_not_found :
    get_db_url cfg <> "" ->
    sessions db !! sid = None ->
    Path cfg db sid n p e
      (Some {| returned := SessionNotFound; db_after := db;
               trace := [SelectForUpdate sid false; ExitCommit] |})
| path_full s :
    get_db_url cfg <> "" ->
    sessions db !! sid = Some s ->
    s_capacity s - booked_count db sid <= 0 ->
    Path cfg db sid n p e
      (Some {| returned := SessionFull; db_after := db;
               trace := [SelectForUpdate sid true;
                         SelectCount sid (booked_count db sid);
                         Rollback; ExitCommit] |})
| path_success s :
    get_db_url cfg <> "" ->
    sessions db !! sid = Some s ->
    0 < s_capacity s - booked_count db sid ->
    Path cfg db sid n p e
      (Some {| returned := (true, MSG_CONFIRMED);
               db_after := with_row db (new_row db sid n p e);
               trace := [SelectForUpdate sid true;
                         SelectCount sid (booked_count db sid);
                         InsertReturning (new_row db sid n p e);
                         Commit; ExitCommit] |}).


(** ** Scenarios

    The concrete stores of the test scenarios: one session of capacity 1
    on one date, first with no booking and then with one. *)
Module Scenario.

Definition cfg : Config :=
  {| secrets := ∅; environ := {[ "DATABASE_URL" := "postgresql://event" ]} |}.

Definition session (capacity : Z) : Session :=
  {| s_activity := "Taller"; s_event_date := 20240601;
     s_start_time := 600; s_end_time := 660; s_capacity := capacity |}.

Definition ana : Attempt :=
  {| a_session_id := 1; a_full_name := "Ana Ruiz";
     a_phone := "+34 600 123 456"; a_email := "ana@example.org" |}.

Definition luis : Attempt :=
  {| a_session_id := 1; a_full_name := "Luis Gil";
     a_phone := "600 654 321"; a_email := "luis@example.org" |}.

(** Scenario A: capacity 1, no booking yet. *)
Definition db_A : DB :=
  {| sessions := {[ 1 := session 1 ]}; bookings := []; bookings_id_seq := 1 |}.

(** Scenario B: capacity 1, one existing booking. *)
Definition db_B : DB :=
  {| sessions := {[ 1 := session 1 ]};
     bookings := [ {| b_id := 1; b_session_id := 1; b_full_name := "Ana Ruiz";
                      b_phone := "+34 600 123 456";
                      b_email := "ana@example.org" |} ];
     bookings_id_seq := 2 |}.

(** Scenario D: capacity 5, no booking yet. *)
Definition db_D : DB :=
  {| sessions := {[ 1 := session 5 ]}; bookings := []; bookings_id_seq := 1 |}.

(** Two calls for the one seat of scenario A, running at once, and an
    order in which their statements reach the store. *)
Definition race : gmap nat Attempt := {[ 0%nat := ana; 1%nat := luis ]}.

Definition interleaved : list nat :=
  [0; 1; 1; 0; 1; 0; 0; 1; 0; 1; 1; 1; 1]%nat.

(** Scenario D: six calls at once for the five seats, their statements
    taken in turn. *)
Definition callers : gmap nat Attempt :=
  list_to_map ((fun i => (i, ana)) <$> seq 0 6).

Definition round_robin : list nat := concat (replicate 30 (seq 0 6)).

End Scenario.

(** ** Readings of the specification that the code is compared with *)

(** The value returned on success determines the identifier of the row
    that was inserted. *)
Definition confirmation_carries_identifier : Prop :=
  exists id_of : bool * string -> Z,
    forall cfg db sid full_name phone email r row,
      create_booking_atomic cfg db sid full_name phone email = Some r ->
      (returned r).1 = true ->
      inserted_rows (trace r) = [row] ->
      id_of (returned r) = b_id row.

(** Every call that returns an error has called [conn.rollback()]. *)
Definition every_abort_rolls_back : Prop :=
  forall cfg db sid full_name phone email r,
    create_booking_atomic cfg db sid full_name phone email = Some r ->
    (returned r).1 = false ->
    Rollback ∈ trace r.

(** How the transaction of a call ended: the first statement of its trace
    that ends a transaction. *)
Definition is_end (e : Event) : bool :=
  match e with Rollback | Commit | ExitCommit => true | _ => false end.

Definition transaction_end (t : list Event) : option Event :=
  head (filter (fun e => is_end e = true) t).

(** A call for a session that does not exist writes nothing, aborts its
    transaction (if anything ends the transaction, it is a rollback) and
    returns the session-not-found error. *)
Definition missing_session_aborts : Prop :=
  forall cfg db sid full_name phone email r,
    create_booking_atomic cfg db sid full_name phone email = Some r ->
    sessions db !! sid = None ->
    inserted_rows (trace r) = []
    /\ (forall e, transaction_end (trace r) = Some e -> e = Rollback)
    /\ returned r = SessionNotFound.

(** A string with no white space at either end. *)
Definition trimmed (s : PyStr.str) : bool :=
  negb (match PyStr.first_char s with Some c => PyStr.isspace c | None => false end)
  && negb (match PyStr.last_char s with Some c => PyStr.isspace c | None => false end).

(** A string with no upper-case letter. *)
Definition no_uppercase (s : PyStr.str) : bool :=
  PyStr.all_chars (fun c => negb (PyStr.isupper c)) s.

(** A string that [str.lower] leaves as it is. *)
Definition lowercased (s : PyStr.str) : Prop := PyStr.lower s = s.

(** A stored booking whose attendee fields are normalized: no field starts
    or ends with white space and the email is in lower case. *)
Definition normalized (b : Booking) : Prop :=
  trimmed (b_full_name b) = true
  /\ trimmed (b_phone b) = true
  /\ trimmed (b_email b) = true
  /\ lowercased (b_email b).

(** The store after a series of form submissions, each with the session
    row selected on the page. *)
Definition after_submits (cfg : Config) (db : DB)
    (l : list (SessionRow * Form)) : DB :=
  foldl (fun db sf => (on_submit cfg db sf.1 sf.2).2) db l.

(** The email of every booking a submission stores has no upper-case
    letter. *)
Definition stored_emails_have_no_uppercase : Prop :=
  forall cfg db sel form,
    Forall (fun b => no_uppercase (b_email b) = true) (bookings db) ->
    Forall (fun b => no_uppercase (b_email b) = true)
           (bookings (on_submit cfg db sel form).2).

(** A form as the first attendee of scenario A would fill it in, and the row
    of the listing selected with it. *)
Module Page.

Definition selected : SessionRow :=
  {| r_id := 1; r_activity := "Taller"; r_start_time := 600;
     r_end_time := 660; r_capacity := 1; r_booked := 0; r_remaining := 1 |}.

Definition form : Form :=
  {| f_full_name := "  Ana Ruiz "; f_phone := " +34 600 123 456";
     f_email := " Ana.Ruiz@Example.ORG  "; f_consent := true |}.

Definition admin_cfg : Config :=
  {| secrets := {[ "admin" := {[ "password" := "s3cret" ]} ]}; environ := ∅ |}.

Definition unset_cfg : Config := {| secrets := ∅; environ := ∅ |}.

(** The same form with an email whose first letter is GREEK UPSILON WITH
    HOOK SYMBOL (U+03D2), an upper-case letter that has no lower-case
    form, followed by [@x.y]. *)
Definition upsilon_email : PyStr.str := [0x3D2; 0x40; 0x78; 0x2E; 0x79]%N.

Definition upsilon_form : Form :=
  {| f_full_name := "  Ana Ruiz "; f_phone := " +34 600 123 456";
     f_email := upsilon_email; f_consent := true |}.

End Page.

From stdpp Require Import pretty sorting.

Local Open Scope Z_scope.
Local Open Scope string_scope.

(** * The rest of the page

    What the sections above leave out of [streamlit_app.py]: the other
    queries, the widgets between the listing and the form, and what the
    functions already embedded do when they are used together. *)

(** ** Series of attempts and their answers *)

(** What each attempt of a series returned, each one run on the store the
    one before it left. *)
Fixpoint results (cfg : Config) (db : DB) (l : list Attempt)
  : list (option (bool * string)) :=
  match l with
  | [] => []
  | a :: l' =>
      (returned <$> attempt cfg db a) :: results cfg (after_attempt cfg db a) l'
  end.

(** The seats a session has left in a store, none when it is over
    capacity. *)
Definition free_seats (db : DB) (sid : Z) (s : Session) : nat :=
  Z.to_nat (s_capacity s - booked_count db sid).

(** A row of the listing once one more booking of session [sid] is
    counted. *)
Definition book_one (sid : Z) (row : SessionRow) : SessionRow :=
  if decide (r_id row = sid)
  then {| r_id := r_id row; r_activity := r_activity row;
          r_start_time := r_start_time row; r_end_time := r_end_time row;
          r_capacity := r_capacity row; r_booked := r_booked row + 1;
          r_remaining := r_remaining row - 1 |}
  else row.

(** Six calls for the same session, one after the other. *)
Definition six_calls : list Attempt := replicate 6 Scenario.ana.

(** The attendee data of a stored booking, as the attempt that stored it
    gave them. *)
Definition attempt_of_row (b : Booking) : Attempt :=
  {| a_session_id := b_session_id b; a_full_name := b_full_name b;
     a_phone := b_phone b; a_email := b_email b |}.

(** A row of the listing query once one more booking of session [sid] is
    counted. *)
Definition count_one (sid : Z) (q : QueryRow) : QueryRow :=
  if decide (q_id q = sid)
  then {| q_id := q_id q; q_activity := q_activity q;
          q_start_time := q_start_time q; q_end_time := q_end_time q;
          q_capacity := q_capacity q; q_booked := q_booked q + 1 |}
  else q.

(** ** Connections sharing the store: locks, waiting and identifiers *)

(** Where a client is in the body, with what its connection holds there,
    whatever the store holds. *)
Inductive Stage (c : Client) : Prop :=
| stage_start a :
    c_program c = c_program (new_client a) ->
    c_pending c = [] -> c_locked c = [] -> c_result c = None ->
    Stage c
| stage_counting a s :
    c_program c = CountBookings (a_session_id a) (decide_booking a s) ->
    c_pending c = [] -> c_locked c = [a_session_id a] -> c_result c = None ->
    Stage c
| stage_rolling sid :
    c_program c = DoRollback (Return (false, MSG_FULL)) ->
    c_pending c = [] -> c_locked c = [sid] -> c_result c = None ->
    Stage c
| stage_inserting a :
    c_program c =
      InsertBooking (a_session_id a) (a_full_name a) (a_phone a) (a_email a)
        (fun _ => DoCommit (Return (true, MSG_CONFIRMED))) ->
    c_pending c = [] -> c_locked c = [a_session_id a] -> c_result c = None ->
    Stage c
| stage_committing row :
    c_program c = DoCommit (Return (true, MSG_CONFIRMED)) ->
    c_pending c = [row] -> c_locked c = [b_session_id row] ->
    c_result c = None ->
    Stage c
| stage_returning r :
    c_program c = Return r ->
    c_pending c = [] -> c_locked c = [] -> c_result c = None ->
    Stage c
| stage_finished r :
    c_program c = Return r ->
    c_result c = Some r -> c_pending c = [] -> c_locked c = [] ->
    Stage c.

(** Every client is at a stage of the body and no session row is locked
    twice. *)
Definition orderly (w : World) : Prop :=
  exclusive_locks w /\ map_Forall (fun _ c => Stage c) (w_clients w).

(** A client that has not returned yet. *)
Definition unfinished (w : World) (i : nat) : Prop :=
  exists c, w_clients w !! i = Some c /\ c_result c = None.

(** A client that has not returned and whose next step is not a wait. *)
Definition can_step (w : World) (i : nat) : Prop :=
  exists c, w_clients w !! i = Some c /\ c_result c = None
            /\ must_wait i w (c_program c) = false.

(** The steps a client still has to take, at most: one for each statement
    that can still follow and one to leave the connection. *)
Definition steps_left (c : Client) : nat :=
  match c_result c with
  | Some _ => 0
  | None =>
      match c_program c with
      | LockSession _ _ => 5
      | CountBookings _ _ => 4
      | InsertBooking _ _ _ _ _ => 3
      | DoRollback _ => 2
      | DoCommit _ => 2
      | Return _ => 1
      end
  end.


(** Every call has returned. *)
Definition all_returned (w : World) : Prop :=
  map_Forall (fun _ c => is_Some (c_result c)) (w_clients w).

(** A call whose body has come to return success, and a call that has
    returned it. *)
Definition committed (c : Client) : nat :=
  match c_program c with
  | Return (true, _) => 1
  | _ => 0
  end.

Definition succeeded (c : Client) : nat :=
  match c_result c with
  | Some (true, _) => 1
  | _ => 0
  end.

(** A count taken over all the clients of a world. *)
Definition total (weight : Client -> nat) (w : World) : nat :=
  map_fold (fun _ c n => weight c + n)%nat 0%nat (w_clients w).

Definition work_left (w : World) : nat := total steps_left w.

(** What a step of a client can do to the store and to the rows its
    connection holds: nothing; write a row, with the next identifier of the
    sequence, that only its connection sees; publish the rows it holds; or
    drop them. *)
Inductive Effect (db : DB) (held : list Booking) (db' : DB)
    (held' : list Booking) : Prop :=
| effect_none :
    db' = db -> held' = held -> Effect db held db' held'
| effect_write row :
    sessions db' = sessions db -> bookings db' = bookings db ->
    bookings_id_seq db' = bookings_id_seq db + 1 ->
    b_id row = bookings_id_seq db ->
    held' = (held ++ [row])%list ->
    Effect db held db' held'
| effect_publish :
    sessions db' = sessions db ->
    bookings db' = (bookings db ++ held)%list ->
    bookings_id_seq db' = bookings_id_seq db ->
    held' = [] ->
    Effect db held db' held'
| effect_drop :
    sessions db' = sessions db -> bookings db' = bookings db ->
    bookings_id_seq db' = bookings_id_seq db ->
    held' = [] ->
    Effect db held db' held'.

(** The identifiers in the store and in the rows the connections hold are
    all below the sequence and all different. *)
Definition fresh_ids (w : World) : Prop :=
  ids_from_sequence (w_store w)
  /\ NoDup (b_id <$> bookings (w_store w))
  /\ (forall i c b,
        w_clients w !! i = Some c -> b ∈ c_pending c ->
        b_id b < bookings_id_seq (w_store w)
        /\ b_id b ∉ b_id <$> bookings (w_store w))
  /\ (forall i c, w_clients w !! i = Some c -> NoDup (b_id <$> c_pending c))
  /\ (forall i j ci cj b b',
        i <> j ->
        w_clients w !! i = Some ci -> w_clients w !! j = Some cj ->
        b ∈ c_pending ci -> b' ∈ c_pending cj -> b_id b <> b_id b').

(** ** [fetch_event_dates] and the widgets above the form *)

Section DistinctAscending.

Context {A : Type} (lt : A -> A -> bool).

(** A value put at its place in an ascending list, unless it is there. *)
Fixpoint insert_distinct (x : A) (l : list A) : list A :=
  match l with
  | [] => [x]
  | y :: l' =>
      if lt x y then x :: l
      else if lt y x then y :: insert_distinct x l'
      else l
  end.

(** The different values of a list in ascending order: what
    [select distinct ... order by ...] returns of a column, and what
    [sorted(list({...}))] makes of a comprehension. *)
Definition distinct_ascending (l : list A) : list A :=
  foldr insert_distinct [] l.

End DistinctAscending.

(** [select distinct event_date from public.sessions order by event_date].
    The log of a connection has no entry for this statement. *)
Definition select_event_dates : Tx (list Z) :=
  fun c =>
    (distinct_ascending Z.ltb
       (s_event_date <$> (map_to_list (sessions (store c))).*2),
     c).

Definition fetch_event_dates (cfg : Config) (db : DB) : option (Run (list Z)) :=
  with_connection cfg db select_event_dates.

Definition MSG_NO_SESSIONS : string :=
  "No hay sesiones cargadas en la base de datos todav" ++ PyStr.chr 237
  ++ "a. (Revisa el SQL de inserci" ++ PyStr.chr 243 ++ "n).".

(** The top of the page: stopped with no connection, stopped on a warning
    when there is no date, or the select box of the dates. *)
Inductive Landing :=
| LandingStopped
| LandingWarning (msg : string)
| LandingDates (dates : list Z).

Definition landing (cfg : Config) (db : DB) : Landing :=
  match fetch_event_dates cfg db with
  | None => LandingStopped
  | Some r =>
      match returned r with
      | [] => LandingWarning MSG_NO_SESSIONS
      | dates => LandingDates dates
      end
  end.

(** [sorted(list({s["activity"] for s in sessions}))] *)
Definition activities (sessions : list SessionRow) : list string :=
  distinct_ascending String.ltb (r_activity <$> sessions).

(** [[s for s in sessions if s["activity"] == activity]] *)
Definition filtered (sessions : list SessionRow) (activity : string)
  : list SessionRow :=
  filter (fun s => r_activity s = activity) sessions.

Section Widgets.

(** [str] of a time of day as the store returns it. *)
Variable time_text : Z -> string.

(** The label of a slot: the first five characters of its start and end
    times, its remaining seats and its capacity. *)
Definition label (s : SessionRow) : string :=
  String.substring 0 5 (time_text (r_start_time s)) ++ " - "
  ++ String.substring 0 5 (time_text (r_end_time s)) ++ "  "
  ++ PyStr.chr 183 ++ "  Plazas: " ++ pretty (r_remaining s) ++ "/"
  ++ pretty (r_capacity s).

(** The loop that fills [options] and [option_map]. *)
Definition options (slots : list SessionRow) : list string :=
  label <$> slots.

Definition option_map (slots : list SessionRow) : gmap string SessionRow :=
  foldl (fun m s => <[ label s := s ]> m) ∅ slots.

(** [option_map[selected_label]] *)
Definition selected_session (slots : list SessionRow) (selected_label : string)
  : option SessionRow :=
  option_map slots !! selected_label.

End Widgets.

(** [str] of a time of day counted in seconds: hours, minutes and seconds
    of two digits each. *)
Definition two_digits (n : Z) : string :=
  pretty (n / 10) ++ pretty (n mod 10).

Definition clock_text (t : Z) : string :=
  two_digits (t / 3600) ++ ":" ++ two_digits (t / 60 mod 60) ++ ":"
  ++ two_digits (t mod 60).

(** The rows of a listing, in the model of [SessionRow], are in the order
    of the query when each row and the next satisfy this. *)
Definition listed_before (text_le : string -> string -> bool)
    (a b : SessionRow) : bool :=
  if String.eqb (r_activity a) (r_activity b)
  then (r_start_time a <=? r_start_time b)%Z
  else text_le (r_activity a) (r_activity b).

(** Two slots of one activity at the same hours, as full as each other. *)
Definition morning_slot (id : Z) : SessionRow :=
  {| r_id := id; r_activity := "Taller"; r_start_time := 36000;
     r_end_time := 39600; r_capacity := 5; r_booked := 2; r_remaining := 3 |}.

(** A store with sessions on two dates, one of them without bookings and
    one with a booking whose session is gone. *)
Definition two_dates : DB :=
  {| sessions :=
       {[ 1 := Scenario.session 1;
          2 := {| s_activity := "Charla"; s_event_date := 20240602;
                  s_start_time := 36000; s_end_time := 39600;
                  s_capacity := 20 |};
          3 := {| s_activity := "Charla"; s_event_date := 20240601;
                  s_start_time := 43200; s_end_time := 46800;
                  s_capacity := 20 |} ]};
     bookings :=
       [ {| b_id := 1; b_session_id := 1; b_full_name := "Ana Ruiz";
            b_phone := "+34 600 123 456"; b_email := "ana@example.org" |};
         {| b_id := 2; b_session_id := 7; b_full_name := "Luis Gil";
            b_phone := "600 654 321"; b_email := "luis@example.org" |} ];
     bookings_id_seq := 3 |}.

(** ** [fetch_bookings] and what the admin panel shows *)

(** A row of the admin listing. *)
Record BookingRow := {
  k_event_date : Z;
  k_activity : string;
  k_start_time : Z;
  k_end_time : Z;
  k_full_name : PyStr.str;
  k_phone : PyStr.str;
  k_email : PyStr.str;
  k_created_at : Z
}.

(** The sum of a column. *)
Definition sum_column (l : list Z) : Z := foldr Z.add 0 l.

Section AdminListing.

(** The store's collation of text. *)
Variable text_le : string -> string -> bool.

(** Modelled from the spec: the creation timestamp the store assigned to
    each booking on insertion, a column of [public.bookings] that the model
    of the table leaves out. *)
Variable created_at : Booking -> Z.

(** [public.bookings b join public.sessions s on s.id = b.session_id
    where s.event_date = %s], for one booking: its row when its session
    exists and is of that date. *)
Definition join_session (event_date : Z) (table : gmap Z Session) (b : Booking)
  : option BookingRow :=
  match table !! b_session_id b with
  | Some s =>
      if decide (s_event_date s = event_date)
      then Some {| k_event_date := s_event_date s;
                   k_activity := s_activity s;
                   k_start_time := s_start_time s;
                   k_end_time := s_end_time s;
                   k_full_name := b_full_name b;
                   k_phone := b_phone b;
                   k_email := b_email b;
                   k_created_at := created_at b |}
      else None
  | None => None
  end.

(** [order by s.activity, s.start_time, b.created_at] *)
Definition booking_row_le (a b : BookingRow) : bool :=
  if String.eqb (k_activity a) (k_activity b)
  then if (k_start_time a =? k_start_time b)%Z
       then (k_created_at a <=? k_created_at b)%Z
       else (k_start_time a <=? k_start_time b)%Z
  else text_le (k_activity a) (k_activity b).

Fixpoint insert_booking_row (r : BookingRow) (l : list BookingRow)
  : list BookingRow :=
  match l with
  | [] => [r]
  | x :: l' => if booking_row_le r x then r :: l else x :: insert_booking_row r l'
  end.

Definition order_booking_rows (l : list BookingRow) : list BookingRow :=
  foldr insert_booking_row [] l.

(** The log of a connection has no entry for this statement. *)
Definition select_bookings (event_date : Z) : Tx (list BookingRow) :=
  fun c =>
    (order_booking_rows
       (omap (join_session event_date (sessions (store c)))
             (visible_bookings c)),
     c).

Definition fetch_bookings (cfg : Config) (db : DB) (event_date : Z)
  : option (Run (list BookingRow)) :=
  with_connection cfg db (select_bookings event_date).

(** What the admin expander shows below the answer to the password: nothing,
    or, once access is granted, the note that there is no inscription or the
    table of the bookings (with its download button); the script stops there
    when [connect] finds no address. *)
Inductive AdminContent :=
| NoContent
| ContentStopped
| NoInscriptions (msg : string)
| Inscriptions (rows : list BookingRow).

Definition MSG_NO_INSCRIPTIONS : string :=
  "A" ++ PyStr.chr 250 ++ "n no hay inscripciones para esta fecha.".

(** The body of the expander, for the date selected above it. *)
Definition admin_view (cfg : Config) (db : DB) (event_date : Z)
    (admin_pw : string) : Shown * AdminContent :=
  if PyStr.truthy admin_pw && String.eqb admin_pw (get_admin_password cfg)
  then
    (Success MSG_GRANTED,
     match fetch_bookings cfg db event_date with
     | None => ContentStopped
     | Some r =>
         match returned r with
         | [] => NoInscriptions MSG_NO_INSCRIPTIONS
         | rows => Inscriptions rows
         end
     end)
  else if PyStr.truthy admin_pw then (Error MSG_WRONG_PASSWORD, NoContent)
  else (Nothing, NoContent).

End AdminListing.

(** A clock that stamps each booking with its identifier. *)
Definition stamp (b : Booking) : Z := b_id b.

(** A configuration with the address of the store in the environment and
    the admin password among the secrets. *)
Definition admin_page_cfg : Config :=
  {| secrets := {[ "admin" := {[ "password" := "s3cret" ]} ]};
     environ := {[ "DATABASE_URL" := "postgresql://event" ]} |}.

(** A configuration whose secrets hold empty values while the environment
    holds usable ones. *)
Definition empty_secrets_cfg : Config :=
  {| secrets := {[ "db" := {[ "url" := "" ]};
                   "admin" := {[ "password" := "" ]} ]};
     environ := {[ "DATABASE_URL" := "postgresql://event";
                   "ADMIN_PASSWORD" := "s3cret" ]} |}.
(** ** Properties of the transaction *)

Lemma truthy_true (s : string) : PyStr.truthy s = true <-> s <> "".
Proof. destruct s; simpl; split; intros; congruence. Qed.

Lemma connect_with_url cfg db :
  get_db_url cfg <> "" ->
  connect cfg db = Some {| store := db; pending := []; locked := []; log := [] |}.
Proof.
  intros Hurl. unfold connect.
  apply truthy_true in Hurl. now rewrite Hurl.
Qed.

Lemma connect_without_url cfg db : get_db_url cfg = "" -> connect cfg db = None.
Proof. intros Hurl. unfold connect. now rewrite Hurl. Qed.

Lemma DB_eta (db : DB) :
  {| sessions := sessions db; bookings := bookings db;
     bookings_id_seq := bookings_id_seq db |} = db.
Proof. now destruct db. Qed.

Lemma booked_count_visible db sid :
  count_bookings sid (bookings db ++ []) = booked_count db sid.
Proof. unfold count_bookings, booked_count. now rewrite app_nil_r. Qed.

(** Running a body is running its first statement and then the rest. *)
Lemma exec_first_statement {A} (p : Prog A) statement c :
  first_statement p = Some statement ->
  exec p c = let (p', c') := statement c in exec p' c'.
Proof.
  destruct p as [a|sid k|sid k|sid n ph e k|k|k]; simpl; intros Hfirst;
    try discriminate; injection Hfirst as <-; unfold bind.
  - now destruct (select_session_for_update sid c).
  - now destruct (select_count sid c).
  - now destruct (insert_booking sid n ph e c).
  - now destruct (rollback c).
  - now destruct (commit c).
Qed.

Ltac run_statements :=
  repeat (unfold bind, ret, select_count, insert_booking, rollback, commit,
            exit_connection, end_transaction, emit, visible_bookings;
          simpl).

Lemma create_booking_not_found cfg db sid n p e :
  get_db_url cfg <> "" ->
  sessions db !! sid = None ->
  create_booking_atomic cfg db sid n p e =
  Some {| returned := SessionNotFound; db_after := db;
          trace := [SelectForUpdate sid false; ExitCommit] |}.
Proof.
  intros Hurl Hnone.
  unfold create_booking_atomic, with_connection.
  rewrite (connect_with_url _ _ Hurl).
  unfold create_booking_tx, lock_session. simpl.
  unfold bind, select_session_for_update. simpl.
  rewrite Hnone. run_statements.
  now rewrite app_nil_r, DB_eta.
Qed.

Lemma create_booking_full cfg db sid n p e s :
  get_db_url cfg <> "" ->
  sessions db !! sid = Some s ->
  s_capacity s - booked_count db sid <= 0 ->
  create_booking_atomic cfg db sid n p e =
  Some {| returned := SessionFull; db_after := db;
          trace := [SelectForUpdate sid true;
                    SelectCount sid (booked_count db sid);
                    Rollback; ExitCommit] |}.
Proof.
  intros Hurl Hsome Hfull.
  unfold create_booking_atomic, with_connection.
  rewrite (connect_with_url _ _ Hurl).
  unfold create_booking_tx, lock_session. simpl.
  unfold bind, select_session_for_update. simpl.
  rewrite Hsome. run_statements.
  rewrite booked_count_visible.
  destruct (Z.leb_spec (s_capacity s - booked_count db sid) 0) as [_|Hgt]; [|lia].
  run_statements.
  now rewrite app_nil_r, DB_eta.
Qed.

Lemma create_booking_success cfg db sid n p e s :
  get_db_url cfg <> "" ->
  sessions db !! sid = Some s ->
  0 < s_capacity s - booked_count db sid ->
  create_booking_atomic cfg db sid n p e =
  Some {| returned := (true, MSG_CONFIRMED);
          db_after := with_row db (new_row db sid n p e);
          trace := [SelectForUpdate sid true;
                    SelectCount sid (booked_count db sid);
                    InsertReturning (new_row db sid n p e);
                    Commit; ExitCommit] |}.
Proof.
  intros Hurl Hsome Hfree.
  unfold create_booking_atomic, with_connection.
  rewrite (connect_with_url _ _ Hurl).
  unfold create_booking_tx, lock_session. simpl.
  unfold bind, select_session_for_update. simpl.
  rewrite Hsome. run_statements.
  rewrite booked_count_visible.
  destruct (Z.leb_spec (s_capacity s - booked_count db sid) 0) as [Hle|_]; [lia|].
  run_statements.
  now rewrite app_nil_r.
Qed.

(** Every call takes one of the ways through, or never connects. *)
Lemma create_booking_path cfg db sid n p e :
  Path cfg db sid n p e (create_booking_atomic cfg db sid n p e).
Proof.
  destruct (decide (get_db_url cfg = "")) as [Hurl|Hurl].
  - unfold create_booking_atomic, with_connection.
    rewrite (connect_without_url _ _ Hurl). now constructor.
  - destruct (sessions db !! sid) as [s|] eqn:Hs.
    + destruct (Z_le_gt_dec (s_capacity s - booked_count db sid) 0) as [Hle|Hgt].
      * rewrite (create_booking_full _ _ _ _ _ _ s); auto. now apply path_full with s.
      * rewrite (create_booking_success _ _ _ _ _ _ s); auto; [|lia].
        apply path_success with s; auto. lia.
    + rewrite create_booking_not_found; auto. now constructor.
Qed.

Lemma booked_count_with_row db row sid :
  booked_count (with_row db row) sid =
  booked_count db sid + (if decide (b_session_id row = sid) then 1 else 0).
Proof.
  unfold booked_count, with_row. simpl.
  rewrite filter_app, length_app, Nat2Z.inj_add. f_equal.
  rewrite filter_cons, filter_nil. now destruct (decide _).
Qed.

Lemma after_attempt_cases cfg db a :
  after_attempt cfg db a = db
  \/ exists s,
       sessions db !! a_session_id a = Some s
       /\ booked_count db (a_session_id a) < s_capacity s
       /\ after_attempt cfg db a =
          with_row db (new_row db (a_session_id a) (a_full_name a)
                               (a_phone a) (a_email a)).
Proof.
  unfold after_attempt, attempt.
  destruct (create_booking_path cfg db (a_session_id a) (a_full_name a)
              (a_phone a) (a_email a)) as [ | | | s _ Hs Hfree]; simpl; auto.
  right. exists s. repeat split; auto. lia.
Qed.

Lemma after_attempt_sessions cfg db a :
  sessions (after_attempt cfg db a) = sessions db.
Proof.
  destruct (after_attempt_cases cfg db a) as [-> | (s & _ & _ & ->)]; reflexivity.
Qed.

Lemma capacity_invariant_step cfg db a :
  capacity_invariant db -> capacity_invariant (after_attempt cfg db a).
Proof.
  intros Hinv.
  destruct (after_attempt_cases cfg db a) as [-> | (s & Hs & Hfree & ->)]; [assumption|].
  intros sid s' Hs'. simpl in Hs'.
  rewrite booked_count_with_row. simpl.
  specialize (Hinv sid s' Hs').
  destruct (decide (a_session_id a = sid)) as [<-|_]; [|lia].
  rewrite Hs in Hs'. injection Hs' as <-. lia.
Qed.

Lemma capacity_invariant_steps cfg l : forall db,
  capacity_invariant db -> capacity_invariant (after_attempts cfg db l).
Proof.
  induction l as [|a l IH]; intros db Hinv; simpl; [assumption|].
  apply IH. now apply capacity_invariant_step.
Qed.

(** ** Connections sharing the store *)

Lemma booked_count_app db db' row sid :
  bookings db' = (bookings db ++ [row])%list ->
  booked_count db' sid =
  booked_count db sid + (if decide (b_session_id row = sid) then 1 else 0).
Proof.
  intros Hrows. unfold booked_count. rewrite Hrows.
  rewrite filter_app, length_app, Nat2Z.inj_add. f_equal.
  rewrite filter_cons, filter_nil. now destruct (decide _).
Qed.

Lemma booked_count_same db db' sid :
  bookings db' = bookings db -> booked_count db' sid = booked_count db sid.
Proof. intros Hrows. unfold booked_count. now rewrite Hrows. Qed.

Lemma Phase_same_rows db db' c :
  sessions db' = sessions db ->
  bookings db' = bookings db ->
  Phase db c -> Phase db' c.
Proof.
  intros Hs Hb Hphase.
  destruct Hphase as [a Hp|a s Hp Hl|r Hp|a s Hp Hl Hc|s row Hp Hl Hc|r Hp|r Hr].
  - now apply phase_start with a.
  - apply phase_counting with a s; auto. now rewrite Hs.
  - now apply phase_rolling with r.
  - apply phase_inserting with a s; auto; [now rewrite Hs|].
    now rewrite (booked_count_same db db').
  - apply phase_committing with s row; auto; [now rewrite Hs|].
    now rewrite (booked_count_same db db').
  - now apply phase_returning with r.
  - now apply phase_finished with r.
Qed.

Lemma Phase_other_row db db' row c :
  sessions db' = sessions db ->
  bookings db' = (bookings db ++ [row])%list ->
  b_session_id row ∉ c_locked c ->
  Phase db c -> Phase db' c.
Proof.
  intros Hs Hb Hrow Hphase.
  destruct Hphase as [a Hp|a s Hp Hl|r Hp|a s Hp Hl Hc Hpend Hlock
                     |s row' Hp Hl Hc Hpend Hlock|r Hp|r Hr].
  - now apply phase_start with a.
  - apply phase_counting with a s; auto. now rewrite Hs.
  - now apply phase_rolling with r.
  - apply phase_inserting with a s; auto; [now rewrite Hs|].
    rewrite (booked_count_app db db' row) by assumption.
    destruct (decide (b_session_id row = a_session_id a)) as [Heq|_]; [|lia].
    exfalso. apply Hrow. rewrite Hlock, Heq. apply list_elem_of_singleton.
    reflexivity.
  - apply phase_committing with s row'; auto; [now rewrite Hs|].
    rewrite (booked_count_app db db' row) by assumption.
    destruct (decide (b_session_id row = b_session_id row')) as [Heq|_]; [|lia].
    exfalso. apply Hrow. rewrite Hlock, Heq. apply list_elem_of_singleton.
    reflexivity.
  - now apply phase_returning with r.
  - now apply phase_finished with r.
Qed.

(** Replacing the state of one client keeps the world consistent when the
    new store still respects the capacities, the other clients are where
    they were, the client is at a place of the body, and it holds no lock
    that it did not hold before or that another connection holds. *)
Lemma consistent_put i w c p conn result :
  consistent w ->
  w_clients w !! i = Some c ->
  capacity_invariant (store conn) ->
  (forall j cj, j <> i -> w_clients w !! j = Some cj ->
                Phase (w_store w) cj -> Phase (store conn) cj) ->
  Phase (store conn)
    {| c_program := p; c_pending := pending conn; c_locked := locked conn;
       c_log := log conn; c_result := result |} ->
  (forall sid, sid ∈ locked conn ->
               sid ∈ c_locked c \/ ~ locked_elsewhere i sid w) ->
  consistent (put_client i p conn result w).
Proof.
  intros (Hcap & Hexcl & Hphases) Hi Hcap' Hframe Hphase Hlocks.
  split; [exact Hcap'|]. split.
  - intros j k cj ck sid Hjk Hj Hk Hsj Hsk. simpl in Hj, Hk.
    destruct (decide (i = j)) as [<-|Hij].
    + rewrite lookup_insert_eq in Hj. injection Hj as <-. simpl in Hsj.
      rewrite lookup_insert_ne in Hk by assumption.
      destruct (Hlocks sid Hsj) as [Hold|Hfree].
      * exact (Hexcl i k c ck sid Hjk Hi Hk Hold Hsk).
      * apply Hfree. exists k, ck. auto.
    + rewrite lookup_insert_ne in Hj by assumption.
      destruct (decide (i = k)) as [<-|Hik].
      * rewrite lookup_insert_eq in Hk. injection Hk as <-. simpl in Hsk.
        destruct (Hlocks sid Hsk) as [Hold|Hfree].
        -- exact (Hexcl j i cj c sid Hjk Hj Hi Hsj Hold).
        -- apply Hfree. exists j, cj. auto.
      * rewrite lookup_insert_ne in Hk by assumption.
        exact (Hexcl j k cj ck sid Hjk Hj Hk Hsj Hsk).
  - intros j cj Hj. simpl in Hj |- *.
    destruct (decide (i = j)) as [<-|Hij].
    + rewrite lookup_insert_eq in Hj. now injection Hj as <-.
    + rewrite lookup_insert_ne in Hj by assumption.
      apply (Hframe j cj); auto. exact (Hphases j cj Hj).
Qed.

Lemma capacity_invariant_same_rows db db' :
  sessions db' = sessions db -> bookings db' = bookings db ->
  capacity_invariant db -> capacity_invariant db'.
Proof.
  intros Hs Hb Hcap sid s Hsid. rewrite Hs in Hsid.
  rewrite (booked_count_same db db') by assumption. now apply Hcap.
Qed.

(** Every step of a client keeps the world consistent. *)
Lemma client_step_consistent i w : consistent w -> consistent (client_step i w).
Proof.
  intros Hw. pose proof Hw as (Hcap & Hexcl & Hphases).
  unfold client_step.
  destruct (w_clients w !! i) as [c|] eqn:Hi; [|assumption].
  pose proof (Hphases i c Hi) as Hphase. simpl in Hphase.
  destruct c as [prog pend lck lg res].
  destruct Hphase as [a Hp Hpend Hlock Hres|a s Hp Hl Hpend Hlock Hres
                     |r Hp Hpend Hres|a s Hp Hl Hc Hpend Hlock Hres
                     |s row Hp Hl Hc Hpend Hlock Hres|r Hp Hpend Hlock Hres
                     |r Hres Hpend Hlock];
    simpl in *; subst.
  - (* the lookup of the session row *)
    unfold create_booking_tx, lock_session. simpl.
    destruct (bool_decide (locked_elsewhere i (a_session_id a) w)) eqn:Hwait;
      [assumption|].
    apply bool_decide_eq_false in Hwait.
    unfold bind, select_session_for_update, client_conn. simpl.
    destruct (sessions (w_store w) !! a_session_id a) as [s|] eqn:Hs; simpl;
      (eapply consistent_put; [exact Hw|exact Hi|exact Hcap|auto|..]); simpl.
    + now apply phase_counting with a s.
    + intros sid Hsid. apply list_elem_of_singleton in Hsid as ->. now right.
    + now apply phase_returning with (false, MSG_NOT_FOUND).
    + intros sid Hsid. now apply elem_of_nil in Hsid.
  - (* the count *)
    unfold bind, select_count, client_conn, visible_bookings. simpl.
    rewrite app_nil_r. fold (booked_count (w_store w) (a_session_id a)).
    (eapply consistent_put; [exact Hw|exact Hi|exact Hcap|auto|..]); simpl.
    + unfold decide_booking.
      change (count_bookings (a_session_id a) (bookings (w_store w)))
        with (booked_count (w_store w) (a_session_id a)).
      destruct (Z.leb_spec
                  (s_capacity s - booked_count (w_store w) (a_session_id a)) 0).
      * now apply phase_rolling with (false, MSG_FULL).
      * apply phase_inserting with a s; auto. lia.
    + intros sid Hsid. now left.
  - (* the rollback *)
    unfold bind, rollback, end_transaction, client_conn. simpl.
    (eapply consistent_put; [exact Hw|exact Hi|..]); simpl.
    + now apply (capacity_invariant_same_rows (w_store w)).
    + intros j cj _ _. now apply Phase_same_rows.
    + now apply phase_returning with r.
    + intros sid Hsid. now apply elem_of_nil in Hsid.
  - (* the insertion *)
    unfold bind, insert_booking, client_conn. simpl.
    (eapply consistent_put; [exact Hw|exact Hi|..]); simpl.
    + now apply (capacity_invariant_same_rows (w_store w)).
    + intros j cj _ _. now apply Phase_same_rows.
    + apply phase_committing
        with s (new_row (w_store w) (a_session_id a) (a_full_name a)
                  (a_phone a) (a_email a)); auto.
    + intros sid Hsid. now left.
  - (* the commit *)
    unfold bind, commit, end_transaction, client_conn, visible_bookings. simpl.
    (eapply consistent_put; [exact Hw|exact Hi|..]); simpl.
    + intros sid s' Hs'. simpl in Hs'.
      erewrite booked_count_app by reflexivity.
      specialize (Hcap sid s' Hs').
      destruct (decide (b_session_id row = sid)) as [<-|_]; [|lia].
      rewrite Hl in Hs'. injection Hs' as <-. lia.
    + intros j cj Hji Hj. apply Phase_other_row with row; auto.
      intros Hin. apply (Hexcl i j _ cj (b_session_id row)) in Hi; auto.
      simpl. apply list_elem_of_singleton. reflexivity.
    + now apply phase_returning with (true, MSG_CONFIRMED).
    + intros sid Hsid. now apply elem_of_nil in Hsid.
  - (* leaving the connection *)
    unfold exit_connection, end_transaction, client_conn, visible_bookings.
    simpl.
    (eapply consistent_put; [exact Hw|exact Hi|..]); simpl.
    + apply (capacity_invariant_same_rows (w_store w)); auto. simpl.
      apply app_nil_r.
    + intros j cj _ _. apply Phase_same_rows; auto. simpl. apply app_nil_r.
    + now apply phase_finished with r.
    + intros sid Hsid. now apply elem_of_nil in Hsid.
  - assumption.
Qed.

Lemma run_schedule_consistent schedule : forall w,
  consistent w -> consistent (run_schedule w schedule).
Proof.
  induction schedule as [|i schedule IH]; intros w Hw; simpl; [assumption|].
  apply IH. now apply client_step_consistent.
Qed.

Lemma start_consistent db calls :
  capacity_invariant db -> consistent (start db calls).
Proof.
  intros Hcap. split; [exact Hcap|]. split.
  - intros i j ci cj sid _ Hi _ Hsid _. simpl in Hi.
    rewrite lookup_fmap in Hi.
    destruct (calls !! i) as [a|]; [|discriminate]. injection Hi as <-.
    now apply elem_of_nil in Hsid.
  - intros i c Hi. simpl in Hi. rewrite lookup_fmap in Hi.
    destruct (calls !! i) as [a|]; [|discriminate]. injection Hi as <-.
    now apply phase_start with a.
Qed.

Lemma capacity_invariant_schedule db calls schedule :
  capacity_invariant db ->
  capacity_invariant (w_store (run_schedule (start db calls) schedule)).
Proof.
  intros Hcap.
  now destruct (run_schedule_consistent schedule (start db calls)
                  (start_consistent db calls Hcap)) as [Hcap' _].
Qed.

Lemma alone_never_waits db c sid : ~ locked_elsewhere 0 sid (alone db c).
Proof.
  intros (j & cj & Hj & Hne & _). simpl in Hj.
  apply lookup_singleton_Some in Hj as [<- _]. now contradiction Hne.
Qed.

Lemma alone_put db c p conn result :
  put_client 0 p conn result (alone db c) =
  alone (store conn)
    {| c_program := p; c_pending := pending conn; c_locked := locked conn;
       c_log := log conn; c_result := result |}.
Proof. unfold put_client, alone. simpl. now rewrite insert_singleton_eq. Qed.

Lemma alone_statement db c statement p conn :
  c_result c = None ->
  first_statement (c_program c) = Some statement ->
  statement (client_conn (alone db c) c) = (p, conn) ->
  client_step 0 (alone db c) =
  alone (store conn)
    {| c_program := p; c_pending := pending conn; c_locked := locked conn;
       c_log := log conn; c_result := None |}.
Proof.
  intros Hres Hfirst Hrun. unfold client_step.
  change (w_clients (alone db c) !! 0%nat) with (({[0%nat := c]} : gmap nat Client) !! 0%nat).
  rewrite lookup_singleton_eq, Hres.
  assert (Hwait : must_wait 0 (alone db c) (c_program c) = false).
  { destruct (c_program c); reflexivity. }
  destruct (c_program c) eqn:Hprog; try discriminate Hfirst;
    rewrite Hwait, Hfirst, Hrun; apply alone_put.
Qed.

Lemma alone_return db c r :
  c_result c = None ->
  c_program c = Return r ->
  client_step 0 (alone db c) =
  alone (store (exit_connection (client_conn (alone db c) c)))
    {| c_program := Return r; c_pending := []; c_locked := [];
       c_log := log (exit_connection (client_conn (alone db c) c));
       c_result := Some r |}.
Proof.
  intros Hres Hprog. unfold client_step.
  change (w_clients (alone db c) !! 0%nat) with (({[0%nat := c]} : gmap nat Client) !! 0%nat).
  rewrite lookup_singleton_eq, Hres, Hprog. apply alone_put.
Qed.

Lemma alone_finished db c r :
  c_result c = Some r -> client_step 0 (alone db c) = alone db c.
Proof.
  intros Hres. unfold client_step.
  change (w_clients (alone db c) !! 0%nat) with (({[0%nat := c]} : gmap nat Client) !! 0%nat).
  now rewrite lookup_singleton_eq, Hres.
Qed.

Lemma start_alone db a : start db {[0%nat := a]} = alone db (new_client a).
Proof. unfold start, alone. now rewrite map_fmap_singleton. Qed.

Ltac alone_statement_step Hs :=
  erewrite alone_statement;
  [|reflexivity|reflexivity|
   unfold bind, select_session_for_update; run_statements;
   rewrite ?Hs; reflexivity];
  simpl.

Ltac alone_return_step :=
  erewrite alone_return; [|reflexivity|reflexivity];
  repeat (erewrite alone_finished by reflexivity);
  unfold exit_connection, end_transaction, visible_bookings; simpl.

(** A client that is alone in the world goes through the statements of
    [create_booking_atomic] and ends with its result, its trace and its
    store. *)
Lemma alone_run cfg db a :
  get_db_url cfg <> "" ->
  exists r c,
    attempt cfg db a = Some r
    /\ run_schedule (start db {[0%nat := a]}) [0; 0; 0; 0; 0]%nat
       = alone (db_after r) c
    /\ c_result c = Some (returned r)
    /\ c_log c = trace r.
Proof.
  intros Hurl. unfold attempt. rewrite start_alone.
  destruct (create_booking_path cfg db (a_session_id a) (a_full_name a)
              (a_phone a) (a_email a))
    as [Hno| _ Hs | s _ Hs Hfull | s _ Hs Hfree];
    [contradiction|..]; eexists; eexists; (split; [reflexivity|]); simpl.
  - alone_statement_step Hs. alone_return_step.
    rewrite app_nil_r, DB_eta. repeat split.
  - alone_statement_step Hs. alone_statement_step Hs.
    rewrite app_nil_r.
    change (count_bookings (a_session_id a) (bookings db))
      with (booked_count db (a_session_id a)).
    destruct (Z.leb_spec (s_capacity s - booked_count db (a_session_id a)) 0);
      [|lia].
    alone_statement_step Hs. alone_return_step.
    rewrite app_nil_r, DB_eta. repeat split.
  - alone_statement_step Hs. alone_statement_step Hs.
    rewrite app_nil_r.
    change (count_bookings (a_session_id a) (bookings db))
      with (booked_count db (a_session_id a)).
    destruct (Z.leb_spec (s_capacity s - booked_count db (a_session_id a)) 0);
      [lia|].
    alone_statement_step Hs. alone_statement_step Hs. alone_return_step.
    rewrite app_nil_r. repeat split.
Qed.

(** Scenario D on connections that share the store: five of the six calls
    book, with five different identifiers, and the sixth is told that the
    session is full. *)
Example scenario_D_at_once :
  let w := run_schedule (start Scenario.db_D Scenario.callers)
             Scenario.round_robin in
  b_id <$> bookings (w_store w) = [1; 2; 3; 4; 5]
  /\ (fun i => c_result <$> w_clients w !! i) <$> seq 0 6
     = [Some (Some (true, MSG_CONFIRMED)); Some (Some (true, MSG_CONFIRMED));
        Some (Some (true, MSG_CONFIRMED)); Some (Some (true, MSG_CONFIRMED));
        Some (Some (true, MSG_CONFIRMED)); Some (Some SessionFull)].
Proof. vm_compute. split; reflexivity. Qed.

(** C1: starting from a store in which no session is over capacity, no
    sequence of booking attempts leaves a session with more bookings than
    its capacity, and neither does any interleaving of the statements of
    attempts that run at once on connections of their own; and an attempt
    inserts a row only after it has locked the session row and counted,
    under that lock, strictly fewer bookings than the capacity. *)
Theorem capacity_never_exceeded cfg db (l : list Attempt)
    (calls : gmap nat Attempt) (schedule : list nat) :
  capacity_invariant db ->
  capacity_invariant (after_attempts cfg db l)
  /\ capacity_invariant (w_store (run_schedule (start db calls) schedule))
  /\ forall a r,
       attempt cfg (after_attempts cfg db l) a = Some r ->
       bookings (db_after r) <> bookings (after_attempts cfg db l) ->
       exists s rest,
         sessions (after_attempts cfg db l) !! a_session_id a = Some s
         /\ trace r =
            SelectForUpdate (a_session_id a) true
            :: SelectCount (a_session_id a)
                 (booked_count (after_attempts cfg db l) (a_session_id a))
            :: rest
         /\ booked_count (after_attempts cfg db l) (a_session_id a) < s_capacity s.
Proof.
  intros Hinv. split; [now apply capacity_invariant_steps|].
  split; [now apply capacity_invariant_schedule|].
  set (db' := after_attempts cfg db l). clearbody db'.
  intros a r Hrun Hnew. unfold attempt in Hrun.
  destruct (create_booking_path cfg db' (a_session_id a) (a_full_name a)
              (a_phone a) (a_email a)) as [ | | | s _ Hs Hfree];
    try discriminate; injection Hrun as <-; simpl in Hnew; try congruence.
  exists s. eexists. simpl. repeat split; [assumption|lia].
Qed.

Lemma scenario_A_invariant : capacity_invariant Scenario.db_A.
Proof.
  intros sid s Hs. simpl in Hs.
  apply lookup_singleton_Some in Hs as [<- <-]. vm_compute. discriminate.
Qed.

Lemma capacity_never_exceeded_witness :
  capacity_invariant
    (after_attempts Scenario.cfg Scenario.db_A [Scenario.ana; Scenario.luis])
  /\ capacity_invariant
       (w_store (run_schedule (start Scenario.db_A Scenario.race)
                   Scenario.interleaved))
  /\ booked_count
       (after_attempts Scenario.cfg Scenario.db_A [Scenario.ana; Scenario.luis]) 1
     = 1
  /\ booked_count
       (w_store (run_schedule (start Scenario.db_A Scenario.race)
                   Scenario.interleaved)) 1
     = 1.
Proof.
  split; [|split].
  - apply (capacity_never_exceeded Scenario.cfg Scenario.db_A
             [Scenario.ana; Scenario.luis] Scenario.race Scenario.interleaved).
    exact scenario_A_invariant.
  - apply (capacity_never_exceeded Scenario.cfg Scenario.db_A
             [Scenario.ana; Scenario.luis] Scenario.race Scenario.interleaved).
    exact scenario_A_invariant.
  - split; vm_compute; reflexivity.
Defined.

(** ** The error paths and the result *)

Lemma messages_differ : MSG_NOT_FOUND <> MSG_FULL.
Proof. vm_compute. discriminate. Qed.

(** C2: when the session exists and, under its row lock, capacity minus
    the booked count is zero or less, the call rolls back explicitly, returns
    the session-full error and inserts no row. *)
Theorem full_session_rolls_back cfg db sid full_name phone email s :
  get_db_url cfg <> "" ->
  sessions db !! sid = Some s ->
  s_capacity s - booked_count db sid <= 0 ->
  exists r,
    create_booking_atomic cfg db sid full_name phone email = Some r
    /\ returned r = SessionFull
    /\ trace r = [SelectForUpdate sid true;
                  SelectCount sid (booked_count db sid);
                  Rollback; ExitCommit]
    /\ inserted_rows (trace r) = []
    /\ db_after r = db.
Proof.
  intros Hurl Hs Hfull. eexists. split.
  - now apply create_booking_full with s.
  - simpl. auto.
Qed.

Lemma full_session_rolls_back_witness :
  exists r,
    attempt Scenario.cfg Scenario.db_B Scenario.luis = Some r
    /\ returned r = SessionFull
    /\ trace r = [SelectForUpdate 1 true; SelectCount 1 1; Rollback; ExitCommit]
    /\ inserted_rows (trace r) = []
    /\ db_after r = Scenario.db_B.
Proof.
  apply (full_session_rolls_back Scenario.cfg Scenario.db_B 1
           "Luis Gil" "600 654 321" "luis@example.org" (Scenario.session 1)).
  - vm_compute. discriminate.
  - reflexivity.
  - vm_compute. discriminate.
Defined.

(** C3, as the specification words it, fails: the call for a session that
    does not exist does not abort its transaction; the first statement that
    ends it is the commit on leaving the connection block. *)
Lemma not_found_call_is_not_aborted : ~ missing_session_aborts.
Proof.
  intros Hall.
  destruct (Hall Scenario.cfg Scenario.db_A 9999 "Ana Ruiz" "+34 600 123 456"
              "ana@example.org" _ eq_refl eq_refl) as (_ & Hend & _).
  specialize (Hend ExitCommit eq_refl). discriminate Hend.
Qed.

(** C3, amended: for an identifier that names no session the call writes
    nothing and returns the session-not-found error straight after the
    lookup; it does not roll back: its transaction, which holds no write,
    is ended by the commit on leaving the connection block, and the store is
    as it was. *)
Theorem missing_session_not_found cfg db sid full_name phone email :
  get_db_url cfg <> "" ->
  sessions db !! sid = None ->
  exists r,
    create_booking_atomic cfg db sid full_name phone email = Some r
    /\ returned r = SessionNotFound
    /\ trace r = [SelectForUpdate sid false; ExitCommit]
    /\ transaction_end (trace r) = Some ExitCommit
    /\ inserted_rows (trace r) = []
    /\ db_after r = db.
Proof.
  intros Hurl Hs. eexists. split.
  - now apply create_booking_not_found.
  - simpl. auto.
Qed.

Lemma missing_session_not_found_witness :
  exists r,
    create_booking_atomic Scenario.cfg Scenario.db_A 9999
      "Ana Ruiz" "+34 600 123 456" "ana@example.org" = Some r
    /\ returned r = SessionNotFound
    /\ trace r = [SelectForUpdate 9999 false; ExitCommit]
    /\ transaction_end (trace r) = Some ExitCommit
    /\ inserted_rows (trace r) = []
    /\ db_after r = Scenario.db_A.
Proof.
  apply (missing_session_not_found Scenario.cfg Scenario.db_A 9999).
  - vm_compute. discriminate.
  - reflexivity.
Defined.

(** C4: a call that returns success has inserted exactly one booking row,
    for the targeted session and with the fields it was given; a call that
    returns an error has inserted none and leaves the store as it was; in
    both cases the store afterwards holds either all of the write or none of
    it, and the sessions and the bookings of the other sessions are
    unchanged. *)
Theorem one_row_or_none cfg db sid full_name phone email r :
  create_booking_atomic cfg db sid full_name phone email = Some r ->
  sessions (db_after r) = sessions db
  /\ (forall other, other <> sid ->
        filter (fun b => b_session_id b = other) (bookings (db_after r))
        = filter (fun b => b_session_id b = other) (bookings db))
  /\ ((returned r).1 = true
      /\ (exists row,
            inserted_rows (trace r) = [row]
            /\ bookings (db_after r) = (bookings db ++ [row])%list
            /\ b_session_id row = sid /\ b_full_name row = full_name
            /\ b_phone row = phone /\ b_email row = email)
      \/
      (returned r = SessionFull \/ returned r = SessionNotFound)
      /\ inserted_rows (trace r) = []
      /\ db_after r = db).
Proof.
  intros Hrun.
  destruct (create_booking_path cfg db sid full_name phone email)
    as [ | | | s _ Hs Hfree]; try discriminate; injection Hrun as <-; simpl.
  - split; [reflexivity|]. split; [reflexivity|]. right. auto.
  - split; [reflexivity|]. split; [reflexivity|]. right. auto.
  - split; [reflexivity|]. split.
    + intros other Hother. rewrite filter_app, filter_cons, filter_nil. simpl.
      destruct (decide (sid = other)); [congruence|]. now rewrite app_nil_r.
    + left. split; [reflexivity|]. eexists. repeat split.
Qed.

Lemma one_row_or_none_witness :
  exists r,
    attempt Scenario.cfg Scenario.db_A Scenario.ana = Some r
    /\ sessions (db_after r) = sessions Scenario.db_A
    /\ (forall other, other <> 1 ->
          filter (fun b => b_session_id b = other) (bookings (db_after r))
          = filter (fun b => b_session_id b = other) (bookings Scenario.db_A))
    /\ ((returned r).1 = true
        /\ (exists row,
              inserted_rows (trace r) = [row]
              /\ bookings (db_after r) = (bookings Scenario.db_A ++ [row])%list
              /\ b_session_id row = 1 /\ b_full_name row = "Ana Ruiz"
              /\ b_phone row = "+34 600 123 456"
              /\ b_email row = "ana@example.org")
        \/
        (returned r = SessionFull \/ returned r = SessionNotFound)
        /\ inserted_rows (trace r) = []
        /\ db_after r = Scenario.db_A).
Proof.
  eexists. split; [reflexivity|].
  apply (one_row_or_none Scenario.cfg Scenario.db_A 1
           "Ana Ruiz" "+34 600 123 456" "ana@example.org").
  reflexivity.
Defined.

Lemma ids_from_sequence_with_row db sid n p e :
  ids_from_sequence db ->
  ids_from_sequence (with_row db (new_row db sid n p e)).
Proof.
  unfold ids_from_sequence. simpl. intros Hids.
  apply Forall_app. split.
  - eapply Forall_impl; [exact Hids|]. simpl. intros b Hb. lia.
  - repeat constructor. simpl. lia.
Qed.

Lemma new_row_id_fresh db sid n p e :
  ids_from_sequence db ->
  b_id (new_row db sid n p e) ∉ b_id <$> bookings db.
Proof.
  unfold ids_from_sequence. intros Hids Hin.
  apply list_elem_of_fmap in Hin as (b & Heq & Hb).
  rewrite Forall_forall in Hids. specialize (Hids b Hb).
  simpl in Heq. lia.
Qed.

Lemma NoDup_ids_with_row db sid n p e :
  ids_from_sequence db ->
  NoDup (b_id <$> bookings db) ->
  NoDup (b_id <$> bookings (with_row db (new_row db sid n p e))).
Proof.
  intros Hids Hnodup. simpl. rewrite fmap_app. apply NoDup_app.
  split; [assumption|]. split.
  - intros x Hx Hx'. apply list_elem_of_singleton in Hx'. subst x.
    now apply (new_row_id_fresh db sid n p e).
  - apply NoDup_singleton.
Qed.

Lemma distinct_ids_steps cfg l : forall db,
  ids_from_sequence db ->
  NoDup (b_id <$> bookings db) ->
  ids_from_sequence (after_attempts cfg db l)
  /\ NoDup (b_id <$> bookings (after_attempts cfg db l)).
Proof.
  induction l as [|a l IH]; intros db Hids Hnodup; simpl; [auto|].
  apply IH;
    destruct (after_attempt_cases cfg db a) as [-> | (s & _ & _ & ->)];
    auto using ids_from_sequence_with_row, NoDup_ids_with_row.
Qed.

(** C5, as the specification words it, fails: two bookings that receive
    different identifiers are answered with the same value, so no reading
    of the value returned yields the identifier. *)
Lemma confirmation_has_no_identifier : ~ confirmation_carries_identifier.
Proof.
  intros [id_of Hid].
  pose proof (Hid Scenario.cfg Scenario.db_D 1 "Ana Ruiz" "+34 600 123 456"
                "ana@example.org" _ _ eq_refl eq_refl eq_refl) as H1.
  pose proof (Hid Scenario.cfg (after_attempt Scenario.cfg Scenario.db_D Scenario.ana)
                1 "Luis Gil" "600 654 321" "luis@example.org"
                _ _ eq_refl eq_refl eq_refl) as H2.
  simpl in H1, H2. rewrite H1 in H2. discriminate H2.
Qed.

(** C5, amended: a successful call returns the fixed pair of the success
    flag and the confirmation message; the identifier the store assigned to
    the inserted row is read and dropped.  That identifier is not one of
    those already in the table, and over any sequence of attempts the
    identifiers in the table stay pairwise distinct, provided the identifiers
    already stored are distinct and came from the sequence. *)
Theorem fixed_confirmation_fresh_identifier cfg db (l : list Attempt) :
  ids_from_sequence db ->
  NoDup (b_id <$> bookings db) ->
  NoDup (b_id <$> bookings (after_attempts cfg db l))
  /\ forall a r,
       attempt cfg (after_attempts cfg db l) a = Some r ->
       (returned r).1 = true ->
       returned r = (true, MSG_CONFIRMED)
       /\ exists row,
            inserted_rows (trace r) = [row]
            /\ bookings (db_after r)
               = (bookings (after_attempts cfg db l) ++ [row])%list
            /\ b_id row ∉ b_id <$> bookings (after_attempts cfg db l).
Proof.
  intros Hids Hnodup.
  destruct (distinct_ids_steps cfg l db Hids Hnodup) as [Hids' Hnodup'].
  split; [assumption|].
  set (db' := after_attempts cfg db l) in *. clearbody db'.
  intros a r Hrun Hok. unfold attempt in Hrun.
  destruct (create_booking_path cfg db' (a_session_id a) (a_full_name a)
              (a_phone a) (a_email a)) as [ | | | s _ Hs Hfree];
    try discriminate; injection Hrun as <-; simpl in Hok; try discriminate.
  split; [reflexivity|]. eexists. simpl. repeat split.
  now apply new_row_id_fresh.
Qed.

Lemma fixed_confirmation_fresh_identifier_witness :
  NoDup (b_id <$> bookings
           (after_attempts Scenario.cfg Scenario.db_D [Scenario.ana; Scenario.luis]))
  /\ (b_id <$> bookings
        (after_attempts Scenario.cfg Scenario.db_D [Scenario.ana; Scenario.luis]))
     = [1; 2].
Proof.
  split.
  - apply (fixed_confirmation_fresh_identifier Scenario.cfg Scenario.db_D
             [Scenario.ana; Scenario.luis]).
    + constructor.
    + constructor.
  - vm_compute. reflexivity.
Defined.

(** C6, as the specification words it, fails: the call for a session that
    does not exist returns its error without any rollback. *)
Lemma not_found_path_has_no_rollback : ~ every_abort_rolls_back.
Proof.
  intros Hall.
  pose proof (Hall Scenario.cfg Scenario.db_A 9999 "Ana Ruiz" "+34 600 123 456"
                "ana@example.org" _ eq_refl eq_refl) as Hin.
  simpl in Hin.
  apply list_elem_of_In in Hin. simpl in Hin.
  destruct Hin as [H | [H | []]]; discriminate H.
Qed.

Lemma app_singleton_neq {A} (l : list A) (x : A) : (l ++ [x])%list <> l.
Proof.
  intros H. apply (f_equal length) in H. rewrite length_app in H. simpl in H. lia.
Qed.

(** C6, amended: the session-full path calls the rollback before it
    returns its error; the session-not-found path returns its error straight
    after the lookup, with nothing written and no rollback call; and a call
    never hides a failure: whenever it has booked nothing it returns one of
    the two errors. *)
Theorem abort_paths cfg db sid full_name phone email r :
  create_booking_atomic cfg db sid full_name phone email = Some r ->
  (returned r = SessionFull ->
     trace r = [SelectForUpdate sid true;
                SelectCount sid (booked_count db sid);
                Rollback; ExitCommit])
  /\ (returned r = SessionNotFound ->
        trace r = [SelectForUpdate sid false; ExitCommit])
  /\ (bookings (db_after r) = bookings db ->
        returned r = SessionFull \/ returned r = SessionNotFound).
Proof.
  intros Hrun.
  destruct (create_booking_path cfg db sid full_name phone email)
    as [ | | | s _ Hs Hfree]; try discriminate; injection Hrun as <-; simpl.
  - split; [|auto].
    intros Heq. exfalso. exact (messages_differ (f_equal snd Heq)).
  - split; [reflexivity|]. split; [|auto].
    intros Heq. exfalso. exact (messages_differ (eq_sym (f_equal snd Heq))).
  - split; [intros Heq; discriminate Heq|].
    split; [intros Heq; discriminate Heq|].
    intros Heq. now apply app_singleton_neq in Heq.
Qed.

Lemma abort_paths_witness :
  exists r,
    attempt Scenario.cfg Scenario.db_B Scenario.luis = Some r
    /\ (returned r = SessionFull ->
          trace r = [SelectForUpdate 1 true;
                     SelectCount 1 (booked_count Scenario.db_B 1);
                     Rollback; ExitCommit])
    /\ (returned r = SessionNotFound ->
          trace r = [SelectForUpdate 1 false; ExitCommit])
    /\ (bookings (db_after r) = bookings Scenario.db_B ->
          returned r = SessionFull \/ returned r = SessionNotFound).
Proof.
  eexists. split; [reflexivity|].
  apply (abort_paths Scenario.cfg Scenario.db_B 1
           "Luis Gil" "600 654 321" "luis@example.org").
  reflexivity.
Defined.

(** ** Properties of the listing *)

Lemma filter_not_null (l : list Booking) :
  filter (fun j : option Booking => is_Some (b_id <$> j)) (Some <$> l) = Some <$> l.
Proof.
  induction l as [|b l IH]; [reflexivity|].
  rewrite fmap_cons, filter_cons. simpl.
  destruct (decide (is_Some (Some (b_id b)))) as [_|Hn].
  - now rewrite IH.
  - exfalso. apply Hn. now exists (b_id b).
Qed.

(** Counting [b.id] over the left join counts the bookings of the session:
    the row of nulls that pads a session without bookings is not counted. *)
Lemma count_b_id_left_join sid rows :
  count_b_id (left_join_bookings sid rows) = count_bookings sid rows.
Proof.
  unfold count_b_id, left_join_bookings, count_bookings.
  destruct (filter (fun b => b_session_id b = sid) rows) as [|b m] eqn:Hm.
  - rewrite filter_cons, filter_nil. simpl.
    destruct (decide (is_Some (b_id <$> @None Booking))) as [[x Hx]|_];
      [discriminate Hx|reflexivity].
  - now rewrite filter_not_null, length_fmap.
Qed.

Section ListingProperties.

Variable text_le : string -> string -> bool.

Lemma elem_of_insert_row r x l :
  x ∈ insert_row text_le r l <-> x = r \/ x ∈ l.
Proof.
  induction l as [|y l IH]; simpl.
  - rewrite list_elem_of_singleton, elem_of_nil. tauto.
  - destruct (row_le text_le r y).
    + now rewrite elem_of_cons.
    + rewrite !elem_of_cons, IH. tauto.
Qed.

Lemma elem_of_order_rows x l : x ∈ order_rows text_le l <-> x ∈ l.
Proof.
  induction l as [|y l IH]; simpl; [reflexivity|].
  now rewrite elem_of_insert_row, elem_of_cons, IH.
Qed.

Lemma fetch_sessions_run cfg db event_date :
  get_db_url cfg <> "" ->
  fetch_sessions text_le cfg db event_date =
  Some {| returned :=
            with_remaining <$>
              order_rows text_le
                (group_row (bookings db) <$>
                   filter (fun entry => s_event_date entry.2 = event_date)
                          (map_to_list (sessions db)));
          db_after := db;
          trace := [SelectSessions event_date; ExitCommit] |}.
Proof.
  intros Hurl. unfold fetch_sessions, with_connection.
  rewrite (connect_with_url _ _ Hurl). simpl.
  unfold visible_bookings. simpl.
  now rewrite !app_nil_r, DB_eta.
Qed.

Lemma fetch_sessions_stopped cfg db event_date :
  get_db_url cfg = "" -> fetch_sessions text_le cfg db event_date = None.
Proof.
  intros Hurl. unfold fetch_sessions, with_connection.
  now rewrite (connect_without_url _ _ Hurl).
Qed.

Lemma fetch_sessions_rows cfg db event_date res row :
  fetch_sessions text_le cfg db event_date = Some res ->
  row ∈ returned res <->
  exists s,
    sessions db !! r_id row = Some s
    /\ s_event_date s = event_date
    /\ row = with_remaining (group_row (bookings db) (r_id row, s)).
Proof.
  intros Hrun.
  destruct (decide (get_db_url cfg = "")) as [Hurl|Hurl].
  { rewrite (fetch_sessions_stopped _ _ _ Hurl) in Hrun. discriminate. }
  rewrite (fetch_sessions_run _ _ _ Hurl) in Hrun. injection Hrun as <-. simpl.
  rewrite list_elem_of_fmap. split.
  - intros (q & -> & Hq).
    apply elem_of_order_rows, list_elem_of_fmap in Hq as ([sid s] & -> & Hentry).
    apply list_elem_of_filter in Hentry as [Hdate Hentry].
    apply elem_of_map_to_list in Hentry. simpl in *. eauto.
  - intros (s & Hs & Hdate & ->).
    eexists. split; [reflexivity|].
    apply elem_of_order_rows, list_elem_of_fmap.
    exists (r_id row, s). split; [reflexivity|].
    apply list_elem_of_filter. split; [assumption|].
    now apply elem_of_map_to_list.
Qed.

End ListingProperties.

Lemma after_attempts_appends cfg l : forall db,
  exists extra,
    bookings (after_attempts cfg db l) = (bookings db ++ extra)%list
    /\ (extra = [] -> after_attempts cfg db l = db).
Proof.
  induction l as [|a l IH]; intros db; simpl.
  - exists []. split; [now rewrite app_nil_r|reflexivity].
  - destruct (after_attempt_cases cfg db a) as [-> | (s & _ & _ & ->)].
    + apply IH.
    + destruct (IH (with_row db (new_row db (a_session_id a) (a_full_name a)
                                   (a_phone a) (a_email a)))) as (extra & Hb & _).
      eexists (_ :: extra). split; [|discriminate].
      rewrite Hb. simpl. now rewrite <- app_assoc.
Qed.

Lemma after_attempts_no_insert cfg db l :
  bookings (after_attempts cfg db l) = bookings db ->
  after_attempts cfg db l = db.
Proof.
  intros Hsame.
  destruct (after_attempts_appends cfg l db) as (extra & Hb & Hnil).
  apply Hnil. rewrite Hb in Hsame.
  rewrite <- (app_nil_r (bookings db)) in Hsame at 2.
  now apply app_inv_head in Hsame.
Qed.

(** C7: the remaining value is the capacity minus the number of booking
    rows of the session, in both places that compute it.  Each row of the
    listing belongs to a session of the store and carries that session's
    capacity, its number of bookings and their difference, and every
    session of the requested date is listed; [create_booking_atomic] counts
    the bookings of the session and succeeds exactly when the capacity minus
    that count is positive, reporting a full session otherwise. *)
Theorem remaining_is_capacity_minus_booked text_le cfg db :
  (forall event_date res row,
     fetch_sessions text_le cfg db event_date = Some res ->
     row ∈ returned res ->
     exists s,
       sessions db !! r_id row = Some s
       /\ r_capacity row = s_capacity s
       /\ r_booked row = booked_count db (r_id row)
       /\ r_remaining row = s_capacity s - booked_count db (r_id row))
  /\ (forall event_date res sid s,
        fetch_sessions text_le cfg db event_date = Some res ->
        sessions db !! sid = Some s ->
        s_event_date s = event_date ->
        exists row, row ∈ returned res /\ r_id row = sid)
  /\ (forall sid full_name phone email res s,
        create_booking_atomic cfg db sid full_name phone email = Some res ->
        sessions db !! sid = Some s ->
        SelectCount sid (booked_count db sid) ∈ trace res
        /\ ((returned res).1 = true <-> 0 < s_capacity s - booked_count db sid)
        /\ (returned res = SessionFull
            <-> s_capacity s - booked_count db sid <= 0)).
Proof.
  split; [|split].
  - intros event_date res row Hres Hrow.
    apply (fetch_sessions_rows text_le cfg db event_date res row Hres) in Hrow
      as (s & Hs & _ & Hrow).
    exists s. split; [assumption|].
    rewrite (f_equal r_capacity Hrow), (f_equal r_booked Hrow),
      (f_equal r_remaining Hrow). simpl.
    rewrite count_b_id_left_join. auto.
  - intros event_date res sid s Hres Hs Hdate.
    exists (with_remaining (group_row (bookings db) (sid, s))).
    split; [|reflexivity].
    apply (fetch_sessions_rows text_le cfg db event_date res _ Hres).
    exists s. simpl. auto.
  - intros sid full_name phone email res s Hres Hs.
    destruct (create_booking_path cfg db sid full_name phone email)
      as [ | | s' _ Hs' Hfull | s' _ Hs' Hfree];
      try discriminate; injection Hres as <-; simpl; try congruence;
      rewrite Hs in Hs'; injection Hs' as <-.
    + split; [set_solver|]. split; [split; [discriminate|lia]|].
      split; [intros _; assumption|reflexivity].
    + split; [set_solver|]. split; [split; [intros _; assumption|reflexivity]|].
      split; [discriminate|lia].
Qed.

Lemma remaining_is_capacity_minus_booked_witness :
  exists res,
    fetch_sessions String.leb Scenario.cfg Scenario.db_B 20240601 = Some res
    /\ forall row, row ∈ returned res ->
         r_id row = 1 /\ r_capacity row = 1 /\ r_booked row = 1
         /\ r_remaining row = 0.
Proof.
  eexists. split; [reflexivity|].
  intros row Hrow.
  destruct (proj1 (remaining_is_capacity_minus_booked
                     String.leb Scenario.cfg Scenario.db_B)
              20240601 _ row eq_refl Hrow) as (s & Hs & Hcap & Hbooked & Hrem).
  apply list_elem_of_singleton in Hrow. subst row. simpl. auto.
Defined.

(** C8: reading the listing leaves the store as it was, and reading it
    again gives the same rows, with the same remaining values, also when
    booking attempts that inserted nothing came in between. *)
Theorem remaining_read_is_idempotent text_le cfg db event_date res
    (l : list Attempt) :
  fetch_sessions text_le cfg db event_date = Some res ->
  db_after res = db
  /\ fetch_sessions text_le cfg (db_after res) event_date = Some res
  /\ (bookings (after_attempts cfg db l) = bookings db ->
        fetch_sessions text_le cfg (after_attempts cfg db l) event_date
        = Some res).
Proof.
  intros Hres.
  assert (Hdb : db_after res = db).
  { destruct (decide (get_db_url cfg = "")) as [Hurl|Hurl].
    - rewrite (fetch_sessions_stopped _ _ _ _ Hurl) in Hres. discriminate.
    - rewrite (fetch_sessions_run _ _ _ _ Hurl) in Hres. now injection Hres as <-. }
  split; [assumption|]. rewrite Hdb. split; [assumption|].
  intros Hsame. now rewrite (after_attempts_no_insert _ _ _ Hsame).
Qed.

Lemma remaining_read_is_idempotent_witness :
  exists res,
    fetch_sessions String.leb Scenario.cfg Scenario.db_B 20240601 = Some res
    /\ db_after res = Scenario.db_B
    /\ fetch_sessions String.leb Scenario.cfg (db_after res) 20240601 = Some res
    /\ (bookings (after_attempts Scenario.cfg Scenario.db_B [Scenario.luis])
        = bookings Scenario.db_B ->
        fetch_sessions String.leb Scenario.cfg
          (after_attempts Scenario.cfg Scenario.db_B [Scenario.luis]) 20240601
        = Some res).
Proof.
  eexists. split; [reflexivity|].
  apply (remaining_read_is_idempotent String.leb Scenario.cfg Scenario.db_B
           20240601 _ [Scenario.luis]).
  reflexivity.
Defined.

(** ** Properties of the admin panel *)

(** C9: the admin panel grants access exactly when the password entered
    is not empty and equals the configured one; with an empty entry it shows
    nothing at all, neither access nor an error, whatever the configured
    password is, the empty one of an unset configuration included. *)
Theorem admin_access cfg admin_pw :
  ((exists msg, admin_panel cfg admin_pw = Success msg)
   <-> admin_pw <> "" /\ admin_pw = get_admin_password cfg)
  /\ admin_panel cfg "" = Nothing
  /\ ((exists msg, admin_panel cfg admin_pw = Error msg)
      <-> admin_pw <> "" /\ admin_pw <> get_admin_password cfg).
Proof.
  unfold admin_panel.
  destruct (String.eqb_spec admin_pw (get_admin_password cfg)) as [Heq|Hne];
    destruct admin_pw as [|c pw]; simpl.
  - split; [|split; [reflexivity|]]; split;
      try (intros [msg Hmsg]; discriminate Hmsg);
      intros [Hne _]; now contradiction Hne.
  - split; [|split; [reflexivity|]]; split.
    + intros _. split; [discriminate|assumption].
    + intros _. now eexists.
    + intros [msg Hmsg]. discriminate Hmsg.
    + intros [_ Hne]. now contradiction Hne.
  - split; [|split; [reflexivity|]]; split;
      try (intros [msg Hmsg]; discriminate Hmsg);
      intros [Hne' _]; now contradiction Hne'.
  - split; [|split; [reflexivity|]]; split.
    + intros [msg Hmsg]. discriminate Hmsg.
    + intros [_ Heq]. now contradiction Hne.
    + intros _. split; [discriminate|assumption].
    + intros _. now eexists.
Qed.

Example admin_unset_configuration :
  get_admin_password Page.unset_cfg = ""
  /\ admin_panel Page.unset_cfg "" = Nothing
  /\ admin_panel Page.admin_cfg "s3cret" = Success MSG_GRANTED
  /\ admin_panel Page.admin_cfg "S3cret" = Error MSG_WRONG_PASSWORD.
Proof. repeat split. Qed.

(** ** Properties of the character tables *)

Lemma in_run_points c r :
  Unicode.in_run c r = true -> c ∈ Unicode.points r.
Proof.
  destruct r as [[first last] step]. unfold Unicode.in_run, Unicode.points.
  intros Hrun.
  apply andb_prop in Hrun as [Hrun Hstep].
  apply andb_prop in Hrun as [Hfirst Hlast].
  apply N.leb_le in Hfirst, Hlast. apply N.eqb_eq in Hstep.
  apply list_elem_of_fmap.
  exists (N.to_nat ((c - first) / step)). split.
  - rewrite N2Nat.id.
    pose proof (N.div_mod' (c - first) step) as Hdiv.
    rewrite Hstep in Hdiv. lia.
  - apply elem_of_seq.
    assert ((c - first) / step <= (last - first) / step)%N as Hle
      by (apply N.Div0.div_le_mono; lia).
    revert Hle.
    generalize ((c - first) / step)%N, ((last - first) / step)%N.
    intros a b Hle.
    lia.
Qed.

Lemma member_points table c :
  Unicode.member table c = true ->
  exists r, r ∈ table /\ c ∈ Unicode.points r.
Proof.
  unfold Unicode.member. intros Hin.
  apply existsb_exists in Hin as (r & Hrun & Hc).
  exists r. split; [now apply list_elem_of_In|now apply in_run_points].
Qed.

(** A property of the code points checked on every member of a table. *)
Lemma member_check (chk : N -> bool) table :
  forallb (fun r => forallb chk (Unicode.points r)) table = true ->
  forall c, Unicode.member table c = true -> chk c = true.
Proof.
  intros Hall c Hc.
  apply member_points in Hc as (r & Hrun & Hc).
  rewrite forallb_forall in Hall.
  apply list_elem_of_In in Hrun. specialize (Hall r Hrun).
  rewrite forallb_forall in Hall.
  apply Hall. now apply list_elem_of_In.
Qed.

(** A property of the code points that holds of those that are their own
    lower-case form holds of all once it is checked on the others. *)
Lemma lower_char_check (chk : N -> bool) (P : N -> Prop) :
  (forall c, chk c = true -> P c) ->
  (forall c, PyStr.lower_char c = [c] -> P c) ->
  chk 0x130%N = true ->
  forallb (fun entry => forallb chk (Unicode.points entry.1))
          Unicode.Lowercase_Mapping = true ->
  forall c, P c.
Proof.
  intros Hchk Hself Hdot Hall c.
  destruct (N.eqb_spec c 0x130%N) as [->|Hne]; [now apply Hchk|].
  destruct (find (fun entry => Unicode.in_run c entry.1)
                 Unicode.Lowercase_Mapping) as [entry|] eqn:Hfind.
  - apply find_some in Hfind as [Hentry Hrun].
    rewrite forallb_forall in Hall. specialize (Hall entry Hentry).
    rewrite forallb_forall in Hall.
    apply Hchk, Hall, list_elem_of_In. now apply in_run_points.
  - apply Hself. unfold PyStr.lower_char.
    destruct (N.eqb_spec c 0x130%N) as [|_]; [contradiction|].
    now rewrite Hfind.
Qed.

Lemma lower_char_nonempty c : PyStr.lower_char c <> [].
Proof.
  unfold PyStr.lower_char. destruct (c =? 0x130)%N; [discriminate|].
  destruct (find _ _) as [[[[first last] step] image]|]; discriminate.
Qed.

(** Lowering a code point gives white space only from white space. *)
Lemma lower_char_space c x :
  x ∈ PyStr.lower_char c -> PyStr.isspace x = PyStr.isspace c.
Proof.
  revert c x.
  apply (lower_char_check
           (fun c => forallb (fun x => Bool.eqb (PyStr.isspace x) (PyStr.isspace c))
                             (PyStr.lower_char c))
           (fun c => forall x, x ∈ PyStr.lower_char c ->
                               PyStr.isspace x = PyStr.isspace c)).
  - intros c Hchk x Hx. rewrite forallb_forall in Hchk.
    apply Bool.eqb_prop, Hchk. now apply list_elem_of_In.
  - intros c -> x Hx. apply list_elem_of_singleton in Hx. now subst.
  - vm_compute. reflexivity.
  - vm_compute. reflexivity.
Qed.


Lemma own_lower_true x :
  PyStr.own_lower x = true <-> PyStr.lower_char x = [x].
Proof.
  unfold PyStr.own_lower.
  destruct (PyStr.lower_char x) as [|y [|z l]]; split; try discriminate.
  - intros Hy. apply N.eqb_eq in Hy. now subst.
  - intros [= ->]. apply N.eqb_refl.
Qed.

(** The lower-case form of a code point is made of code points that are
    their own lower-case form, none of them the capital sigma. *)
Lemma lower_char_fixed c x :
  x ∈ PyStr.lower_char c ->
  PyStr.lower_char x = [x] /\ x <> 0x3A3%N.
Proof.
  revert c x.
  apply (lower_char_check
           (fun c => forallb (fun x => PyStr.own_lower x && negb (x =? 0x3A3)%N)
                             (PyStr.lower_char c))
           (fun c => forall x, x ∈ PyStr.lower_char c ->
                               PyStr.lower_char x = [x] /\ x <> 0x3A3%N)).
  - intros c Hchk x Hx. rewrite forallb_forall in Hchk.
    apply list_elem_of_In, Hchk, andb_prop in Hx as [Hown Hsigma].
    split; [now apply own_lower_true|].
    apply negb_true_iff, N.eqb_neq in Hsigma. exact Hsigma.
  - intros c Hc x Hx. rewrite Hc in Hx.
    apply list_elem_of_singleton in Hx. subst x.
    split; [exact Hc|]. intros ->. vm_compute in Hc. discriminate Hc.
  - vm_compute. reflexivity.
  - vm_compute. reflexivity.
Qed.

(** Lowering neither makes nor removes a code point below 128 that is its
    own lower-case form and no image of another. *)
Lemma lower_char_keeps (n : N) c x :
  forallb (fun x => Bool.eqb (x =? n)%N (0x130 =? n)%N)
          (PyStr.lower_char 0x130) = true ->
  forallb (fun entry =>
             forallb (fun c => forallb (fun x => Bool.eqb (x =? n)%N (c =? n)%N)
                                       (PyStr.lower_char c))
                     (Unicode.points entry.1))
          Unicode.Lowercase_Mapping = true ->
  x ∈ PyStr.lower_char c -> (x = n <-> c = n).
Proof.
  intros Hdot Hall. revert c x.
  apply (lower_char_check
           (fun c => forallb (fun x => Bool.eqb (x =? n)%N (c =? n)%N)
                             (PyStr.lower_char c))
           (fun c => forall x, x ∈ PyStr.lower_char c -> (x = n <-> c = n))).
  - intros c Hchk x Hx. rewrite forallb_forall in Hchk.
    apply list_elem_of_In, Hchk, Bool.eqb_prop in Hx.
    rewrite <- !N.eqb_eq. now rewrite Hx.
  - intros c -> x Hx. apply list_elem_of_singleton in Hx. now subst.
  - exact Hdot.
  - exact Hall.
Qed.

Lemma lower_char_at_sign c x :
  x ∈ PyStr.lower_char c -> (x = PyStr.code "@" <-> c = PyStr.code "@").
Proof. apply lower_char_keeps; vm_compute; reflexivity. Qed.

Lemma lower_char_dot c x :
  x ∈ PyStr.lower_char c -> (x = PyStr.code "." <-> c = PyStr.code ".").
Proof. apply lower_char_keeps; vm_compute; reflexivity. Qed.

(** An upper-case letter that is its own lower-case form is U+03D2 or
    comes after it. *)
Lemma isupper_own_lower c :
  PyStr.isupper c = true -> PyStr.lower_char c = [c] -> (0x3D2 <= c)%N.
Proof.
  intros Hupper Hown. apply own_lower_true in Hown.
  pose proof (member_check
                (fun c => (0x3D2 <=? c)%N || negb (PyStr.own_lower c))
                Unicode.Uppercase) as Hcheck.
  assert (Hc : (0x3D2 <=? c)%N || negb (PyStr.own_lower c) = true).
  { apply Hcheck; [vm_compute; reflexivity|exact Hupper]. }
  rewrite Hown in Hc. simpl in Hc. rewrite orb_false_r in Hc.
  now apply N.leb_le.
Qed.

(** ** Properties of [str.lower] and [str.strip] *)

Lemma lower_at_cases before c after :
  (c = 0x3A3%N
   /\ (PyStr.lower_at before c after = [0x3C2%N]
       \/ PyStr.lower_at before c after = [0x3C3%N]))
  \/ (c <> 0x3A3%N /\ PyStr.lower_at before c after = PyStr.lower_char c).
Proof.
  unfold PyStr.lower_at. destruct (N.eqb_spec c 0x3A3%N) as [->|Hne].
  - left. split; [reflexivity|].
    destruct (PyStr.final_sigma before after); auto.
  - right. auto.
Qed.

Lemma lower_at_nonempty before c after : PyStr.lower_at before c after <> [].
Proof.
  destruct (lower_at_cases before c after) as [(_ & [-> | ->]) | (_ & ->)];
    try discriminate.
  apply lower_char_nonempty.
Qed.

Lemma lower_at_space before c after x :
  x ∈ PyStr.lower_at before c after -> PyStr.isspace x = PyStr.isspace c.
Proof.
  destruct (lower_at_cases before c after) as [(-> & [-> | ->]) | (_ & ->)].
  - intros Hx. apply list_elem_of_singleton in Hx. now subst.
  - intros Hx. apply list_elem_of_singleton in Hx. now subst.
  - apply lower_char_space.
Qed.

Lemma lower_at_fixed before c after x :
  x ∈ PyStr.lower_at before c after ->
  PyStr.lower_char x = [x] /\ x <> 0x3A3%N.
Proof.
  destruct (lower_at_cases before c after) as [(-> & [-> | ->]) | (_ & ->)].
  - intros Hx. apply list_elem_of_singleton in Hx. subst.
    split; [reflexivity|discriminate].
  - intros Hx. apply list_elem_of_singleton in Hx. subst.
    split; [reflexivity|discriminate].
  - apply lower_char_fixed.
Qed.

Lemma lower_from_fixed s : forall before,
  Forall (fun x => PyStr.lower_char x = [x] /\ x <> 0x3A3%N)
         (PyStr.lower_from before s).
Proof.
  induction s as [|c s IH]; intros before; simpl; [constructor|].
  apply Forall_app. split; [|apply IH].
  apply Forall_forall. intros x Hx. now apply lower_at_fixed in Hx.
Qed.

Lemma lower_from_self s : forall before,
  Forall (fun x => PyStr.lower_char x = [x] /\ x <> 0x3A3%N) s ->
  PyStr.lower_from before s = s.
Proof.
  induction s as [|c s IH]; intros before Hs; [reflexivity|].
  apply Forall_cons in Hs as [[Hc Hsigma] Hs]. simpl.
  rewrite (IH _ Hs). unfold PyStr.lower_at.
  destruct (N.eqb_spec c 0x3A3%N) as [|_]; [contradiction|].
  now rewrite Hc.
Qed.

Lemma lower_idem s : PyStr.lower (PyStr.lower s) = PyStr.lower s.
Proof. apply lower_from_self, lower_from_fixed. Qed.

Lemma lower_from_nil before s : PyStr.lower_from before s = [] -> s = [].
Proof.
  destruct s as [|c s]; [reflexivity|]. simpl. intros Hnil.
  apply app_eq_nil in Hnil as [Hnil _].
  now apply lower_at_nonempty in Hnil.
Qed.

Lemma first_char_app (l k : PyStr.str) :
  l <> [] -> PyStr.first_char (l ++ k)%list = PyStr.first_char l.
Proof. now destruct l. Qed.

Lemma last_char_app (l k : PyStr.str) :
  k <> [] -> PyStr.last_char (l ++ k)%list = PyStr.last_char k.
Proof.
  intros Hk. induction l as [|c l IH]; [reflexivity|].
  simpl. rewrite IH.
  destruct (l ++ k)%list eqn:Hlk; [|reflexivity].
  apply app_eq_nil in Hlk as [_ ?]. contradiction.
Qed.

Lemma first_char_elem (l : PyStr.str) c : PyStr.first_char l = Some c -> c ∈ l.
Proof. destruct l; [discriminate|]. intros [= ->]. left. Qed.

Lemma last_char_elem (l : PyStr.str) c : PyStr.last_char l = Some c -> c ∈ l.
Proof.
  induction l as [|d l IH]; [discriminate|].
  destruct l as [|e l]; [intros [= ->]; left|].
  intros Hlast. right. now apply IH.
Qed.

Lemma first_char_some (l : PyStr.str) : l <> [] -> is_Some (PyStr.first_char l).
Proof. destruct l; [contradiction|]. now eexists. Qed.

Lemma last_char_some (l : PyStr.str) : l <> [] -> is_Some (PyStr.last_char l).
Proof.
  induction l as [|d l IH]; [contradiction|]. intros _.
  destruct l as [|e l]; [now eexists|]. apply IH. discriminate.
Qed.

Lemma first_char_lower_from s before :
  match PyStr.first_char (PyStr.lower_from before s), PyStr.first_char s with
  | Some x, Some c => PyStr.isspace x = PyStr.isspace c
  | None, None => True
  | _, _ => False
  end.
Proof.
  destruct s as [|c s]; [exact I|]. simpl.
  rewrite first_char_app by apply lower_at_nonempty.
  destruct (first_char_some _ (lower_at_nonempty before c s)) as [x Hx].
  rewrite Hx. apply first_char_elem in Hx. now apply lower_at_space in Hx.
Qed.

Lemma last_char_lower_from s : forall before,
  match PyStr.last_char (PyStr.lower_from before s), PyStr.last_char s with
  | Some x, Some c => PyStr.isspace x = PyStr.isspace c
  | None, None => True
  | _, _ => False
  end.
Proof.
  induction s as [|c s IH]; intros before; [exact I|].
  destruct s as [|d s].
  - simpl. rewrite app_nil_r.
    destruct (last_char_some _ (lower_at_nonempty before c [])) as [x Hx].
    rewrite Hx. apply last_char_elem in Hx. now apply lower_at_space in Hx.
  - change (PyStr.lower_from before (c :: d :: s))
      with (PyStr.lower_at before c (d :: s)
            ++ PyStr.lower_from (c :: before) (d :: s))%list.
    rewrite last_char_app.
    + exact (IH (c :: before)).
    + intros Hnil. now apply lower_from_nil in Hnil.
Qed.

Lemma trimmed_lower s : trimmed (PyStr.lower s) = trimmed s.
Proof.
  unfold trimmed, PyStr.lower.
  pose proof (first_char_lower_from s []) as Hfirst.
  pose proof (last_char_lower_from s []) as Hlast.
  destruct (PyStr.first_char (PyStr.lower_from [] s)),
    (PyStr.first_char s); try contradiction;
    destruct (PyStr.last_char (PyStr.lower_from [] s)),
      (PyStr.last_char s); try contradiction;
    now rewrite ?Hfirst, ?Hlast.
Qed.

Lemma lstrip_first s c :
  PyStr.first_char (PyStr.lstrip s) = Some c -> PyStr.isspace c = false.
Proof.
  induction s as [|d s IH]; simpl; [discriminate|].
  destruct (PyStr.isspace d) eqn:Hd; [exact IH|].
  simpl. intros Heq. injection Heq as <-. exact Hd.
Qed.

Lemma rstrip_first s c :
  PyStr.first_char (PyStr.rstrip s) = Some c -> PyStr.first_char s = Some c.
Proof.
  destruct s as [|d s]; simpl; [discriminate|].
  destruct (PyStr.rstrip s); [destruct (PyStr.isspace d)|]; simpl; congruence.
Qed.

Lemma rstrip_last s c :
  PyStr.last_char (PyStr.rstrip s) = Some c -> PyStr.isspace c = false.
Proof.
  induction s as [|d s IH]; simpl; [discriminate|].
  destruct (PyStr.rstrip s) as [|d' t].
  - destruct (PyStr.isspace d) eqn:Hd; simpl; [discriminate|].
    intros Heq. injection Heq as <-. exact Hd.
  - exact IH.
Qed.

Lemma trimmed_strip s : trimmed (PyStr.strip s) = true.
Proof.
  unfold trimmed, PyStr.strip.
  destruct (PyStr.first_char (PyStr.rstrip (PyStr.lstrip s))) as [c|] eqn:Hfirst;
    destruct (PyStr.last_char (PyStr.rstrip (PyStr.lstrip s))) as [d|] eqn:Hlast;
    try apply rstrip_first, lstrip_first in Hfirst;
    try apply rstrip_last in Hlast;
    now rewrite ?Hfirst, ?Hlast.
Qed.

(** ** Properties of the booking form *)

Lemma lowercased_lower s : lowercased (PyStr.lower s).
Proof. apply lower_idem. Qed.

(** In a string that [str.lower] leaves as it is, every code point is its
    own lower-case form, and an upper-case letter among them is one that
    has no other: U+03D2 or a later one. *)
Lemma lowercased_chars s c :
  lowercased s -> c ∈ s ->
  PyStr.lower_char c = [c]
  /\ (PyStr.isupper c = true -> (0x3D2 <= c)%N).
Proof.
  intros Hs Hc.
  pose proof (lower_from_fixed s []) as Hfixed.
  change (PyStr.lower_from [] s) with (PyStr.lower s) in Hfixed.
  rewrite Hs in Hfixed. rewrite Forall_forall in Hfixed.
  destruct (Hfixed c Hc) as [Hown _]. split; [exact Hown|].
  intros Hupper. now apply isupper_own_lower.
Qed.

Lemma booking_request_call sel form sid n p e :
  booking_request sel form = Call sid n p e ->
  sid = r_id sel
  /\ n = PyStr.strip (f_full_name form)
  /\ p = PyStr.strip (f_phone form)
  /\ e = PyStr.lower (PyStr.strip (f_email form)).
Proof.
  unfold booking_request.
  repeat match goal with
         | |- (if ?b then _ else _) = _ -> _ => destruct b; [discriminate|]
         end.
  intros Heq. now injection Heq as <- <- <- <-.
Qed.

Lemma normalized_new_row db sel form sid n p e :
  booking_request sel form = Call sid n p e ->
  normalized (new_row db sid n p e).
Proof.
  intros Hcall. apply booking_request_call in Hcall as (-> & -> & -> & ->).
  unfold normalized. simpl.
  rewrite trimmed_lower, !trimmed_strip.
  repeat split. apply lowercased_lower.
Qed.

Lemma on_submit_cases cfg db sel form :
  (on_submit cfg db sel form).2 = db
  \/ exists sid n p e,
       booking_request sel form = Call sid n p e
       /\ (on_submit cfg db sel form).2 = with_row db (new_row db sid n p e).
Proof.
  unfold on_submit.
  destruct (booking_request sel form) as [msg|sid n p e]; [now left|].
  destruct (create_booking_path cfg db sid n p e); simpl; auto.
  right. now exists sid, n, p, e.
Qed.

Lemma normalized_after_submit cfg db sel form :
  Forall normalized (bookings db) ->
  Forall normalized (bookings (on_submit cfg db sel form).2).
Proof.
  intros Hall.
  destruct (on_submit_cases cfg db sel form)
    as [-> | (sid & n & p & e & Hcall & ->)]; [assumption|].
  simpl. apply Forall_app. split; [assumption|].
  constructor; [|constructor].
  now apply (normalized_new_row db sel form).
Qed.

Lemma normalized_after_submits cfg l : forall db,
  Forall normalized (bookings db) ->
  Forall normalized (bookings (after_submits cfg db l)).
Proof.
  induction l as [|[sel form] l IH]; intros db Hall; simpl; [assumption|].
  apply IH. now apply normalized_after_submit.
Qed.

(** C10, as the specification words it, fails: a submission whose email
    starts with U+03D2, an upper-case letter that [str.lower] leaves as it
    is, passes the checks of the form and is stored with that letter. *)
Lemma uppercase_email_is_stored : ~ stored_emails_have_no_uppercase.
Proof.
  intros Hall.
  pose proof (Hall Scenario.cfg Scenario.db_A Page.selected Page.upsilon_form
                (Forall_nil_2 _)) as Hstored.
  assert (Hrows :
    bookings (on_submit Scenario.cfg Scenario.db_A Page.selected
                Page.upsilon_form).2
    = [ {| b_id := 1; b_session_id := 1; b_full_name := "Ana Ruiz";
           b_phone := "+34 600 123 456";
           b_email := Page.upsilon_email |} ])
    by (vm_compute; reflexivity).
  rewrite Hrows in Hstored.
  apply Forall_cons in Hstored as [Hupper _].
  vm_compute in Hupper. discriminate Hupper.
Qed.

(** C10, amended: the submit handler passes to [create_booking_atomic] the
    name and the phone stripped of surrounding white space and the email
    stripped and lower-cased; so none of the three stored fields starts or
    ends with white space and the stored email is one that [str.lower]
    leaves as it is: each of its code points is its own lower-case form, and
    an upper-case letter can be among them only if it has no lower-case
    form, which none below U+03D2 is.  A table whose bookings are
    normalized in this sense stays so over any series of submissions. *)
Theorem submitted_fields_are_normalized cfg db (l : list (SessionRow * Form)) :
  Forall normalized (bookings db) ->
  Forall normalized (bookings (after_submits cfg db l))
  /\ (forall b c,
        b ∈ bookings (after_submits cfg db l) -> c ∈ b_email b ->
        PyStr.lower_char c = [c]
        /\ (PyStr.isupper c = true -> (0x3D2 <= c)%N))
  /\ forall sel form sid full_name phone email,
       booking_request sel form = Call sid full_name phone email ->
       full_name = PyStr.strip (f_full_name form)
       /\ phone = PyStr.strip (f_phone form)
       /\ email = PyStr.lower (PyStr.strip (f_email form))
       /\ trimmed full_name = true
       /\ trimmed phone = true
       /\ trimmed email = true
       /\ lowercased email
       /\ ((on_submit cfg (after_submits cfg db l) sel form).2
           = after_submits cfg db l
           \/ (on_submit cfg (after_submits cfg db l) sel form).2
              = with_row (after_submits cfg db l)
                  (new_row (after_submits cfg db l) sid full_name phone email)).
Proof.
  intros Hall.
  pose proof (normalized_after_submits cfg l db Hall) as Hafter.
  split; [exact Hafter|]. split.
  - intros b c Hb Hc. rewrite Forall_forall in Hafter.
    destruct (Hafter b Hb) as (_ & _ & _ & Hlower).
    now apply (lowercased_chars (b_email b)).
  - intros sel form sid full_name phone email Hcall.
    pose proof (normalized_new_row db sel form sid full_name phone email Hcall)
      as (Hname & Hphone & Hemail & Hlower). simpl in *.
    pose proof (booking_request_call _ _ _ _ _ _ Hcall) as (_ & Hn & Hp & He).
    repeat (split; [assumption|]).
    destruct (on_submit_cases cfg (after_submits cfg db l) sel form)
      as [Hsame | (sid' & n' & p' & e' & Hcall' & Hrow)]; [now left|].
    right. rewrite Hcall in Hcall'. now injection Hcall' as <- <- <- <-.
Qed.

Lemma submitted_fields_are_normalized_witness :
  Forall normalized
    (bookings (after_submits Scenario.cfg Scenario.db_A
                 [(Page.selected, Page.form)]))
  /\ bookings (after_submits Scenario.cfg Scenario.db_A
                 [(Page.selected, Page.form)])
     = [ {| b_id := 1; b_session_id := 1; b_full_name := "Ana Ruiz";
            b_phone := "+34 600 123 456";
            b_email := "ana.ruiz@example.org" |} ].
Proof.
  split.
  - apply (submitted_fields_are_normalized Scenario.cfg Scenario.db_A
             [(Page.selected, Page.form)]).
    constructor.
  - vm_compute. reflexivity.
Defined.

(** * Properties of the rest of the page *)

(** ** Series of attempts *)

Lemma attempt_on_full cfg db a s :
  get_db_url cfg <> "" ->
  sessions db !! a_session_id a = Some s ->
  free_seats db (a_session_id a) s = 0%nat ->
  returned <$> attempt cfg db a = Some SessionFull
  /\ after_attempt cfg db a = db.
Proof.
  intros Hurl Hs Hfree. unfold after_attempt, attempt, free_seats in *.
  rewrite (create_booking_full cfg db _ _ _ _ s) by (auto; lia). auto.
Qed.

Lemma attempt_on_free cfg db a s n :
  get_db_url cfg <> "" ->
  sessions db !! a_session_id a = Some s ->
  free_seats db (a_session_id a) s = S n ->
  returned <$> attempt cfg db a = Some (true, MSG_CONFIRMED)
  /\ sessions (after_attempt cfg db a) = sessions db
  /\ booked_count (after_attempt cfg db a) (a_session_id a)
     = booked_count db (a_session_id a) + 1
  /\ free_seats (after_attempt cfg db a) (a_session_id a) s = n.
Proof.
  intros Hurl Hs Hfree. unfold after_attempt, attempt, free_seats in *.
  rewrite (create_booking_success cfg db _ _ _ _ s) by (auto; lia). simpl.
  rewrite booked_count_with_row. simpl.
  destruct (decide (a_session_id a = a_session_id a)); [|congruence].
  repeat split; lia.
Qed.

(** X1: of a series of attempts for one session, the first ones succeed
    until its free seats are used up and all the later ones are told that the
    session is full; the session ends with as many more bookings as there
    were successes. *)
Theorem seats_fill_in_order cfg (l : list Attempt) : forall db sid s,
  get_db_url cfg <> "" ->
  sessions db !! sid = Some s ->
  Forall (fun a => a_session_id a = sid) l ->
  results cfg db l
  = (replicate (min (free_seats db sid s) (length l))
       (Some (true, MSG_CONFIRMED))
     ++ replicate (length l - min (free_seats db sid s) (length l))
          (Some SessionFull))%list
  /\ booked_count (after_attempts cfg db l) sid
     = booked_count db sid + Z.of_nat (min (free_seats db sid s) (length l)).
Proof.
  induction l as [|a l IH]; intros db sid s Hurl Hs Hall.
  - simpl. rewrite Nat.min_0_r. simpl. split; [reflexivity|lia].
  - apply Forall_cons in Hall as [<- Hall]. simpl.
    destruct (free_seats db (a_session_id a) s) as [|n] eqn:Hfree.
    + destruct (attempt_on_full cfg db a s Hurl Hs Hfree) as [-> ->].
      destruct (IH db (a_session_id a) s Hurl Hs Hall) as [-> ->].
      rewrite Hfree. simpl. rewrite Nat.sub_0_r. split; [reflexivity|lia].
    + destruct (attempt_on_free cfg db a s n Hurl Hs Hfree)
        as (-> & Hs' & Hcount & Hfree').
      rewrite <- Hs' in Hs.
      destruct (IH (after_attempt cfg db a) (a_session_id a) s Hurl Hs Hall)
        as [-> ->].
      rewrite Hfree', Hcount. simpl. split; [reflexivity|lia].
Qed.

Lemma seats_fill_in_order_witness :
  results Scenario.cfg Scenario.db_D six_calls
  = (replicate 5 (Some (true, MSG_CONFIRMED)) ++ [Some SessionFull])%list
  /\ booked_count (after_attempts Scenario.cfg Scenario.db_D six_calls) 1 = 5.
Proof.
  apply (seats_fill_in_order Scenario.cfg six_calls Scenario.db_D 1
           (Scenario.session 5)).
  - vm_compute. discriminate.
  - reflexivity.
  - repeat constructor.
Defined.

(** X2: a series of attempts never changes the sessions and never removes
    or rewrites a booking: the bookings afterwards are those before followed
    by new rows, and the new rows carry, in order, the data of some of the
    attempts, each at most once. *)
Theorem attempts_only_append cfg (l : list Attempt) : forall db,
  sessions (after_attempts cfg db l) = sessions db
  /\ exists extra,
       bookings (after_attempts cfg db l) = (bookings db ++ extra)%list
       /\ (attempt_of_row <$> extra) `sublist_of` l.
Proof.
  induction l as [|a l IH]; intros db; simpl.
  - split; [reflexivity|]. exists []. split; [now rewrite app_nil_r|constructor].
  - destruct (after_attempt_cases cfg db a) as [-> | (s & _ & _ & ->)].
    + destruct (IH db) as (Hs & extra & Hb & Hsub).
      split; [assumption|]. exists extra. split; [assumption|].
      now apply sublist_cons.
    + destruct (IH (with_row db (new_row db (a_session_id a) (a_full_name a)
                                   (a_phone a) (a_email a))))
        as (Hs & extra & Hb & Hsub).
      split; [assumption|]. eexists (_ :: extra). split.
      * rewrite Hb. simpl. now rewrite <- app_assoc.
      * rewrite fmap_cons.
        replace (attempt_of_row _) with a by now destruct a.
        now apply sublist_skip.
Qed.

(** ** The listing after a booking *)

Lemma count_one_group_row rows row entry :
  group_row (rows ++ [row]) entry
  = count_one (b_session_id row) (group_row rows entry).
Proof.
  unfold group_row, count_one. simpl.
  rewrite !count_b_id_left_join. unfold count_bookings.
  rewrite filter_app, length_app, filter_cons, filter_nil.
  destruct (decide (b_session_id row = entry.1)) as [Heq|Hne].
  - destruct (decide (entry.1 = b_session_id row)); [|congruence].
    f_equal. simpl. lia.
  - destruct (decide (entry.1 = b_session_id row)); [congruence|].
    f_equal. simpl. lia.
Qed.

Lemma book_one_with_remaining sid q :
  with_remaining (count_one sid q) = book_one sid (with_remaining q).
Proof.
  unfold count_one, book_one, with_remaining. simpl.
  destruct (decide (q_id q = sid)); [|reflexivity]. simpl. f_equal. lia.
Qed.

Section ListingAfterBooking.

Variable text_le : string -> string -> bool.

Lemma row_le_count_one sid a b :
  row_le text_le (count_one sid a) (count_one sid b) = row_le text_le a b.
Proof.
  unfold row_le, count_one.
  destruct (decide (q_id a = sid)), (decide (q_id b = sid)); reflexivity.
Qed.

Lemma insert_row_count_one sid q l :
  insert_row text_le (count_one sid q) (count_one sid <$> l)
  = count_one sid <$> insert_row text_le q l.
Proof.
  induction l as [|x l IH]; [reflexivity|].
  rewrite fmap_cons. simpl. rewrite row_le_count_one.
  destruct (row_le text_le q x); [reflexivity|].
  rewrite fmap_cons. f_equal. exact IH.
Qed.

Lemma order_rows_count_one sid l :
  order_rows text_le (count_one sid <$> l)
  = count_one sid <$> order_rows text_le l.
Proof.
  induction l as [|x l IH]; [reflexivity|].
  change (insert_row text_le (count_one sid x)
            (order_rows text_le (count_one sid <$> l))
          = count_one sid <$> insert_row text_le x (order_rows text_le l)).
  now rewrite IH, insert_row_count_one.
Qed.

(** X3: after a successful booking for a session, the listing of any date
    has the rows of the listing from before, with one more booking and one
    seat less in the row of that session and every other row as it was. *)
Theorem listing_after_booking cfg db sid full_name phone email r event_date :
  create_booking_atomic cfg db sid full_name phone email = Some r ->
  (returned r).1 = true ->
  exists before after,
    fetch_sessions text_le cfg db event_date = Some before
    /\ fetch_sessions text_le cfg (db_after r) event_date = Some after
    /\ returned after ≡ₚ book_one sid <$> returned before.
Proof.
  intros Hrun Hok.
  destruct (create_booking_path cfg db sid full_name phone email)
    as [ | | |s Hurl Hs Hfree]; try discriminate; injection Hrun as <-;
    try discriminate Hok.
  rewrite !(fetch_sessions_run text_le) by assumption.
  eexists. eexists. split; [reflexivity|]. split; [reflexivity|]. simpl.
  match goal with
  | |- ?rows ≡ₚ ?booked => enough (Hrows : rows = booked) by now rewrite Hrows
  end.
  rewrite <- list_fmap_compose.
  erewrite (list_fmap_ext (group_row _) (count_one sid ∘ group_row (bookings db)))
    by (intros; apply (count_one_group_row (bookings db)
                         (new_row db sid full_name phone email))).
  rewrite (list_fmap_compose (group_row (bookings db)) (count_one sid)).
  rewrite order_rows_count_one, <- !list_fmap_compose.
  apply list_fmap_ext. intros i q _. simpl. apply book_one_with_remaining.
Qed.

End ListingAfterBooking.

Lemma listing_after_booking_witness :
  exists before after,
    fetch_sessions String.leb Scenario.cfg Scenario.db_A 20240601 = Some before
    /\ fetch_sessions String.leb Scenario.cfg Scenario.db_B 20240601 = Some after
    /\ returned after ≡ₚ book_one 1 <$> returned before.
Proof.
  apply (listing_after_booking String.leb Scenario.cfg Scenario.db_A 1
           "Ana Ruiz" "+34 600 123 456" "ana@example.org"
           {| returned := (true, MSG_CONFIRMED); db_after := Scenario.db_B;
              trace := [SelectForUpdate 1 true; SelectCount 1 0;
                        InsertReturning
                          {| b_id := 1; b_session_id := 1;
                             b_full_name := "Ana Ruiz";
                             b_phone := "+34 600 123 456";
                             b_email := "ana@example.org" |};
                        Commit; ExitCommit] |} 20240601).
  - reflexivity.
  - reflexivity.
Defined.

(** ** Connections sharing the store: locks and waiting *)

Lemma orderly_put i w c p conn result :
  orderly w ->
  w_clients w !! i = Some c ->
  Stage {| c_program := p; c_pending := pending conn; c_locked := locked conn;
           c_log := log conn; c_result := result |} ->
  (forall sid, sid ∈ locked conn ->
               sid ∈ c_locked c \/ ~ locked_elsewhere i sid w) ->
  orderly (put_client i p conn result w).
Proof.
  intros (Hexcl & Hstages) Hi Hstage Hlocks. split.
  - intros j k cj ck sid Hjk Hj Hk Hsj Hsk. simpl in Hj, Hk.
    destruct (decide (i = j)) as [<-|Hij].
    + rewrite lookup_insert_eq in Hj. injection Hj as <-. simpl in Hsj.
      rewrite lookup_insert_ne in Hk by assumption.
      destruct (Hlocks sid Hsj) as [Hold|Hfree].
      * exact (Hexcl i k c ck sid Hjk Hi Hk Hold Hsk).
      * apply Hfree. exists k, ck. auto.
    + rewrite lookup_insert_ne in Hj by assumption.
      destruct (decide (i = k)) as [<-|Hik].
      * rewrite lookup_insert_eq in Hk. injection Hk as <-. simpl in Hsk.
        destruct (Hlocks sid Hsk) as [Hold|Hfree].
        -- exact (Hexcl j i cj c sid Hjk Hj Hi Hsj Hold).
        -- apply Hfree. exists j, cj. auto.
      * rewrite lookup_insert_ne in Hk by assumption.
        exact (Hexcl j k cj ck sid Hjk Hj Hk Hsj Hsk).
  - intros j cj Hj. simpl in Hj.
    destruct (decide (i = j)) as [<-|Hij].
    + rewrite lookup_insert_eq in Hj. now injection Hj as <-.
    + rewrite lookup_insert_ne in Hj by assumption. exact (Hstages j cj Hj).
Qed.

(** What a step of a client does in an orderly world: nothing, or it moves
    the client to a later stage, with no lock that is new and held
    elsewhere, and the bookings of the store grow by one exactly when the body
    comes to return success. *)
Lemma client_step_cases i w :
  orderly w ->
  client_step i w = w
  \/ exists c p conn result,
       w_clients w !! i = Some c
       /\ client_step i w = put_client i p conn result w
       /\ Stage {| c_program := p; c_pending := pending conn;
                   c_locked := locked conn; c_log := log conn;
                   c_result := result |}
       /\ (forall sid, sid ∈ locked conn ->
                       sid ∈ c_locked c \/ ~ locked_elsewhere i sid w)
       /\ (steps_left {| c_program := p; c_pending := pending conn;
                         c_locked := locked conn; c_log := log conn;
                         c_result := result |} < steps_left c)%nat
       /\ (length (bookings (store conn)) + committed c
           = length (bookings (w_store w))
             + committed {| c_program := p; c_pending := pending conn;
                            c_locked := locked conn; c_log := log conn;
                            c_result := result |})%nat.
Proof.
  intros (Hexcl & Hstages).
  unfold client_step.
  destruct (w_clients w !! i) as [c|] eqn:Hi; [|now left].
  pose proof (Hstages i c Hi) as Hstage. simpl in Hstage.
  destruct c as [prog pend lck lg res].
  destruct Hstage as [a Hp Hpend Hlock Hres|a s Hp Hpend Hlock Hres
                     |sid Hp Hpend Hlock Hres|a Hp Hpend Hlock Hres
                     |row Hp Hpend Hlock Hres|r Hp Hpend Hlock Hres
                     |r Hp Hres Hpend Hlock];
    simpl in *; subst.
  - unfold create_booking_tx, lock_session. simpl.
    destruct (bool_decide (locked_elsewhere i (a_session_id a) w)) eqn:Hwait;
      [now left|].
    apply bool_decide_eq_false in Hwait. right.
    unfold bind, select_session_for_update, client_conn. simpl.
    destruct (sessions (w_store w) !! a_session_id a) as [s|] eqn:Hs; simpl;
      do 4 eexists; (split; [reflexivity|]); (split; [reflexivity|]); simpl;
      (split; [|split; [|split]]).
    + now apply stage_counting with a s.
    + intros sid Hsid. apply list_elem_of_singleton in Hsid as ->. now right.
    + unfold steps_left. simpl. lia.
    + reflexivity.
    + now apply stage_returning with (false, MSG_NOT_FOUND).
    + intros sid Hsid. now apply elem_of_nil in Hsid.
    + unfold steps_left. simpl. lia.
    + reflexivity.
  - right. unfold bind, select_count, client_conn, visible_bookings. simpl.
    do 4 eexists; (split; [reflexivity|]); (split; [reflexivity|]); simpl.
    unfold decide_booking, steps_left, committed. simpl.
    destruct (_ <=? 0)%Z; (split; [|split; [|split]]).
    + now apply stage_rolling with (a_session_id a).
    + intros sid Hsid. now left.
    + lia.
    + reflexivity.
    + now apply stage_inserting with a.
    + intros sid Hsid. now left.
    + lia.
    + reflexivity.
  - right. unfold bind, rollback, end_transaction, client_conn. simpl.
    do 4 eexists; (split; [reflexivity|]); (split; [reflexivity|]); simpl.
    split; [|split; [|split]].
    + now apply stage_returning with (false, MSG_FULL).
    + intros sid' Hsid. now apply elem_of_nil in Hsid.
    + unfold steps_left. simpl. lia.
    + reflexivity.
  - right. unfold bind, insert_booking, client_conn. simpl.
    do 4 eexists; (split; [reflexivity|]); (split; [reflexivity|]); simpl.
    split; [|split; [|split]].
    + now apply stage_committing
        with (new_row (w_store w) (a_session_id a) (a_full_name a)
                (a_phone a) (a_email a)).
    + intros sid Hsid. now left.
    + unfold steps_left. simpl. lia.
    + reflexivity.
  - right.
    unfold bind, commit, end_transaction, client_conn, visible_bookings. simpl.
    do 4 eexists; (split; [reflexivity|]); (split; [reflexivity|]); simpl.
    split; [|split; [|split]].
    + now apply stage_returning with (true, MSG_CONFIRMED).
    + intros sid Hsid. now apply elem_of_nil in Hsid.
    + unfold steps_left. simpl. lia.
    + rewrite length_app. unfold committed. simpl. lia.
  - right.
    unfold exit_connection, end_transaction, client_conn, visible_bookings.
    simpl.
    do 4 eexists; (split; [reflexivity|]); (split; [reflexivity|]); simpl.
    split; [|split; [|split]].
    + now apply stage_finished with r.
    + intros sid Hsid. now apply elem_of_nil in Hsid.
    + unfold steps_left. simpl. lia.
    + rewrite app_nil_r. reflexivity.
  - now left.
Qed.

Lemma client_step_orderly i w : orderly w -> orderly (client_step i w).
Proof.
  intros Hw.
  destruct (client_step_cases i w Hw)
    as [->|(c & p & conn & result & Hi & -> & Hstage & Hlocks & _ & _)];
    [assumption|].
  now apply orderly_put with c.
Qed.

Lemma run_schedule_orderly schedule : forall w,
  orderly w -> orderly (run_schedule w schedule).
Proof.
  induction schedule as [|i schedule IH]; intros w Hw; simpl; [assumption|].
  apply IH. now apply client_step_orderly.
Qed.

Lemma start_orderly db calls : orderly (start db calls).
Proof.
  split.
  - intros i j ci cj sid _ Hi _ Hsid _. simpl in Hi.
    rewrite lookup_fmap in Hi.
    destruct (calls !! i) as [a|]; [|discriminate]. injection Hi as <-.
    now apply elem_of_nil in Hsid.
  - intros i c Hi. simpl in Hi. rewrite lookup_fmap in Hi.
    destruct (calls !! i) as [a|]; [|discriminate]. injection Hi as <-.
    now apply stage_start with a.
Qed.

Lemma first_statement_logs {A} (p : Prog A) statement conn :
  first_statement p = Some statement ->
  exists e, log (statement conn).2 = (log conn ++ [e])%list.
Proof.
  destruct p as [a|sid k|sid k|sid n ph e k|k|k]; simpl; intros Hfirst;
    try discriminate; injection Hfirst as <-; unfold bind.
  - unfold select_session_for_update.
    destruct (sessions (store conn) !! sid); simpl; eauto.
  - simpl. eauto.
  - simpl. eauto.
  - simpl. eauto.
  - simpl. eauto.
Qed.

Lemma put_client_changes i w c p conn result :
  w_clients w !! i = Some c ->
  (c_log c <> log conn \/ c_result c <> result) ->
  put_client i p conn result w <> w.
Proof.
  intros Hi Hdiff Heq.
  apply (f_equal (fun w => w_clients w !! i)) in Heq. simpl in Heq.
  rewrite lookup_insert_eq, Hi in Heq. injection Heq as <-. simpl in Hdiff.
  destruct Hdiff as [Hlog|Hres]; congruence.
Qed.

Lemma app_singleton_longer {A} (l : list A) (x : A) : l <> (l ++ [x])%list.
Proof.
  intros H. apply (f_equal length) in H. rewrite length_app in H. simpl in H. lia.
Qed.

(** The step of a client that has not returned and does not wait changes
    the world. *)
Lemma can_step_changes w i : can_step w i -> client_step i w <> w.
Proof.
  intros (c & Hi & Hres & Hwait). unfold client_step. rewrite Hi, Hres.
  destruct (c_program c) as [r|sid k|sid k|sid n ph e k|k|k] eqn:Hp.
  - apply put_client_changes with c; [assumption|]. right. rewrite Hres. discriminate.
  - rewrite Hwait.
    destruct (first_statement (LockSession sid k)) as [statement|] eqn:Hfirst;
      [|discriminate].
    destruct (first_statement_logs _ statement (client_conn w c) Hfirst) as [e He].
    destruct (statement (client_conn w c)) as [p' conn]. simpl in He.
    apply put_client_changes with c; [assumption|]. left. rewrite He. simpl.
    apply app_singleton_longer.
  - rewrite Hwait.
    destruct (first_statement (CountBookings sid k)) as [statement|] eqn:Hfirst;
      [|discriminate].
    destruct (first_statement_logs _ statement (client_conn w c) Hfirst) as [e He].
    destruct (statement (client_conn w c)) as [p' conn]. simpl in He.
    apply put_client_changes with c; [assumption|]. left. rewrite He. simpl.
    apply app_singleton_longer.
  - rewrite Hwait.
    destruct (first_statement (InsertBooking sid n ph e k)) as [statement|] eqn:Hfirst;
      [|discriminate].
    destruct (first_statement_logs _ statement (client_conn w c) Hfirst) as [e' He].
    destruct (statement (client_conn w c)) as [p' conn]. simpl in He.
    apply put_client_changes with c; [assumption|]. left. rewrite He. simpl.
    apply app_singleton_longer.
  - rewrite Hwait.
    destruct (first_statement (DoRollback k)) as [statement|] eqn:Hfirst;
      [|discriminate].
    destruct (first_statement_logs _ statement (client_conn w c) Hfirst) as [e He].
    destruct (statement (client_conn w c)) as [p' conn]. simpl in He.
    apply put_client_changes with c; [assumption|]. left. rewrite He. simpl.
    apply app_singleton_longer.
  - rewrite Hwait.
    destruct (first_statement (DoCommit k)) as [statement|] eqn:Hfirst;
      [|discriminate].
    destruct (first_statement_logs _ statement (client_conn w c) Hfirst) as [e He].
    destruct (statement (client_conn w c)) as [p' conn]. simpl in He.
    apply put_client_changes with c; [assumption|]. left. rewrite He. simpl.
    apply app_singleton_longer.
Qed.

(** A client that holds a lock is not waiting for one. *)
Lemma lock_holder_can_step w j cj sid :
  orderly w ->
  w_clients w !! j = Some cj ->
  sid ∈ c_locked cj ->
  can_step w j.
Proof.
  intros (_ & Hstages) Hj Hsid. exists cj. split; [assumption|].
  destruct (Hstages j cj Hj) as [a Hp Hpend Hlock Hres|a s Hp Hpend Hlock Hres
                     |sid' Hp Hpend Hlock Hres|a Hp Hpend Hlock Hres
                     |row Hp Hpend Hlock Hres|r Hp Hpend Hlock Hres
                     |r Hp Hres Hpend Hlock];
    try (rewrite Hlock in Hsid; now apply elem_of_nil in Hsid);
    rewrite Hp; auto.
Qed.

(** In an orderly world, when a call has not returned, some call can take
    a step. *)
Lemma orderly_progress w i :
  orderly w -> unfinished w i -> exists j, can_step w j.
Proof.
  intros Hw (c & Hi & Hres).
  destruct (must_wait i w (c_program c)) eqn:Hwait.
  - destruct (c_program c) as [r|sid k|sid k|sid n ph e k|k|k];
      try discriminate Hwait.
    simpl in Hwait. apply bool_decide_eq_true in Hwait.
    destruct Hwait as (j & cj & Hj & _ & Hsid).
    exists j. now apply (lock_holder_can_step w j cj sid).
  - exists i, c. auto.
Qed.

Lemma total_put weight i w c p conn result :
  w_clients w !! i = Some c ->
  (total weight (put_client i p conn result w) + weight c
   = total weight w
     + weight {| c_program := p; c_pending := pending conn;
                 c_locked := locked conn; c_log := log conn;
                 c_result := result |})%nat.
Proof.
  intros Hi. unfold total. simpl.
  rewrite (map_fold_delete_L _ _ i c (w_clients w)); [|intros; lia|assumption].
  rewrite <- (insert_delete_eq (w_clients w)).
  rewrite map_fold_insert_L; [lia|intros; lia|apply lookup_delete_eq].
Qed.

(** A step that changes the world leaves less work. *)
Lemma client_step_less_work i w :
  orderly w -> client_step i w <> w ->
  (work_left (client_step i w) < work_left w)%nat.
Proof.
  intros Hw Hchanged.
  destruct (client_step_cases i w Hw)
    as [Hsame|(c & p & conn & result & Hi & Hstep & _ & _ & Hless & _)];
    [contradiction|].
  rewrite Hstep. pose proof (total_put steps_left i w c p conn result Hi).
  unfold work_left. lia.
Qed.

Lemma all_returned_dec w : {all_returned w} + {exists i, unfinished w i}.
Proof.
  destruct (decide (map_Exists (fun _ c => c_result c = None) (w_clients w)))
    as [Hex|Hall].
  - right. destruct Hex as (i & c & Hi & Hres). exists i, c. auto.
  - left. intros i c Hi. destruct (c_result c) eqn:Hres; [eauto|].
    exfalso. apply Hall. exists i, c. auto.
Qed.

(** From an orderly world the calls can all be brought to return, in no
    more steps than there is work left. *)
Lemma orderly_completes : forall n w,
  orderly w -> (work_left w <= n)%nat ->
  exists schedule,
    (length schedule <= n)%nat /\ all_returned (run_schedule w schedule).
Proof.
  induction n as [|n IH]; intros w Hw Hwork.
  - exists []. split; [simpl; lia|].
    destruct (all_returned_dec w) as [Hall|[i Hi]]; [assumption|].
    destruct (orderly_progress w i Hw Hi) as [j Hj].
    pose proof (client_step_less_work j w Hw (can_step_changes w j Hj)). lia.
  - destruct (all_returned_dec w) as [Hall|[i Hi]].
    + exists []. split; [simpl; lia|assumption].
    + destruct (orderly_progress w i Hw Hi) as [j Hj].
      pose proof (client_step_less_work j w Hw (can_step_changes w j Hj)) as Hless.
      destruct (IH (client_step j w) (client_step_orderly j w Hw)) as (schedule & Hlen & Hall);
        [lia|].
      exists (j :: schedule). split; [simpl; lia|assumption].
Qed.

Lemma client_step_work i w :
  orderly w -> (work_left (client_step i w) <= work_left w)%nat.
Proof.
  intros Hw.
  destruct (client_step_cases i w Hw)
    as [->|(c & p & conn & result & Hi & -> & _ & _ & Hless & _)]; [lia|].
  pose proof (total_put steps_left i w c p conn result Hi).
  unfold work_left. lia.
Qed.

Lemma run_schedule_work schedule : forall w,
  orderly w -> (work_left (run_schedule w schedule) <= work_left w)%nat.
Proof.
  induction schedule as [|i schedule IH]; intros w Hw; simpl; [lia|].
  pose proof (IH (client_step i w) (client_step_orderly i w Hw)).
  pose proof (client_step_work i w Hw). lia.
Qed.

Lemma work_left_start db (calls : gmap nat Attempt) :
  work_left (start db calls) = (5 * size calls)%nat.
Proof.
  unfold work_left, total, start. simpl.
  induction calls as [|i a calls Hi IH] using map_ind.
  - now rewrite fmap_empty, map_fold_empty, map_size_empty.
  - rewrite fmap_insert, map_fold_insert_L;
      [|intros; lia|now rewrite lookup_fmap, Hi].
    rewrite IH, map_size_insert_None by assumption.
    unfold steps_left. simpl. lia.
Qed.

(** X4: however the statements of concurrent calls interleave, no session
    row is locked by two connections at once; a connection holds at most one
    row lock, holds an uncommitted booking only for the session whose row it
    has locked, and holds neither lock nor uncommitted booking once its call
    has returned. *)
Theorem row_locks_are_exclusive db (calls : gmap nat Attempt) schedule :
  exclusive_locks (run_schedule (start db calls) schedule)
  /\ forall i c,
       w_clients (run_schedule (start db calls) schedule) !! i = Some c ->
       (length (c_locked c) <= 1)%nat
       /\ (forall b, b ∈ c_pending c -> b_session_id b ∈ c_locked c)
       /\ (is_Some (c_result c) -> c_locked c = [] /\ c_pending c = []).
Proof.
  destruct (run_schedule_orderly schedule (start db calls) (start_orderly db calls))
    as [Hexcl Hstages].
  split; [assumption|]. intros i c Hi.
  destruct (Hstages i c Hi) as [a Hp Hpend Hlock Hres|a s Hp Hpend Hlock Hres
                     |sid Hp Hpend Hlock Hres|a Hp Hpend Hlock Hres
                     |row Hp Hpend Hlock Hres|r Hp Hpend Hlock Hres
                     |r Hp Hres Hpend Hlock];
    rewrite Hpend, Hlock, ?Hres; simpl;
    (split; [lia|]);
    (split; [intros b Hb; try (now apply elem_of_nil in Hb)
            |intros [x Hx]; try discriminate Hx; auto]).
  apply list_elem_of_singleton in Hb as ->. apply list_elem_of_singleton.
  reflexivity.
Qed.

(** X5: concurrent calls never deadlock: whenever some call has not
    returned, there is a call that does not wait, and its step changes the
    world. *)
Theorem no_deadlock db (calls : gmap nat Attempt) schedule i :
  unfinished (run_schedule (start db calls) schedule) i ->
  exists j,
    can_step (run_schedule (start db calls) schedule) j
    /\ client_step j (run_schedule (start db calls) schedule)
       <> run_schedule (start db calls) schedule.
Proof.
  intros Hi.
  destruct (orderly_progress _ i
              (run_schedule_orderly schedule _ (start_orderly db calls)) Hi)
    as [j Hj].
  exists j. split; [assumption|]. now apply can_step_changes.
Qed.

Lemma no_deadlock_witness :
  exists j,
    can_step (run_schedule (start Scenario.db_A Scenario.race) [0; 1]%nat) j
    /\ client_step j (run_schedule (start Scenario.db_A Scenario.race) [0; 1]%nat)
       <> run_schedule (start Scenario.db_A Scenario.race) [0; 1]%nat.
Proof.
  apply (no_deadlock Scenario.db_A Scenario.race [0; 1]%nat 1%nat).
  eexists. split; [vm_compute; reflexivity|reflexivity].
Defined.

(** X6: concurrent calls all return: from wherever a schedule has brought
    them, some further steps, at most five for each call, bring every call to
    its result. *)
Theorem every_call_can_return db (calls : gmap nat Attempt) schedule :
  exists rest,
    (length rest <= 5 * size calls)%nat
    /\ all_returned (run_schedule (start db calls) (schedule ++ rest)).
Proof.
  pose proof (start_orderly db calls) as Hstart.
  destruct (orderly_completes (5 * size calls)
              (run_schedule (start db calls) schedule)) as (rest & Hlen & Hall).
  - now apply run_schedule_orderly.
  - rewrite <- (work_left_start db calls). now apply run_schedule_work.
  - exists rest. split; [assumption|].
    unfold run_schedule in *. now rewrite foldl_app.
Qed.

(** ** Connections sharing the store: rows and identifiers *)

Lemma total_ext (f g : Client -> nat) w :
  (forall i c, w_clients w !! i = Some c -> f c = g c) ->
  total f w = total g w.
Proof.
  unfold total. generalize (w_clients w). clear w.
  intros m. induction m as [|i c m Hi IH] using map_ind; intros Hext.
  - now rewrite !map_fold_empty.
  - rewrite !map_fold_insert_L by (assumption || (intros; lia)).
    rewrite (Hext i c) by apply lookup_insert_eq.
    rewrite IH; [reflexivity|].
    intros j cj Hj. apply (Hext j). rewrite lookup_insert_ne; [assumption|].
    intros ->. congruence.
Qed.

Lemma total_start_committed db (calls : gmap nat Attempt) :
  total committed (start db calls) = 0%nat.
Proof.
  rewrite (total_ext committed (fun _ => 0%nat)).
  - unfold total. generalize (w_clients (start db calls)).
    intros m. induction m as [|i c m Hi IH] using map_ind.
    + now rewrite map_fold_empty.
    + rewrite map_fold_insert_L by (assumption || (intros; lia)). now rewrite IH.
  - intros i c Hi. simpl in Hi. rewrite lookup_fmap in Hi.
    destruct (calls !! i) as [a|]; [|discriminate]. now injection Hi as <-.
Qed.

Lemma client_step_rows i w :
  orderly w ->
  (length (bookings (w_store (client_step i w))) + total committed w
   = length (bookings (w_store w)) + total committed (client_step i w))%nat.
Proof.
  intros Hw.
  destruct (client_step_cases i w Hw)
    as [->|(c & p & conn & result & Hi & -> & _ & _ & _ & Hrows)]; [lia|].
  pose proof (total_put committed i w c p conn result Hi). simpl. lia.
Qed.

Lemma run_schedule_rows schedule : forall w,
  orderly w ->
  (length (bookings (w_store (run_schedule w schedule))) + total committed w
   = length (bookings (w_store w)) + total committed (run_schedule w schedule))%nat.
Proof.
  induction schedule as [|i schedule IH]; intros w Hw; simpl; [lia|].
  pose proof (IH (client_step i w) (client_step_orderly i w Hw)).
  pose proof (client_step_rows i w Hw). lia.
Qed.

(** X7: at every moment of concurrent calls the store holds exactly as many
    bookings more than at the start as there are calls whose transaction has
    committed, and once all calls have returned these are the calls that
    returned success. *)
Theorem bookings_added_are_successes db (calls : gmap nat Attempt) schedule :
  length (bookings (w_store (run_schedule (start db calls) schedule)))
  = (length (bookings db)
     + total committed (run_schedule (start db calls) schedule))%nat
  /\ (all_returned (run_schedule (start db calls) schedule) ->
      total committed (run_schedule (start db calls) schedule)
      = total succeeded (run_schedule (start db calls) schedule)).
Proof.
  pose proof (start_orderly db calls) as Hstart. split.
  - pose proof (run_schedule_rows schedule (start db calls) Hstart) as Hrows.
    rewrite total_start_committed in Hrows. simpl in Hrows. lia.
  - intros Hall. apply total_ext. intros i c Hi.
    destruct (run_schedule_orderly schedule _ Hstart) as [_ Hstages].
    destruct (Hall i c Hi) as [r Hr].
    destruct (Hstages i c Hi) as [a Hp Hpend Hlock Hres|a s Hp Hpend Hlock Hres
                     |sid Hp Hpend Hlock Hres|a Hp Hpend Hlock Hres
                     |row Hp Hpend Hlock Hres|r' Hp Hpend Hlock Hres
                     |r' Hp Hres Hpend Hlock]; try congruence.
    unfold committed, succeeded. now rewrite Hp, Hres.
Qed.

Lemma client_step_effect i w :
  client_step i w = w
  \/ exists c p conn result,
       w_clients w !! i = Some c
       /\ client_step i w = put_client i p conn result w
       /\ Effect (w_store w) (c_pending c) (store conn) (pending conn).
Proof.
  unfold client_step.
  destruct (w_clients w !! i) as [c|] eqn:Hi; [|now left].
  destruct (c_result c); [now left|].
  destruct (c_program c) as [r|sid k|sid k|sid n ph e k|k|k].
  - right. do 4 eexists. split; [reflexivity|]. split; [reflexivity|].
    now apply effect_publish.
  - destruct (must_wait i w (LockSession sid k)); [now left|]. right.
    simpl. unfold bind, select_session_for_update, client_conn. simpl.
    destruct (sessions (w_store w) !! sid); simpl;
      do 4 eexists; (split; [reflexivity|]); (split; [reflexivity|]);
      now apply effect_none.
  - right. simpl. unfold bind, select_count, client_conn. simpl.
    do 4 eexists. split; [reflexivity|]. split; [reflexivity|].
    now apply effect_none.
  - right. simpl. unfold bind, insert_booking, client_conn. simpl.
    do 4 eexists. split; [reflexivity|]. split; [reflexivity|].
    simpl. eapply effect_write with (row := {| b_id := bookings_id_seq (w_store w);
      b_session_id := sid; b_full_name := n; b_phone := ph; b_email := e |});
      reflexivity.
  - right. simpl. unfold bind, rollback, client_conn. simpl.
    do 4 eexists. split; [reflexivity|]. split; [reflexivity|].
    now apply effect_drop.
  - right. simpl. unfold bind, commit, client_conn. simpl.
    do 4 eexists. split; [reflexivity|]. split; [reflexivity|].
    now apply effect_publish.
Qed.

Lemma fresh_ids_replace i w c p conn result :
  fresh_ids w ->
  w_clients w !! i = Some c ->
  ids_from_sequence (store conn) ->
  NoDup (b_id <$> bookings (store conn)) ->
  (forall b, b ∈ pending conn ->
             b_id b < bookings_id_seq (store conn)
             /\ b_id b ∉ b_id <$> bookings (store conn)) ->
  (forall j cj b, j <> i -> w_clients w !! j = Some cj -> b ∈ c_pending cj ->
                  b_id b < bookings_id_seq (store conn)
                  /\ b_id b ∉ b_id <$> bookings (store conn)) ->
  NoDup (b_id <$> pending conn) ->
  (forall j cj b b', j <> i -> w_clients w !! j = Some cj ->
                     b ∈ pending conn -> b' ∈ c_pending cj ->
                     b_id b <> b_id b') ->
  fresh_ids (put_client i p conn result w).
Proof.
  intros (_ & _ & _ & Hown & Hcross) Hi Hseq Hstore Hmine Htheirs Hnodup Hnew.
  assert (Hother : forall j cj,
             w_clients (put_client i p conn result w) !! j = Some cj ->
             (j = i /\ c_pending cj = pending conn)
             \/ (j <> i /\ w_clients w !! j = Some cj)).
  { intros j cj Hj. simpl in Hj. destruct (decide (i = j)) as [<-|Hij].
    - rewrite lookup_insert_eq in Hj. injection Hj as <-. now left.
    - rewrite lookup_insert_ne in Hj by assumption. right. split; congruence. }
  split; [exact Hseq|]. split; [exact Hstore|]. split; [|split].
  - intros j cj b Hj Hb. destruct (Hother j cj Hj) as [[_ Heq]|[Hne Hj']].
    + rewrite Heq in Hb. now apply Hmine.
    + now apply (Htheirs j cj b).
  - intros j cj Hj. destruct (Hother j cj Hj) as [[_ Heq]|[Hne Hj']].
    + now rewrite Heq.
    + now apply (Hown j).
  - intros j k cj ck b b' Hjk Hj Hk Hbj Hbk.
    destruct (Hother j cj Hj) as [[Hji Hej]|[Hji Hj']];
      destruct (Hother k ck Hk) as [[Hki Hek]|[Hki Hk']].
    + congruence.
    + rewrite Hej in Hbj. now apply (Hnew k ck b b').
    + rewrite Hek in Hbk. intros Heq. symmetry in Heq. revert Heq.
      now apply (Hnew j cj b' b).
    + now apply (Hcross j k cj ck b b').
Qed.

Lemma fresh_ids_put i w c p conn result :
  fresh_ids w ->
  w_clients w !! i = Some c ->
  Effect (w_store w) (c_pending c) (store conn) (pending conn) ->
  fresh_ids (put_client i p conn result w).
Proof.
  intros Hw Hi Heffect. pose proof Hw as (Hseq & Hstore & Hheld & Hown & Hcross).
  unfold ids_from_sequence in Hseq. rewrite Forall_forall in Hseq.
  apply fresh_ids_replace with c; try assumption;
    unfold ids_from_sequence; rewrite ?Forall_forall;
    destruct Heffect as [Hdb Hpend|row Hs Hb Hq Hrow Hpend|Hs Hb Hq Hpend
                        |Hs Hb Hq Hpend];
    rewrite ?Hdb, ?Hb, ?Hq, ?Hpend.
  (* the identifiers of the store are below the sequence *)
  - assumption.
  - intros b Hbin. specialize (Hseq b Hbin). simpl in Hseq. lia.
  - intros b Hbin. apply elem_of_app in Hbin as [Hold|Hnew].
    + now apply Hseq.
    + now destruct (Hheld i c b Hi Hnew).
  - assumption.
  (* and differ *)
  - assumption.
  - assumption.
  - rewrite fmap_app. apply NoDup_app. split; [assumption|].
    split; [|now apply (Hown i)].
    intros x Hx Hx'. apply list_elem_of_fmap in Hx' as (b' & -> & Hb').
    now destruct (Hheld i c b' Hi Hb').
  - assumption.
  (* the rows the client holds *)
  - intros b Hbin. now apply (Hheld i c b).
  - intros b Hbin. apply elem_of_app in Hbin as [Hold|Hnew].
    + destruct (Hheld i c b Hi Hold). split; [lia|assumption].
    + apply list_elem_of_singleton in Hnew as ->. split; [lia|].
      rewrite Hrow.
      intros Hin. apply list_elem_of_fmap in Hin as (b' & Heq' & Hb').
      specialize (Hseq b' Hb'). simpl in Hseq. lia.
  - intros b Hbin. now apply elem_of_nil in Hbin.
  - intros b Hbin. now apply elem_of_nil in Hbin.
  (* the rows the others hold *)
  - intros j cj b _ Hj Hbin. now apply (Hheld j cj b).
  - intros j cj b _ Hj Hbin. destruct (Hheld j cj b Hj Hbin).
    split; [lia|assumption].
  - intros j cj b Hne Hj Hbin.
    destruct (Hheld j cj b Hj Hbin) as [Hlt Hnotin]. split; [assumption|].
    rewrite fmap_app. intros Hin. apply elem_of_app in Hin as [Hold|Hnew].
    + contradiction.
    + apply list_elem_of_fmap in Hnew as (b' & Heq' & Hb').
      now apply (Hcross j i cj c b b' Hne Hj Hi Hbin Hb').
  - intros j cj b _ Hj Hbin. now apply (Hheld j cj b).
  (* the rows the client holds differ *)
  - now apply (Hown i).
  - rewrite fmap_app. apply NoDup_app. split; [now apply (Hown i)|].
    split; [|apply NoDup_singleton].
    intros x Hx Hx'. apply list_elem_of_singleton in Hx'. subst x.
    apply list_elem_of_fmap in Hx as (b' & Heq' & Hb').
    destruct (Hheld i c b' Hi Hb'). lia.
  - constructor.
  - constructor.
  (* and differ from those of the others *)
  - intros j cj b b' Hne Hj Hbin Hbin'.
    apply (Hcross i j c cj b b'); auto.
  - intros j cj b b' Hne Hj Hbin Hbin'.
    apply elem_of_app in Hbin as [Hold|Hnew].
    + apply (Hcross i j c cj b b'); auto.
    + apply list_elem_of_singleton in Hnew as ->.
      destruct (Hheld j cj b' Hj Hbin'). lia.
  - intros j cj b b' _ _ Hbin. now apply elem_of_nil in Hbin.
  - intros j cj b b' _ _ Hbin. now apply elem_of_nil in Hbin.
Qed.

Lemma client_step_fresh_ids i w : fresh_ids w -> fresh_ids (client_step i w).
Proof.
  intros Hw.
  destruct (client_step_effect i w)
    as [->|(c & p & conn & result & Hi & -> & Heffect)]; [assumption|].
  now apply fresh_ids_put with c.
Qed.

Lemma run_schedule_fresh_ids schedule : forall w,
  fresh_ids w -> fresh_ids (run_schedule w schedule).
Proof.
  induction schedule as [|i schedule IH]; intros w Hw; simpl; [assumption|].
  apply IH. now apply client_step_fresh_ids.
Qed.

Lemma start_fresh_ids db (calls : gmap nat Attempt) :
  ids_from_sequence db -> NoDup (b_id <$> bookings db) ->
  fresh_ids (start db calls).
Proof.
  intros Hseq Hnodup.
  assert (Hnew : forall i c, w_clients (start db calls) !! i = Some c ->
                             c_pending c = []).
  { intros i c Hi. simpl in Hi. rewrite lookup_fmap in Hi.
    destruct (calls !! i) as [a|]; [|discriminate]. now injection Hi as <-. }
  split; [assumption|]. split; [assumption|]. split; [|split].
  - intros i c b Hi Hb. rewrite (Hnew i c Hi) in Hb. now apply elem_of_nil in Hb.
  - intros i c Hi. rewrite (Hnew i c Hi). constructor.
  - intros i j ci cj b b' _ Hi _ Hb. rewrite (Hnew i ci Hi) in Hb.
    now apply elem_of_nil in Hb.
Qed.

(** X8: however concurrent calls interleave, the bookings in the store
    keep pairwise different identifiers, all handed out by the sequence,
    provided the bookings stored at the start did. *)
Theorem identifiers_stay_distinct db (calls : gmap nat Attempt) schedule :
  ids_from_sequence db ->
  NoDup (b_id <$> bookings db) ->
  NoDup (b_id <$> bookings (w_store (run_schedule (start db calls) schedule)))
  /\ ids_from_sequence (w_store (run_schedule (start db calls) schedule)).
Proof.
  intros Hseq Hnodup.
  destruct (run_schedule_fresh_ids schedule (start db calls)
              (start_fresh_ids db calls Hseq Hnodup)) as (Hseq' & Hnodup' & _).
  auto.
Qed.

Lemma identifiers_stay_distinct_witness :
  NoDup (b_id <$> bookings
           (w_store (run_schedule (start Scenario.db_D Scenario.callers)
                       Scenario.round_robin)))
  /\ ids_from_sequence
       (w_store (run_schedule (start Scenario.db_D Scenario.callers)
                   Scenario.round_robin)).
Proof.
  apply (identifiers_stay_distinct Scenario.db_D Scenario.callers
           Scenario.round_robin).
  - constructor.
  - constructor.
Defined.

(** ** The dates, the activities and the slots offered *)

Section DistinctAscendingProperties.

Context {A : Type} (lt : A -> A -> bool).

Hypothesis lt_trans : forall x y z, lt x y = true -> lt y z = true -> lt x z = true.
Hypothesis lt_total : forall x y, lt x y = false -> lt y x = false -> x = y.

Lemma elem_of_insert_distinct x y l :
  y ∈ insert_distinct lt x l <-> y = x \/ y ∈ l.
Proof.
  induction l as [|z l IH]; simpl.
  - rewrite list_elem_of_singleton, elem_of_nil. tauto.
  - destruct (lt x z) eqn:Hxz; [now rewrite !elem_of_cons|].
    destruct (lt z x) eqn:Hzx.
    + rewrite !elem_of_cons, IH. tauto.
    + rewrite (lt_total x z Hxz Hzx), elem_of_cons. tauto.
Qed.

Lemma elem_of_distinct_ascending y l : y ∈ distinct_ascending lt l <-> y ∈ l.
Proof.
  induction l as [|x l IH]; simpl; [reflexivity|].
  now rewrite elem_of_insert_distinct, elem_of_cons, IH.
Qed.

Lemma insert_distinct_sorted x l :
  StronglySorted (fun a b => lt a b = true) l ->
  StronglySorted (fun a b => lt a b = true) (insert_distinct lt x l).
Proof.
  induction 1 as [|z l Hsorted IH Hz]; simpl.
  - repeat constructor.
  - destruct (lt x z) eqn:Hxz.
    + constructor; [now constructor|].
      constructor; [assumption|].
      eapply Forall_impl; [exact Hz|]. simpl. intros b Hb.
      now apply lt_trans with z.
    + destruct (lt z x) eqn:Hzx; [|now constructor].
      constructor; [assumption|].
      apply Forall_forall. intros b Hb.
      apply elem_of_insert_distinct in Hb as [->|Hb]; [assumption|].
      rewrite Forall_forall in Hz. now apply Hz.
Qed.

Lemma distinct_ascending_sorted l :
  StronglySorted (fun a b => lt a b = true) (distinct_ascending lt l).
Proof.
  induction l as [|x l IH]; simpl; [constructor|].
  now apply insert_distinct_sorted.
Qed.

End DistinctAscendingProperties.

Lemma StronglySorted_weaken {A} (R S : A -> A -> Prop) l :
  (forall a b, R a b -> S a b) -> StronglySorted R l -> StronglySorted S l.
Proof.
  intros Himpl. induction 1 as [|x l Hsorted IH Hx]; constructor; auto.
  eapply Forall_impl; [exact Hx|]. auto.
Qed.

Lemma Z_ltb_trans (x y z : Z) :
  (x <? y)%Z = true -> (y <? z)%Z = true -> (x <? z)%Z = true.
Proof. rewrite !Z.ltb_lt. lia. Qed.

Lemma Z_ltb_total (x y : Z) : (x <? y)%Z = false -> (y <? x)%Z = false -> x = y.
Proof. rewrite !Z.ltb_ge. lia. Qed.

Lemma string_compare_lt_trans s1 : forall s2 s3,
  String.compare s1 s2 = Lt -> String.compare s2 s3 = Lt ->
  String.compare s1 s3 = Lt.
Proof.
  induction s1 as [|c1 s1 IH]; intros [|c2 s2] [|c3 s3]; simpl;
    try discriminate; auto.
  unfold Ascii.compare.
  destruct (N.compare_spec (N_of_ascii c1) (N_of_ascii c2)) as [H12|H12|H12];
    try discriminate;
    destruct (N.compare_spec (N_of_ascii c2) (N_of_ascii c3)) as [H23|H23|H23];
    try discriminate; intros Hlt Hlt'.
  - rewrite H12, H23, N.compare_refl. now apply IH with s2.
  - rewrite H12. apply N.compare_lt_iff in H23. now rewrite H23.
  - rewrite <- H23. apply N.compare_lt_iff in H12. now rewrite H12.
  - assert (Hlt13 : (N_of_ascii c1 < N_of_ascii c3)%N) by lia.
    apply N.compare_lt_iff in Hlt13. now rewrite Hlt13.
Qed.

Lemma string_ltb_trans x y z :
  String.ltb x y = true -> String.ltb y z = true -> String.ltb x z = true.
Proof.
  unfold String.ltb.
  destruct (String.compare x y) eqn:Hxy; try discriminate.
  destruct (String.compare y z) eqn:Hyz; try discriminate.
  now rewrite (string_compare_lt_trans x y z Hxy Hyz).
Qed.

Lemma string_ltb_total x y :
  String.ltb x y = false -> String.ltb y x = false -> x = y.
Proof.
  unfold String.ltb. rewrite (String.compare_antisym x y).
  destruct (String.compare y x) eqn:Hyx; simpl; try discriminate.
  intros _ _. symmetry. now apply String.compare_eq_iff.
Qed.

Lemma fetch_event_dates_run cfg db :
  get_db_url cfg <> "" ->
  fetch_event_dates cfg db =
  Some {| returned :=
            distinct_ascending Z.ltb
              (s_event_date <$> (map_to_list (sessions db)).*2);
          db_after := db; trace := [ExitCommit] |}.
Proof.
  intros Hurl. unfold fetch_event_dates, with_connection.
  rewrite (connect_with_url _ _ Hurl). simpl.
  unfold visible_bookings. simpl. now rewrite app_nil_r, DB_eta.
Qed.

Lemma fetch_event_dates_stopped cfg db :
  get_db_url cfg = "" -> fetch_event_dates cfg db = None.
Proof.
  intros Hurl. unfold fetch_event_dates, with_connection.
  now rewrite (connect_without_url _ _ Hurl).
Qed.

Lemma elem_of_session_dates (m : gmap Z Session) d :
  d ∈ s_event_date <$> (map_to_list m).*2
  <-> exists sid s, m !! sid = Some s /\ s_event_date s = d.
Proof.
  rewrite list_elem_of_fmap. split.
  - intros (s & -> & Hs). apply list_elem_of_fmap in Hs as ([sid s'] & -> & Hs).
    apply elem_of_map_to_list in Hs. eauto.
  - intros (sid & s & Hs & <-). exists s. split; [reflexivity|].
    apply list_elem_of_fmap. exists (sid, s). split; [reflexivity|].
    now apply elem_of_map_to_list.
Qed.

(** X9: the dates offered are exactly the dates on which the store has a
    session, each once and in ascending order; reading them changes nothing;
    and the page stops on its warning exactly when the store has no session
    at all. *)
Theorem event_dates_offered cfg db res :
  fetch_event_dates cfg db = Some res ->
  StronglySorted Z.lt (returned res)
  /\ (forall d, d ∈ returned res
                <-> exists sid s, sessions db !! sid = Some s
                                  /\ s_event_date s = d)
  /\ db_after res = db
  /\ (landing cfg db = LandingWarning MSG_NO_SESSIONS <-> sessions db = ∅).
Proof.
  intros Hres.
  destruct (decide (get_db_url cfg = "")) as [Hurl|Hurl].
  { rewrite (fetch_event_dates_stopped _ _ Hurl) in Hres. discriminate. }
  pose proof Hres as Hrun. rewrite (fetch_event_dates_run _ _ Hurl) in Hrun.
  injection Hrun as <-. simpl.
  assert (Hmem : forall d,
             d ∈ distinct_ascending Z.ltb
                   (s_event_date <$> (map_to_list (sessions db)).*2)
             <-> exists sid s, sessions db !! sid = Some s /\ s_event_date s = d).
  { intros d.
    rewrite (elem_of_distinct_ascending Z.ltb Z_ltb_total).
    apply elem_of_session_dates. }
  split; [|split; [exact Hmem|split; [reflexivity|]]].
  - eapply StronglySorted_weaken;
      [|apply (distinct_ascending_sorted Z.ltb Z_ltb_trans Z_ltb_total)].
    intros a b. apply Z.ltb_lt.
  - unfold landing. rewrite Hres. simpl.
    destruct (distinct_ascending Z.ltb _) as [|d dates] eqn:Hdates.
    + split; [intros _|reflexivity].
      apply map_empty. intros sid.
      destruct (sessions db !! sid) as [s|] eqn:Hs; [|reflexivity].
      exfalso. assert (Hin : s_event_date s ∈ @nil Z) by (apply Hmem; eauto).
      now apply elem_of_nil in Hin.
    + split; [discriminate|]. intros Hempty. exfalso.
      assert (Hin : d ∈ d :: dates) by apply list_elem_of_here.
      apply Hmem in Hin as (sid & s & Hs & _).
      rewrite Hempty, lookup_empty in Hs. discriminate.
Qed.

Lemma event_dates_offered_witness :
  exists res,
    fetch_event_dates Scenario.cfg two_dates = Some res
    /\ returned res = [20240601; 20240602]
    /\ StronglySorted Z.lt (returned res).
Proof.
  eexists. split; [reflexivity|]. split; [reflexivity|].
  apply (event_dates_offered Scenario.cfg two_dates). reflexivity.
Defined.

Lemma elem_of_activities (l : list SessionRow) a :
  a ∈ activities l <-> exists s, s ∈ l /\ r_activity s = a.
Proof.
  unfold activities.
  rewrite (elem_of_distinct_ascending String.ltb string_ltb_total).
  rewrite list_elem_of_fmap. split; intros (s & H1 & H2); eauto.
Qed.

(** X10: the activity select box lists exactly the activities of the
    listing, each once, in ascending order of their code points. *)
Theorem activities_offered (l : list SessionRow) :
  StronglySorted (fun a b => String.ltb a b = true) (activities l)
  /\ forall a, a ∈ activities l <-> exists s, s ∈ l /\ r_activity s = a.
Proof.
  split.
  - apply (distinct_ascending_sorted String.ltb string_ltb_trans string_ltb_total).
  - apply elem_of_activities.
Qed.

Section WidgetProperties.

Variable time_text : Z -> string.

Lemma option_map_snoc slots s :
  option_map time_text (slots ++ [s])
  = <[ label time_text s := s ]> (option_map time_text slots).
Proof. unfold option_map. now rewrite foldl_app. Qed.

Lemma option_map_lookup slots : forall lbl s,
  option_map time_text slots !! lbl = Some s ->
  s ∈ slots /\ label time_text s = lbl.
Proof.
  induction slots as [|x slots IH] using rev_ind; intros lbl s Hs.
  - unfold option_map in Hs. simpl in Hs. rewrite lookup_empty in Hs.
    discriminate.
  - rewrite option_map_snoc in Hs.
    destruct (decide (label time_text x = lbl)) as [<-|Hne].
    + rewrite lookup_insert_eq in Hs. injection Hs as <-.
      split; [|reflexivity]. apply elem_of_app. right.
      apply list_elem_of_singleton. reflexivity.
    + rewrite lookup_insert_ne in Hs by assumption.
      destruct (IH lbl s Hs) as [Hin Hlbl]. split; [|assumption].
      apply elem_of_app. now left.
Qed.

Lemma option_map_has_label slots lbl :
  lbl ∈ options time_text slots -> is_Some (option_map time_text slots !! lbl).
Proof.
  unfold options.
  induction slots as [|x slots IH] using rev_ind; intros Hin.
  - now apply elem_of_nil in Hin.
  - rewrite option_map_snoc.
    destruct (decide (label time_text x = lbl)) as [<-|Hne].
    + rewrite lookup_insert_eq. eauto.
    + rewrite lookup_insert_ne by assumption. apply IH.
      rewrite fmap_app in Hin. apply elem_of_app in Hin as [Hin|Hin];
        [assumption|].
      apply list_elem_of_singleton in Hin. congruence.
Qed.

Lemma option_map_keeps slots : forall (m : gmap string SessionRow) lbl,
  (forall s, s ∈ slots -> label time_text s <> lbl) ->
  foldl (fun (m : gmap string SessionRow) s => <[ label time_text s := s ]> m)
    m slots !! lbl
  = m !! lbl.
Proof.
  induction slots as [|x slots IH]; intros m lbl Hnone; simpl; [reflexivity|].
  rewrite IH.
  - apply lookup_insert_ne. apply Hnone. apply list_elem_of_here.
  - intros s Hs. apply Hnone. now apply list_elem_of_further.
Qed.

(** X11: when several slots offered have the same label, choosing that
    label selects the last of them: a slot is the one selected by its label
    when no slot after it in the list bears the same label. *)
Theorem last_slot_of_a_label_is_selected before s after :
  (forall s', s' ∈ after -> label time_text s' <> label time_text s) ->
  selected_session time_text (before ++ s :: after) (label time_text s)
  = Some s.
Proof.
  intros Hlast. unfold selected_session, option_map.
  rewrite foldl_app. simpl.
  rewrite option_map_keeps by assumption. apply lookup_insert_eq.
Qed.

Section PageProperties.

Variable text_le : string -> string -> bool.

(** X12: the page never runs out of choices: for every date it offers
    there is a listing with at least one activity, for every activity it
    offers there is at least one slot, and every label it offers selects a
    slot of the listing, of that activity and with that label. *)
Theorem page_always_offers_a_slot cfg db dates d :
  fetch_event_dates cfg db = Some dates ->
  d ∈ returned dates ->
  exists listing,
    fetch_sessions text_le cfg db d = Some listing
    /\ activities (returned listing) <> []
    /\ forall activity,
         activity ∈ activities (returned listing) ->
         options time_text (filtered (returned listing) activity) <> []
         /\ forall lbl,
              lbl ∈ options time_text (filtered (returned listing) activity) ->
              exists s,
                selected_session time_text
                  (filtered (returned listing) activity) lbl = Some s
                /\ s ∈ returned listing
                /\ r_activity s = activity
                /\ label time_text s = lbl.
Proof.
  intros Hdates Hd.
  destruct (decide (get_db_url cfg = "")) as [Hurl|Hurl].
  { rewrite (fetch_event_dates_stopped _ _ Hurl) in Hdates. discriminate. }
  rewrite (fetch_event_dates_run _ _ Hurl) in Hdates. injection Hdates as <-.
  simpl in Hd.
  rewrite (elem_of_distinct_ascending Z.ltb Z_ltb_total) in Hd.
  rewrite elem_of_session_dates in Hd. destruct Hd as (sid & s & Hs & Hdate).
  pose proof (fetch_sessions_run text_le cfg db d Hurl) as Hrun.
  eexists. split; [exact Hrun|].
  set (listing := {| returned := _; db_after := db; trace := _ |}) in *.
  assert (Hrow : with_remaining (group_row (bookings db) (sid, s))
                 ∈ returned listing).
  { apply (fetch_sessions_rows text_le cfg db d listing _ Hrun).
    exists s. simpl. auto. }
  split.
  - intros Hnone.
    assert (Hin : s_activity s ∈ activities (returned listing)).
    { apply elem_of_activities. eexists. split; [exact Hrow|reflexivity]. }
    rewrite Hnone in Hin. now apply elem_of_nil in Hin.
  - intros activity Hactivity.
    apply elem_of_activities in Hactivity as (row & Hin & Hact).
    assert (Hslot : row ∈ filtered (returned listing) activity).
    { apply list_elem_of_filter. auto. }
    split.
    + intros Hnone. unfold options in Hnone.
      apply fmap_nil_inv in Hnone. rewrite Hnone in Hslot.
      now apply elem_of_nil in Hslot.
    + intros lbl Hlbl.
      destruct (option_map_has_label _ lbl Hlbl) as [row' Hrow'].
      exists row'. split; [exact Hrow'|].
      apply option_map_lookup in Hrow' as [Hin' Hlbl'].
      apply list_elem_of_filter in Hin' as [Hact' Hin']. auto.
Qed.

End PageProperties.

End WidgetProperties.

Lemma last_slot_of_a_label_is_selected_witness :
  selected_session clock_text [morning_slot 1; morning_slot 2]
    (label clock_text (morning_slot 1))
  = Some (morning_slot 2).
Proof.
  apply (last_slot_of_a_label_is_selected clock_text
           [morning_slot 1] (morning_slot 2) []).
  intros s' Hs'. now apply elem_of_nil in Hs'.
Defined.

Lemma page_always_offers_a_slot_witness :
  exists listing,
    fetch_sessions String.leb Scenario.cfg two_dates 20240601 = Some listing
    /\ activities (returned listing) = ["Charla"; "Taller"].
Proof.
  destruct (page_always_offers_a_slot clock_text String.leb Scenario.cfg
              two_dates
              {| returned := [20240601; 20240602]; db_after := two_dates;
                 trace := [ExitCommit] |} 20240601)
    as (listing & Hlisting & _).
  - reflexivity.
  - apply list_elem_of_here.
  - exists listing. split; [assumption|].
    vm_compute in Hlisting. injection Hlisting as <-. reflexivity.
Defined.

(** ** The rows of the listing *)

Lemma NoDup_fst_filter {K V} (P : K * V -> Prop) `{!forall x, Decision (P x)}
    (l : list (K * V)) :
  NoDup l.*1 -> NoDup (filter P l).*1.
Proof.
  induction l as [|x l IH]; [intros; constructor|].
  rewrite fmap_cons, NoDup_cons, filter_cons. intros [Hx Hl].
  destruct (decide (P x)); [|auto].
  rewrite fmap_cons, NoDup_cons. split; [|auto].
  intros Hin. apply Hx.
  apply list_elem_of_fmap in Hin as (y & Hy & Hin).
  apply list_elem_of_filter in Hin as [_ Hin].
  apply list_elem_of_fmap. eauto.
Qed.

Section ListingRows.

Variable text_le : string -> string -> bool.

Lemma insert_row_perm r l : insert_row text_le r l ≡ₚ r :: l.
Proof.
  induction l as [|x l IH]; simpl; [reflexivity|].
  destruct (row_le text_le r x); [reflexivity|].
  rewrite IH. apply Permutation_swap.
Qed.

Lemma order_rows_perm l : order_rows text_le l ≡ₚ l.
Proof.
  induction l as [|x l IH]; simpl; [reflexivity|].
  change (insert_row text_le x (order_rows text_le l) ≡ₚ x :: l).
  now rewrite insert_row_perm, IH.
Qed.

(** X13: the listing of a date has one row for each session of that date
    and no other: no session identifier occurs twice and there are as many
    rows as sessions of the date. *)
Theorem listing_one_row_per_session cfg db event_date res :
  fetch_sessions text_le cfg db event_date = Some res ->
  NoDup (r_id <$> returned res)
  /\ length (returned res)
     = length (filter (fun entry => s_event_date entry.2 = event_date)
                 (map_to_list (sessions db))).
Proof.
  intros Hres.
  destruct (decide (get_db_url cfg = "")) as [Hurl|Hurl].
  { rewrite (fetch_sessions_stopped _ _ _ _ Hurl) in Hres. discriminate. }
  rewrite (fetch_sessions_run _ _ _ _ Hurl) in Hres. injection Hres as <-. simpl.
  split.
  - rewrite <- list_fmap_compose.
    rewrite (list_fmap_ext (r_id ∘ with_remaining) q_id) by reflexivity.
    rewrite order_rows_perm, <- list_fmap_compose.
    rewrite (list_fmap_ext (q_id ∘ group_row (bookings db)) fst) by reflexivity.
    apply NoDup_fst_filter, NoDup_fst_map_to_list.
  - now rewrite length_fmap, order_rows_perm, length_fmap.
Qed.

Hypothesis text_le_total : forall a b, text_le a b = true \/ text_le b a = true.

Lemma row_le_total a b :
  row_le text_le a b = false -> row_le text_le b a = true.
Proof.
  unfold row_le. rewrite (String.eqb_sym (q_activity b)).
  destruct (String.eqb (q_activity a) (q_activity b)).
  - rewrite Z.leb_gt, Z.leb_le. lia.
  - intros Hab. destruct (text_le_total (q_activity a) (q_activity b)); congruence.
Qed.

Lemma insert_row_sorted r l :
  Sorted (fun a b => row_le text_le a b = true) l ->
  Sorted (fun a b => row_le text_le a b = true) (insert_row text_le r l).
Proof.
  induction 1 as [|x l Hsorted IH Hx]; simpl.
  - repeat constructor.
  - destruct (row_le text_le r x) eqn:Hrx.
    + repeat constructor; assumption.
    + constructor; [assumption|].
      destruct l as [|y l]; simpl.
      * constructor. now apply row_le_total.
      * destruct (row_le text_le r y); constructor.
        -- now apply row_le_total.
        -- now inversion Hx.
Qed.

Lemma order_rows_sorted l :
  Sorted (fun a b => row_le text_le a b = true) (order_rows text_le l).
Proof.
  induction l as [|x l IH]; simpl; [constructor|].
  now apply insert_row_sorted.
Qed.

(** X14: when the collation of the store compares any two texts, the rows
    of the listing come ordered by activity and, within an activity, by start
    time: each row is listed before the next. *)
Theorem listing_is_ordered cfg db event_date res :
  fetch_sessions text_le cfg db event_date = Some res ->
  Sorted (fun a b => listed_before text_le a b = true) (returned res).
Proof.
  intros Hres.
  destruct (decide (get_db_url cfg = "")) as [Hurl|Hurl].
  { rewrite (fetch_sessions_stopped _ _ _ _ Hurl) in Hres. discriminate. }
  rewrite (fetch_sessions_run _ _ _ _ Hurl) in Hres. injection Hres as <-. simpl.
  eapply Sorted_fmap; [|apply order_rows_sorted].
  intros a b Hab. exact Hab.
Qed.

End ListingRows.

Lemma listing_one_row_per_session_witness :
  exists res,
    fetch_sessions String.leb Scenario.cfg two_dates 20240601 = Some res
    /\ NoDup (r_id <$> returned res)
    /\ length (returned res) = 2%nat.
Proof.
  eexists. split; [reflexivity|].
  apply (listing_one_row_per_session String.leb Scenario.cfg two_dates 20240601).
  reflexivity.
Defined.

Lemma listing_is_ordered_witness :
  exists res,
    fetch_sessions String.leb Scenario.cfg two_dates 20240601 = Some res
    /\ r_id <$> returned res = [3; 1]
    /\ Sorted (fun a b => listed_before String.leb a b = true) (returned res).
Proof.
  eexists. split; [reflexivity|]. split; [reflexivity|].
  apply (listing_is_ordered String.leb String.leb_total Scenario.cfg two_dates
           20240601).
  reflexivity.
Defined.

(** ** The checks of the form *)

Lemma lstrip_fixed s :
  match PyStr.first_char s with Some c => PyStr.isspace c | None => false end
  = false ->
  PyStr.lstrip s = s.
Proof. destruct s as [|c s]; simpl; [reflexivity|]. now intros ->. Qed.

Lemma rstrip_fixed s :
  match PyStr.last_char s with Some c => PyStr.isspace c | None => false end
  = false ->
  PyStr.rstrip s = s.
Proof.
  induction s as [|c s IH]; [reflexivity|].
  destruct s as [|d s].
  - simpl. now intros ->.
  - intros Hlast. change (PyStr.last_char (c :: d :: s))
      with (PyStr.last_char (d :: s)) in Hlast.
    change (PyStr.rstrip (c :: d :: s))
      with (match PyStr.rstrip (d :: s) with
            | [] => if PyStr.isspace c then [] else [c]
            | t => c :: t
            end).
    now rewrite (IH Hlast).
Qed.

Lemma strip_trimmed s : trimmed s = true -> PyStr.strip s = s.
Proof.
  unfold trimmed, PyStr.strip. intros Htrim.
  apply andb_true_iff in Htrim as [Hfirst Hlast].
  apply negb_true_iff in Hfirst, Hlast.
  now rewrite (lstrip_fixed s Hfirst), (rstrip_fixed s Hlast).
Qed.

Lemma strip_idem s : PyStr.strip (PyStr.strip s) = PyStr.strip s.
Proof. apply strip_trimmed, trimmed_strip. Qed.

Lemma eqb_isspace c d :
  PyStr.isspace c = false -> PyStr.isspace d = true -> (c =? d)%N = false.
Proof.
  intros Hc Hd. apply N.eqb_neq. intros ->. congruence.
Qed.

Lemma contains_lstrip c s :
  PyStr.isspace (PyStr.code c) = false ->
  PyStr.contains c (PyStr.lstrip s) = PyStr.contains c s.
Proof.
  intros Hc. induction s as [|d s IH]; [reflexivity|]. simpl.
  destruct (PyStr.isspace d) eqn:Hd; [|reflexivity].
  now rewrite (eqb_isspace _ d Hc Hd).
Qed.

Lemma contains_rstrip c s :
  PyStr.isspace (PyStr.code c) = false ->
  PyStr.contains c (PyStr.rstrip s) = PyStr.contains c s.
Proof.
  intros Hc. induction s as [|d s IH]; [reflexivity|]. simpl.
  destruct (PyStr.rstrip s) as [|d' t].
  - simpl in IH. rewrite <- IH.
    destruct (PyStr.isspace d) eqn:Hd; simpl.
    + now rewrite (eqb_isspace _ d Hc Hd).
    + reflexivity.
  - simpl. simpl in IH. now rewrite IH.
Qed.

Lemma contains_app c (l k : PyStr.str) :
  PyStr.contains c (l ++ k)%list = PyStr.contains c l || PyStr.contains c k.
Proof.
  induction l as [|d l IH]; [reflexivity|]. simpl.
  destruct (PyStr.code c =? d)%N; [reflexivity|exact IH].
Qed.

Lemma contains_elem c (l : PyStr.str) :
  PyStr.contains c l = true <-> PyStr.code c ∈ l.
Proof.
  induction l as [|d l IH]; simpl.
  - split; [discriminate|]. intros Hin. inversion Hin.
  - rewrite elem_of_cons, <- IH.
    destruct (N.eqb_spec (PyStr.code c) d) as [Heq|Hne]; [tauto|].
    split; [tauto|]. intros [?|?]; [contradiction|assumption].
Qed.

(** A character that lowering neither makes nor removes is in the lowered
    string exactly when it was in the string. *)
Lemma contains_lower c s :
  (forall d x, x ∈ PyStr.lower_char d ->
               (x = PyStr.code c <-> d = PyStr.code c)) ->
  PyStr.code c <> 0x3A3%N ->
  PyStr.code c <> 0x3C2%N ->
  PyStr.code c <> 0x3C3%N ->
  PyStr.contains c (PyStr.lower s) = PyStr.contains c s.
Proof.
  intros Hkeeps Hcapital Hfinal Hsmall. unfold PyStr.lower.
  generalize (@nil N) as before.
  induction s as [|d s IH]; intros before; [reflexivity|].
  simpl. rewrite contains_app, IH.
  assert (Hat : PyStr.contains c (PyStr.lower_at before d s)
                = (PyStr.code c =? d)%N).
  { destruct (N.eqb_spec (PyStr.code c) d) as [Heq|Hne].
    - apply contains_elem.
      destruct (lower_at_cases before d s) as [(-> & _) | (_ & ->)];
        [contradiction|].
      destruct (PyStr.lower_char d) as [|x l] eqn:Hd;
        [now apply lower_char_nonempty in Hd|].
      assert (Hx : x ∈ PyStr.lower_char d) by (rewrite Hd; left).
      apply Hkeeps in Hx. rewrite (proj2 Hx (eq_sym Heq)). left.
    - apply not_true_is_false. intros Hin. apply contains_elem in Hin.
      destruct (lower_at_cases before d s)
        as [(-> & [Hat | Hat]) | (_ & Hat)]; rewrite Hat in Hin.
      + apply list_elem_of_singleton in Hin. contradiction.
      + apply list_elem_of_singleton in Hin. contradiction.
      + apply Hkeeps in Hin. apply Hne. symmetry. now apply Hin. }
  rewrite Hat. now destruct (PyStr.code c =? d)%N.
Qed.

Lemma contains_at_sign s :
  PyStr.contains "@" (PyStr.lower (PyStr.strip s)) = PyStr.contains "@" s.
Proof.
  unfold PyStr.strip.
  rewrite (contains_lower "@" _ lower_char_at_sign)
    by (vm_compute; discriminate).
  now rewrite contains_rstrip, contains_lstrip.
Qed.

Lemma contains_dot s :
  PyStr.contains "." (PyStr.lower (PyStr.strip s)) = PyStr.contains "." s.
Proof.
  unfold PyStr.strip.
  rewrite (contains_lower "." _ lower_char_dot)
    by (vm_compute; discriminate).
  now rewrite contains_rstrip, contains_lstrip.
Qed.

(** After [strip] the pattern can only have matched to the very end of the
    text: the final newline that [$] lets pass is white space. *)
Lemma match_PHONE_REGEX_strip s :
  match_PHONE_REGEX (PyStr.strip s) = phone_body (PyStr.strip s).
Proof.
  unfold match_PHONE_REGEX.
  destruct (PyStr.last_char (PyStr.strip s)) as [c|] eqn:Hlast;
    [|apply orb_false_r].
  apply rstrip_last in Hlast.
  destruct (N.eqb_spec c 10%N) as [Hnl|_]; [|apply orb_false_r].
  exfalso. rewrite Hnl in Hlast. vm_compute in Hlast. discriminate.
Qed.

Lemma truthy_str (s : PyStr.str) : PyStr.truthy s = true <-> s <> [].
Proof. destruct s; simpl; split; intros; congruence. Qed.

Lemma booking_request_checks sel form sid n p e :
  booking_request sel form = Call sid n p e ->
  0 < r_remaining sel
  /\ PyStr.truthy (PyStr.strip (f_full_name form)) = true
  /\ match_PHONE_REGEX (PyStr.strip (f_phone form)) = true
  /\ PyStr.contains "@" (f_email form) = true
  /\ PyStr.contains "." (f_email form) = true
  /\ f_consent form = true.
Proof.
  unfold booking_request.
  destruct (Z.leb_spec (r_remaining sel) 0); [discriminate|].
  destruct (PyStr.truthy _); [|discriminate].
  destruct (match_PHONE_REGEX _); [|discriminate].
  destruct (PyStr.contains "@" _); [|discriminate].
  destruct (PyStr.contains "." _); [|discriminate].
  destruct (f_consent form); [|discriminate].
  intros _. repeat split; try reflexivity. assumption.
Qed.

(** X15: a submission reaches [create_booking_atomic] only when the slot
    selected showed a free seat and the consent box was ticked, and then with
    a name that is not empty, a phone of 7 to 20 characters that are all
    digits, plus signs, brackets, spaces or hyphens, and an email that
    contains an at sign and a dot. *)
Theorem accepted_request_is_valid sel form sid full_name phone email :
  booking_request sel form = Call sid full_name phone email ->
  0 < r_remaining sel
  /\ f_consent form = true
  /\ full_name <> ""
  /\ PyStr.all_chars phone_char phone = true
  /\ (7 <= length phone <= 20)%nat
  /\ PyStr.contains "@" email = true
  /\ PyStr.contains "." email = true.
Proof.
  intros Hcall.
  destruct (booking_request_checks _ _ _ _ _ _ Hcall)
    as (Hseat & Hname & Hphone & Hat & Hdot & Hconsent).
  apply booking_request_call in Hcall as (_ & -> & -> & ->).
  rewrite match_PHONE_REGEX_strip in Hphone. unfold phone_body in Hphone.
  apply andb_true_iff in Hphone as [Hphone Hmax].
  apply andb_true_iff in Hphone as [Hclass Hmin].
  apply Nat.leb_le in Hmin, Hmax.
  repeat split; try assumption.
  - now apply truthy_str.
  - now rewrite contains_at_sign.
  - now rewrite contains_dot.
Qed.

Lemma accepted_request_is_valid_witness :
  0 < r_remaining Page.selected
  /\ f_consent Page.form = true
  /\ PyStr.of_string "Ana Ruiz" <> ""
  /\ PyStr.all_chars phone_char "+34 600 123 456" = true
  /\ (7 <= length (PyStr.of_string "+34 600 123 456") <= 20)%nat
  /\ PyStr.contains "@" "ana.ruiz@example.org" = true
  /\ PyStr.contains "." "ana.ruiz@example.org" = true.
Proof.
  apply (accepted_request_is_valid Page.selected Page.form 1).
  reflexivity.
Defined.

(** X16: what the form passes on is already normal: a form filled in with
    the values that were passed on for an accepted submission is accepted
    again and passes on the same values. *)
Theorem accepted_values_are_stable sel form sid full_name phone email :
  booking_request sel form = Call sid full_name phone email ->
  booking_request sel
    {| f_full_name := full_name; f_phone := phone; f_email := email;
       f_consent := true |}
  = Call sid full_name phone email.
Proof.
  intros Hcall.
  destruct (booking_request_checks _ _ _ _ _ _ Hcall)
    as (Hseat & Hname & Hphone & Hat & Hdot & Hconsent).
  apply booking_request_call in Hcall as (-> & -> & -> & ->).
  unfold booking_request. simpl.
  destruct (Z.leb_spec (r_remaining sel) 0); [lia|].
  rewrite !strip_idem, Hname, Hphone. simpl.
  rewrite contains_at_sign, Hat, contains_dot, Hdot. simpl.
  rewrite (strip_trimmed (PyStr.lower _))
    by (rewrite trimmed_lower; apply trimmed_strip).
  now rewrite lower_idem.
Qed.

Lemma accepted_values_are_stable_witness :
  booking_request Page.selected
    {| f_full_name := "Ana Ruiz"; f_phone := "+34 600 123 456";
       f_email := "ana.ruiz@example.org"; f_consent := true |}
  = Call 1 "Ana Ruiz" "+34 600 123 456" "ana.ruiz@example.org".
Proof.
  apply (accepted_values_are_stable Page.selected Page.form).
  reflexivity.
Defined.

(** ** What a submission does to the store *)

Lemma on_submit_run cfg db sel form :
  on_submit cfg db sel form =
  match booking_request sel form with
  | Invalid msg => (Error msg, db)
  | Call sid n p e =>
      if decide (get_db_url cfg = "") then (Stopped, db)
      else
        match sessions db !! sid with
        | None => (Error MSG_NOT_FOUND, db)
        | Some s =>
            if decide (s_capacity s - booked_count db sid <= 0)
            then (Error MSG_FULL, db)
            else (Success MSG_CONFIRMED, with_row db (new_row db sid n p e))
        end
  end.
Proof.
  unfold on_submit.
  destruct (booking_request sel form) as [msg|sid n p e]; [reflexivity|].
  destruct (create_booking_path cfg db sid n p e)
    as [Hurl|Hurl Hs|s Hurl Hs Hfull|s Hurl Hs Hfree];
    destruct (decide (get_db_url cfg = "")); try contradiction;
    try reflexivity; rewrite Hs; try reflexivity;
    destruct (decide (s_capacity s - booked_count db sid <= 0));
    try reflexivity; lia.
Qed.

(** X17: a submission changes the store only when it shows the
    confirmation, and then by exactly one booking: a new row for the slot
    selected, with the next identifier, with no white space at either end of
    a field and with an email that [str.lower] leaves as it is.  After any
    other answer (a failed check, no connection, a session that is full or
    gone) the store is as it was. *)
Theorem submission_writes_only_on_success cfg db sel form :
  (forall msg,
     (on_submit cfg db sel form).1 = Success msg ->
     msg = MSG_CONFIRMED
     /\ exists row,
          (on_submit cfg db sel form).2 = with_row db row
          /\ b_id row = bookings_id_seq db
          /\ b_session_id row = r_id sel
          /\ normalized row)
  /\ ((forall msg, (on_submit cfg db sel form).1 <> Success msg) ->
      (on_submit cfg db sel form).2 = db).
Proof.
  rewrite on_submit_run.
  destruct (booking_request sel form) as [msg'|sid n p e] eqn:Hcall.
  { split; [discriminate|reflexivity]. }
  pose proof (normalized_new_row db sel form sid n p e Hcall) as Hnormal.
  apply booking_request_call in Hcall as (-> & _).
  destruct (decide (get_db_url cfg = "")); [split; [discriminate|reflexivity]|].
  destruct (sessions db !! r_id sel) as [s|];
    [|split; [discriminate|reflexivity]].
  destruct (decide (s_capacity s - booked_count db (r_id sel) <= 0));
    [split; [discriminate|reflexivity]|].
  simpl. split.
  - intros msg Hmsg. injection Hmsg as <-. split; [reflexivity|].
    eexists. split; [reflexivity|]. auto.
  - intros Hnever. now contradiction (Hnever MSG_CONFIRMED).
Qed.

(** X18: the seats shown on the page are only a first check: a submission
    is confirmed only when the slot selected showed a free seat and the store
    still has one at that moment; with a listing that is out of date, a valid
    form for a session that has filled up is answered that the session is
    full, and one for a session that is gone that it was not found, the
    store staying as it was. *)
Theorem seats_are_checked_twice cfg db sel form sid full_name phone email :
  get_db_url cfg <> "" ->
  booking_request sel form = Call sid full_name phone email ->
  match sessions db !! r_id sel with
  | None => on_submit cfg db sel form = (Error MSG_NOT_FOUND, db)
  | Some s =>
      if decide (booked_count db (r_id sel) < s_capacity s)
      then (on_submit cfg db sel form).1 = Success MSG_CONFIRMED
      else on_submit cfg db sel form = (Error MSG_FULL, db)
  end
  /\ 0 < r_remaining sel.
Proof.
  intros Hurl Hcall. rewrite on_submit_run, Hcall.
  destruct (booking_request_checks _ _ _ _ _ _ Hcall) as (Hseat & _).
  apply booking_request_call in Hcall as (-> & _).
  destruct (decide (get_db_url cfg = "")); [contradiction|].
  split; [|assumption].
  destruct (sessions db !! r_id sel) as [s|]; [|reflexivity].
  destruct (decide (s_capacity s - booked_count db (r_id sel) <= 0));
    destruct (decide (booked_count db (r_id sel) < s_capacity s));
    try reflexivity; lia.
Qed.

Lemma seats_are_checked_twice_witness :
  on_submit Scenario.cfg Scenario.db_B Page.selected Page.form
  = (Error MSG_FULL, Scenario.db_B)
  /\ 0 < r_remaining Page.selected.
Proof.
  apply (seats_are_checked_twice Scenario.cfg Scenario.db_B Page.selected
           Page.form 1 "Ana Ruiz" "+34 600 123 456" "ana.ruiz@example.org").
  - vm_compute. discriminate.
  - reflexivity.
Defined.

(** ** The admin listing *)

Lemma sum_column_cons (x : Z) (l : list Z) :
  sum_column (x :: l) = x + sum_column l.
Proof. reflexivity. Qed.

Lemma sum_column_perm (l k : list Z) : l ≡ₚ k -> sum_column l = sum_column k.
Proof.
  induction 1 as [|x l k _ IH|x y l|l k m _ IH1 _ IH2];
    rewrite ?sum_column_cons; [reflexivity|now rewrite IH|lia|congruence].
Qed.

Lemma sum_column_add {A} (f g : A -> Z) (l : list A) :
  sum_column ((fun x => f x + g x) <$> l)
  = sum_column (f <$> l) + sum_column (g <$> l).
Proof.
  induction l as [|x l IH]; [reflexivity|].
  rewrite !fmap_cons, !sum_column_cons, IH. lia.
Qed.

Lemma sum_column_zero {A} (l : list A) :
  sum_column ((fun _ => 0) <$> l) = 0.
Proof.
  induction l as [|x l IH]; [reflexivity|].
  now rewrite fmap_cons, sum_column_cons, IH.
Qed.

Lemma sum_column_nonneg (l : list Z) :
  Forall (fun x => 0 <= x) l -> 0 <= sum_column l.
Proof.
  induction 1 as [|x l Hx _ IH]; [reflexivity|].
  rewrite sum_column_cons. lia.
Qed.

Lemma sum_column_is_zero (l : list Z) :
  Forall (fun x => 0 <= x) l -> sum_column l = 0 -> Forall (fun x => x = 0) l.
Proof.
  induction 1 as [|x l Hx Hl IH]; intros Hsum; [constructor|].
  pose proof (sum_column_nonneg _ Hl) as Hpos.
  rewrite sum_column_cons in Hsum.
  constructor; [lia|apply IH; lia].
Qed.

(** How many entries of a table's listing have the key [k]: one when the
    key is listed, none otherwise. *)
Lemma sum_column_key {B} (l : list (Z * B)) (k : Z) :
  NoDup l.*1 ->
  sum_column ((fun e => if decide (k = e.1) then 1 else 0) <$> l)
  = if decide (k ∈ l.*1) then 1 else 0.
Proof.
  induction l as [|[k' v] l IH]; intros Hnd.
  - simpl. destruct (decide (k ∈ [])) as [Hin|_]; [inversion Hin|reflexivity].
  - rewrite !fmap_cons in *. rewrite sum_column_cons.
    apply NoDup_cons in Hnd as [Hnotin Hnd]. rewrite (IH Hnd). simpl.
    destruct (decide (k = k')) as [->|Hne].
    + destruct (decide (k' ∈ l.*1)) as [Hin|_]; [contradiction|].
      destruct (decide (k' ∈ k' :: l.*1)) as [_|Hout]; [reflexivity|].
      exfalso. apply Hout. left.
    + destruct (decide (k ∈ l.*1)) as [Hin|Hout];
        destruct (decide (k ∈ k' :: l.*1)) as [Hin'|Hout']; try reflexivity.
      * exfalso. apply Hout'. now right.
      * exfalso. apply elem_of_cons in Hin' as [?|?]; contradiction.
Qed.

Section AdminListingProperties.

Variable text_le : string -> string -> bool.
Variable created_at : Booking -> Z.

Lemma insert_booking_row_perm r l :
  insert_booking_row text_le r l ≡ₚ r :: l.
Proof.
  induction l as [|x l IH]; simpl; [reflexivity|].
  destruct (booking_row_le text_le r x); [reflexivity|].
  rewrite IH. apply Permutation_swap.
Qed.

Lemma order_booking_rows_perm l : order_booking_rows text_le l ≡ₚ l.
Proof.
  induction l as [|x l IH]; simpl; [reflexivity|].
  change (insert_booking_row text_le x (order_booking_rows text_le l) ≡ₚ x :: l).
  now rewrite insert_booking_row_perm, IH.
Qed.

Lemma fetch_bookings_run cfg db event_date :
  get_db_url cfg <> "" ->
  fetch_bookings text_le created_at cfg db event_date =
  Some {| returned :=
            order_booking_rows text_le
              (omap (join_session created_at event_date (sessions db))
                    (bookings db));
          db_after := db;
          trace := [ExitCommit] |}.
Proof.
  intros Hurl. unfold fetch_bookings, with_connection.
  rewrite (connect_with_url _ _ Hurl). simpl.
  unfold visible_bookings. simpl.
  now rewrite !app_nil_r, DB_eta.
Qed.

Lemma fetch_bookings_stopped cfg db event_date :
  get_db_url cfg = "" ->
  fetch_bookings text_le created_at cfg db event_date = None.
Proof.
  intros Hurl. unfold fetch_bookings, with_connection.
  now rewrite (connect_without_url _ _ Hurl).
Qed.

Lemma fetch_bookings_connected cfg db event_date res :
  fetch_bookings text_le created_at cfg db event_date = Some res ->
  get_db_url cfg <> "".
Proof.
  intros Hrun Hurl. now rewrite (fetch_bookings_stopped _ _ _ Hurl) in Hrun.
Qed.

Lemma join_session_some event_date table b row :
  join_session created_at event_date table b = Some row <->
  exists s,
    table !! b_session_id b = Some s
    /\ s_event_date s = event_date
    /\ row = {| k_event_date := event_date;
                k_activity := s_activity s;
                k_start_time := s_start_time s;
                k_end_time := s_end_time s;
                k_full_name := b_full_name b;
                k_phone := b_phone b;
                k_email := b_email b;
                k_created_at := created_at b |}.
Proof.
  unfold join_session. split.
  - destruct (table !! b_session_id b) as [s|]; [|discriminate].
    destruct (decide (s_event_date s = event_date)) as [Hd|_]; [|discriminate].
    intros [= <-]. exists s. now rewrite Hd.
  - intros (s & -> & Hd & ->).
    destruct (decide (s_event_date s = event_date)) as [_|Hne];
      [now rewrite Hd|contradiction].
Qed.

(** The join keeps a booking exactly when its session is listed for the
    date. *)
Lemma length_join_session event_date (table : gmap Z Session) rows :
  Z.of_nat (length (omap (join_session created_at event_date table) rows))
  = sum_column
      ((fun entry : Z * Session => count_bookings entry.1 rows) <$>
         filter (fun entry => s_event_date entry.2 = event_date)
                (map_to_list table)).
Proof.
  set (listed := filter (fun entry : Z * Session => s_event_date entry.2 = event_date)
                        (map_to_list table)).
  assert (Hnd : NoDup listed.*1).
  { apply NoDup_fst_filter, NoDup_fst_map_to_list. }
  assert (Hin : forall k, k ∈ listed.*1 <->
            exists s, table !! k = Some s /\ s_event_date s = event_date).
  { intros k. unfold listed. rewrite list_elem_of_fmap. split.
    - intros ([k' s] & -> & Hs). apply list_elem_of_filter in Hs as [Hd Hs].
      apply elem_of_map_to_list in Hs. now exists s.
    - intros (s & Hs & Hd). exists (k, s). split; [reflexivity|].
      apply list_elem_of_filter. split; [exact Hd|].
      now apply elem_of_map_to_list. }
  induction rows as [|b rows IH].
  - transitivity (sum_column ((fun _ : Z * Session => 0) <$> listed));
      [now rewrite sum_column_zero|].
    reflexivity.
  - assert (Hsplit :
      (fun entry : Z * Session => count_bookings entry.1 (b :: rows)) <$> listed
      = (fun entry : Z * Session =>
           (if decide (b_session_id b = entry.1) then 1 else 0)
           + count_bookings entry.1 rows) <$> listed).
    { apply list_fmap_ext. intros _ [k s] _. unfold count_bookings. simpl.
      rewrite filter_cons.
      destruct (decide (b_session_id b = k)) as [Hk|Hk]; simpl.
      - rewrite Nat2Z.inj_succ. lia.
      - reflexivity. }
    rewrite Hsplit,
      (sum_column_add
         (fun entry : Z * Session =>
            if decide (b_session_id b = entry.1) then 1 else 0)
         (fun entry : Z * Session => count_bookings entry.1 rows)),
      <- IH, (sum_column_key listed (b_session_id b) Hnd).
    simpl.
    destruct (join_session created_at event_date table b) as [row|] eqn:Hjoin.
    + apply join_session_some in Hjoin as (s & Hs & Hd & _).
      destruct (decide (b_session_id b ∈ listed.*1)) as [_|Hout].
      * simpl. rewrite Nat2Z.inj_succ. symmetry. apply Z.add_1_l.
      * exfalso. apply Hout, Hin. now exists s.
    + destruct (decide (b_session_id b ∈ listed.*1)) as [Hlisted|_]; [|reflexivity].
      apply Hin in Hlisted as (s & Hs & Hd).
      assert (Hsome : is_Some (join_session created_at event_date table b)).
      { eexists. apply join_session_some. exists s. eauto. }
      rewrite Hjoin in Hsome. destruct Hsome as [? [=]].
Qed.

End AdminListingProperties.

Section AdminView.

Variable text_le : string -> string -> bool.
Variable created_at : Booking -> Z.

Lemma elem_of_fetch_bookings cfg db event_date res row :
  fetch_bookings text_le created_at cfg db event_date = Some res ->
  row ∈ returned res <->
  exists b s,
    b ∈ bookings db
    /\ sessions db !! b_session_id b = Some s
    /\ s_event_date s = event_date
    /\ row = {| k_event_date := event_date;
                k_activity := s_activity s;
                k_start_time := s_start_time s;
                k_end_time := s_end_time s;
                k_full_name := b_full_name b;
                k_phone := b_phone b;
                k_email := b_email b;
                k_created_at := created_at b |}.
Proof.
  intros Hres.
  pose proof (fetch_bookings_connected _ _ _ _ _ _ Hres) as Hurl.
  rewrite (fetch_bookings_run _ _ _ _ _ Hurl) in Hres. injection Hres as <-.
  simpl. rewrite (order_booking_rows_perm text_le), list_elem_of_omap.
  split.
  - intros (b & Hb & Hjoin). apply join_session_some in Hjoin as (s & ? & ? & ?).
    now exists b, s.
  - intros (b & s & Hb & Hs & Hd & Hrow). exists b. split; [exact Hb|].
    apply join_session_some. now exists s.
Qed.

(** X19: the admin listing of a date holds the bookings whose session exists
    and is of that date, each with the columns of its session, and nothing
    else: a booking of another date or of a session that is gone is left out.
    Reading it leaves the store as it was. *)
Theorem admin_listing_rows cfg db event_date res :
  fetch_bookings text_le created_at cfg db event_date = Some res ->
  db_after res = db
  /\ forall row,
       row ∈ returned res <->
       exists b s,
         b ∈ bookings db
         /\ sessions db !! b_session_id b = Some s
         /\ s_event_date s = event_date
         /\ row = {| k_event_date := event_date;
                     k_activity := s_activity s;
                     k_start_time := s_start_time s;
                     k_end_time := s_end_time s;
                     k_full_name := b_full_name b;
                     k_phone := b_phone b;
                     k_email := b_email b;
                     k_created_at := created_at b |}.
Proof.
  intros Hres. split.
  - pose proof (fetch_bookings_connected _ _ _ _ _ _ Hres) as Hurl.
    rewrite (fetch_bookings_run _ _ _ _ _ Hurl) in Hres. now injection Hres as <-.
  - intros row. exact (elem_of_fetch_bookings _ _ _ _ row Hres).
Qed.

Lemma booked_column cfg db event_date :
  get_db_url cfg <> "" ->
  exists listing,
    fetch_sessions text_le cfg db event_date = Some listing
    /\ sum_column (r_booked <$> returned listing)
       = sum_column
           ((fun entry : Z * Session => count_bookings entry.1 (bookings db)) <$>
              filter (fun entry => s_event_date entry.2 = event_date)
                     (map_to_list (sessions db)))
    /\ Forall (fun r => 0 <= r_booked r) (returned listing).
Proof.
  intros Hurl. eexists. split; [apply (fetch_sessions_run _ _ _ _ Hurl)|].
  simpl. split.
  - rewrite <- list_fmap_compose.
    rewrite (sum_column_perm _ _
               (fmap_Permutation _ _ _ (order_rows_perm text_le _))).
    rewrite <- list_fmap_compose. f_equal. apply list_fmap_ext.
    intros _ entry _. simpl. apply count_b_id_left_join.
  - apply Forall_forall. intros r Hr.
    apply list_elem_of_fmap in Hr as (q & -> & Hq).
    rewrite (order_rows_perm text_le) in Hq.
    apply list_elem_of_fmap in Hq as (entry & -> & _). simpl.
    rewrite count_b_id_left_join. unfold count_bookings. lia.
Qed.

(** X20: the admin listing of a date has as many rows as the public listing
    of that date counts booked seats, over all its sessions; so it is empty
    exactly when every session of the date is listed with no seat booked. *)
Theorem admin_listing_matches_counts cfg db event_date :
  get_db_url cfg <> "" ->
  exists res listing,
    fetch_bookings text_le created_at cfg db event_date = Some res
    /\ fetch_sessions text_le cfg db event_date = Some listing
    /\ Z.of_nat (length (returned res))
       = sum_column (r_booked <$> returned listing)
    /\ (returned res = []
        <-> Forall (fun r => r_booked r = 0) (returned listing)).
Proof.
  intros Hurl.
  destruct (booked_column cfg db event_date Hurl)
    as (listing & Hlisting & Hsum & Hpos).
  eexists _, listing.
  split; [apply (fetch_bookings_run _ _ _ _ _ Hurl)|].
  split; [exact Hlisting|]. simpl.
  assert (Hlen :
    Z.of_nat (length (order_booking_rows text_le
      (omap (join_session created_at event_date (sessions db)) (bookings db))))
    = sum_column (r_booked <$> returned listing)).
  { rewrite (Permutation_length (order_booking_rows_perm text_le _)), Hsum.
    apply length_join_session. }
  split; [exact Hlen|]. split.
  - intros Hnil. rewrite Hnil in Hlen. simpl in Hlen.
    assert (Hcolumn : Forall (fun x => x = 0) (r_booked <$> returned listing)).
    { apply sum_column_is_zero; [|now symmetry].
      rewrite Forall_fmap. exact Hpos. }
    rewrite Forall_fmap in Hcolumn. exact Hcolumn.
  - intros Hzero.
    assert (Hsum0 : sum_column (r_booked <$> returned listing) = 0).
    { clear -Hzero. induction Hzero as [|r l Hr _ IH]; [reflexivity|].
      rewrite fmap_cons, sum_column_cons, IH, Hr. reflexivity. }
    rewrite Hsum0 in Hlen.
    destruct (order_booking_rows text_le _); [reflexivity|].
    simpl in Hlen. lia.
Qed.

(** X21: the expander shows the table of bookings only for an entry that is
    not empty and equals the configured password, and then every row of the
    table is a booking of a session of the selected date; with the right
    password and a reachable store, it shows the note that there is no
    inscription exactly when no booking belongs to a session of that date. *)
Theorem inscriptions_need_the_password cfg db event_date admin_pw :
  (forall rows,
     (admin_view text_le created_at cfg db event_date admin_pw).2
     = Inscriptions rows ->
     admin_pw <> "" /\ admin_pw = get_admin_password cfg /\ rows <> []
     /\ forall row, row ∈ rows ->
          k_event_date row = event_date
          /\ exists b s,
               b ∈ bookings db
               /\ sessions db !! b_session_id b = Some s
               /\ s_event_date s = event_date
               /\ k_full_name row = b_full_name b
               /\ k_phone row = b_phone b
               /\ k_email row = b_email b)
  /\ (admin_pw <> "" -> admin_pw = get_admin_password cfg ->
      get_db_url cfg <> "" ->
      ((admin_view text_le created_at cfg db event_date admin_pw).2
       = NoInscriptions MSG_NO_INSCRIPTIONS
       <-> forall b s,
             b ∈ bookings db -> sessions db !! b_session_id b = Some s ->
             s_event_date s <> event_date)).
Proof.
  unfold admin_view. split.
  - intros rows.
    destruct (PyStr.truthy admin_pw) eqn:Hpw; simpl;
      [|intros [=]].
    apply truthy_true in Hpw.
    destruct (String.eqb_spec admin_pw (get_admin_password cfg)) as [Heq|Hne];
      simpl; [|intros [=]].
    destruct (fetch_bookings text_le created_at cfg db event_date)
      as [res|] eqn:Hres; [|intros [=]].
    destruct (returned res) as [|row0 rest] eqn:Hrows; intros [= <-].
    repeat split; [exact Hpw|exact Heq|discriminate| |].
    + rewrite <- Hrows in H.
      apply (elem_of_fetch_bookings _ _ _ _ _ Hres) in H
        as (b & s & _ & _ & _ & ->). reflexivity.
    + rewrite <- Hrows in H.
      apply (elem_of_fetch_bookings _ _ _ _ _ Hres) in H
        as (b & s & Hb & Hs & Hd & ->). now exists b, s.
  - intros Hpw Heq Hurl.
    apply truthy_true in Hpw. rewrite Hpw. simpl.
    destruct (String.eqb_spec admin_pw (get_admin_password cfg)) as [_|Hne];
      [|contradiction]. simpl.
    destruct (fetch_bookings text_le created_at cfg db event_date)
      as [res|] eqn:Hres;
      [|now rewrite (fetch_bookings_run _ _ _ _ _ Hurl) in Hres].
    pose proof (fun row => elem_of_fetch_bookings _ _ _ _ row Hres) as Hrows.
    destruct (returned res) as [|row0 rest].
    + split; [|reflexivity]. intros _ b s Hb Hs Hd.
      assert (Hin : {| k_event_date := event_date;
                       k_activity := s_activity s;
                       k_start_time := s_start_time s;
                       k_end_time := s_end_time s;
                       k_full_name := b_full_name b;
                       k_phone := b_phone b;
                       k_email := b_email b;
                       k_created_at := created_at b |} ∈ @nil BookingRow).
      { apply Hrows. now exists b, s. }
      inversion Hin.
    + split; [intros [=]|]. intros Hnone. exfalso.
      assert (Hin : row0 ∈ row0 :: rest) by left.
      apply Hrows in Hin as (b & s & Hb & Hs & Hd & _).
      exact (Hnone b s Hb Hs Hd).
Qed.

End AdminView.

Lemma admin_listing_rows_witness :
  exists res,
    fetch_bookings String.leb stamp Scenario.cfg two_dates 20240601 = Some res
    /\ length (returned res) = 1%nat
    /\ db_after res = two_dates.
Proof.
  eexists. split; [reflexivity|]. split; [reflexivity|].
  apply (admin_listing_rows String.leb stamp Scenario.cfg two_dates 20240601).
  reflexivity.
Defined.

Lemma admin_listing_matches_counts_witness :
  exists res listing,
    fetch_bookings String.leb stamp Scenario.cfg two_dates 20240601 = Some res
    /\ fetch_sessions String.leb Scenario.cfg two_dates 20240601 = Some listing
    /\ Z.of_nat (length (returned res))
       = sum_column (r_booked <$> returned listing)
    /\ (returned res = []
        <-> Forall (fun r => r_booked r = 0) (returned listing)).
Proof.
  apply (admin_listing_matches_counts String.leb stamp Scenario.cfg two_dates
           20240601).
  vm_compute. discriminate.
Defined.

Lemma inscriptions_need_the_password_witness :
  (admin_view String.leb stamp admin_page_cfg two_dates 20240602 "s3cret").2
  = NoInscriptions MSG_NO_INSCRIPTIONS
  <-> forall b s,
        b ∈ bookings two_dates ->
        sessions two_dates !! b_session_id b = Some s ->
        s_event_date s <> 20240602.
Proof.
  apply (inscriptions_need_the_password String.leb stamp admin_page_cfg
           two_dates 20240602 "s3cret").
  - discriminate.
  - reflexivity.
  - vm_compute. discriminate.
Defined.

(** ** Secrets and environment *)

(** X22: a value present among the secrets is the one used, whatever the
    environment holds, also when that value is empty: with an empty address
    among the secrets no call reaches the store, and with an empty password
    among the secrets no entry opens the admin panel, although the
    environment may hold usable values. *)
Theorem secrets_shadow_the_environment (cfg : Config)
    (section : gmap string string) (value : string) :
  (secrets cfg !! "db" = Some section -> section !! "url" = Some value ->
   get_db_url cfg = value
   /\ (value = "" ->
       forall db,
         connect cfg db = None
         /\ (forall sid full_name phone email,
               create_booking_atomic cfg db sid full_name phone email = None)
         /\ fetch_event_dates cfg db = None))
  /\ (secrets cfg !! "admin" = Some section ->
      section !! "password" = Some value ->
      get_admin_password cfg = value
      /\ (value = "" ->
          forall admin_pw msg, admin_panel cfg admin_pw <> Success msg)).
Proof.
  split; intros Hsection Hvalue.
  - assert (Hurl : get_db_url cfg = value).
    { unfold get_db_url. now rewrite Hsection, Hvalue. }
    split; [exact Hurl|]. intros -> db.
    pose proof (connect_without_url cfg db Hurl) as Hstop.
    split; [exact Hstop|]. split.
    + intros. unfold create_booking_atomic, with_connection. now rewrite Hstop.
    + unfold fetch_event_dates, with_connection. now rewrite Hstop.
  - assert (Hpw : get_admin_password cfg = value).
    { unfold get_admin_password. now rewrite Hsection, Hvalue. }
    split; [exact Hpw|]. intros -> admin_pw msg. unfold admin_panel.
    rewrite Hpw. destruct admin_pw as [|c rest]; simpl; discriminate.
Qed.

Lemma secrets_shadow_the_environment_witness :
  environ empty_secrets_cfg !! "DATABASE_URL" = Some "postgresql://event"
  /\ get_db_url empty_secrets_cfg = ""
  /\ connect empty_secrets_cfg Scenario.db_A = None.
Proof.
  split; [reflexivity|].
  destruct (secrets_shadow_the_environment empty_secrets_cfg
              {[ "url" := "" ]} "") as [Hdb _].
  destruct (Hdb eq_refl eq_refl) as [Hurl Hstop].
  split; [exact Hurl|].
  exact (proj1 (Hstop eq_refl Scenario.db_A)).
Defined.
